(** * Differential attention layer (multihead_flashdiff_1.py)

    A shallow embedding of [Diff-Transformer/diff/multihead_flashdiff_1.py]:
    the helper functions [repeat_kv] and [lambda_init_fn], the constructor
    of [MultiheadFlashDiff1] and its [forward] method.

    Python [float] is IEEE 754 binary64, which is what Rocq's primitive
    [float] implements, so scalar arithmetic done by the interpreter is
    modelled bit for bit.  Python [int] is [Z].  Exceptions are values of
    [result]. *)

From Stdlib Require Import ZArith List Bool Lia Floats Reals Lra.
Import ListNotations.

Set Warnings "-inexact-float".

(** ** Exceptions *)

Inductive PyError : Type :=
| ZeroDivisionError
| OverflowError
| ValueError
| RuntimeError
| IndexError.

Inductive result (A : Type) : Type :=
| Ok (a : A)
| Raise (e : PyError).

Arguments Ok {A} a.
Arguments Raise {A} e.

Definition bind {A B : Type} (r : result A) (k : A -> result B) : result B :=
  match r with
  | Ok a => k a
  | Raise e => Raise e
  end.

Declare Scope py_scope.
Delimit Scope py_scope with py.
Notation "x <- c ;; k" := (bind c (fun x => k))
  (at level 61, c at next level, right associativity) : py_scope.
Notation "' p <- c ;; k" := (bind c (fun x => let p := x in k))
  (at level 61, p pattern, c at next level, right associativity) : py_scope.

Definition is_ok {A : Type} (r : result A) : bool :=
  match r with Ok _ => true | Raise _ => false end.

Open Scope py_scope.

(** ** Python scalars *)

Module Py.

(** [float(n)] for an [int]: the nearest binary64 value, ties to even;
    [OverflowError] when that is not finite.  This is the conversion
    [float.__mul__] applies to an [int] operand. *)
Definition float_of_int (n : Z) : result float :=
  let r := SF2Prim (binary_normalize prec emax n 0 false) in
  if is_infinity r then Raise OverflowError else Ok r.

(** [a // b] and [a % b] on [int]: floor division, the remainder has the
    sign of the divisor; [Z.div] and [Z.modulo] follow the same convention.
    A zero divisor raises. *)
Definition floordiv (a b : Z) : result Z :=
  if (b =? 0)%Z then Raise ZeroDivisionError else Ok (a / b)%Z.

Section Math.

(** The C library's [exp] on doubles, which [math.exp] calls. *)
Variable libm_exp : float -> float.

(** [math.exp]: CPython's wrapper turns an infinite result on a finite
    argument into [OverflowError], and a NaN result on a non-NaN argument
    into [ValueError]. *)
Definition math_exp (x : float) : result float :=
  let r := libm_exp x in
  if is_nan r && negb (is_nan x) then Raise ValueError
  else if is_infinity r && is_finite x then Raise OverflowError
  else Ok r.

(** The C library's [pow] on doubles. *)
Variable libm_pow : float -> float -> float.

(** What [**] may return. *)
Inductive number : Type :=
| Float (f : float)
| Complex.

(** [b ** -0.5] for an [int] [b], following CPython's [float_pow] with the
    exponent fixed to [-0.5].  The base is first converted to a double,
    which is zero, negative or one exactly when the [int] is.  A zero base
    raises (negative power of zero); a negative base with a non-integral
    exponent yields a complex number, whose value is not modelled; a base
    of one yields one; otherwise the result is [pow(b, -0.5)]. *)
Definition pow_neg_half (b : Z) : result number :=
  x <- float_of_int b ;;
  if (b =? 0)%Z then Raise ZeroDivisionError
  else if (b <? 0)%Z then Ok Complex
  else if (b =? 1)%Z then Ok (Float 1%float)
  else Ok (Float (libm_pow x (-0.5)%float)).

End Math.

End Py.

(** ** [lambda_init_fn] *)

Section LambdaInit.

Variable libm_exp : float -> float.

(** [return 0.8 - 0.6 * math.exp(-0.3 * depth)] *)
Definition lambda_init_fn (depth : Z) : result float :=
  d <- Py.float_of_int depth ;;
  e <- Py.math_exp libm_exp (-0.3 * d)%float ;;
  Ok (0.8 - 0.6 * e)%float.

End LambdaInit.

(** What the contract of [lambda_init_fn] asks of the values at [depth]
    and [depth + 1]: both inside the open interval (0.2, 0.8), the second
    strictly above the first. *)
Definition open_interval_increasing (v w : float) : bool :=
  ((0.2 <? v) && (v <? 0.8) && (0.2 <? w) && (w <? 0.8) && (v <? w))%float.

(** The same formula read over the real numbers, in exact arithmetic; the
    code computes in binary64, which [lambda_init_fn] follows. *)
Definition lambda_init_real (depth : Z) : R :=
  (0.8 - 0.6 * exp (-0.3 * IZR depth))%R.

(** A stand-in for the C library's [exp], exact where C Annex F and
    rounding to nearest fix the result: [exp(+-0) = 1], [exp(x) = +0] once
    [e^x] is below half the least subnormal, [+inf] once it is above the
    largest double.  Between those it is only a placeholder; no theorem
    depends on its values there. *)
Definition exp_sample (x : float) : float :=
  if is_nan x then nan
  else if (x <=? -746)%float then 0%float
  else if (710 <=? x)%float then infinity
  else 1%float.

(** ** Tensors

    A tensor is its shape and its elements in row-major order.  Every
    tensor of the layer is contiguous, so [view] and [reshape] coincide. *)

Module Torch.

Record tensor (T : Type) : Type := mkTensor { shape : list Z; data : list T }.

Arguments mkTensor {T} shape data.
Arguments shape {T} t.
Arguments data {T} t.

Definition numel (sh : list Z) : Z := fold_right Z.mul 1%Z sh.

Section Tensor.

Context {T : Type}.

(** The [i]-th block of [n] consecutive elements. *)
Definition chunk (n : nat) (d : list T) (i : nat) : list T :=
  firstn n (skipn (i * n) d).

Definition chunks (n count : nat) (d : list T) : list (list T) :=
  map (chunk n d) (seq 0 count).

(** [x[i0, i1, ...]] with every index in range. *)
Fixpoint index (sh : list Z) (d : list T) (idx : list Z) : option T :=
  match sh, idx with
  | [], [] => hd_error d
  | n :: sh', i :: idx' =>
      if ((0 <=? i) && (i <? n))%Z
      then index sh' (chunk (Z.to_nat (numel sh')) d (Z.to_nat i)) idx'
      else None
  | _, _ => None
  end.

Definition get (x : tensor T) (idx : list Z) : option T :=
  index (shape x) (data x) idx.

(** [a, b, c = x.size()] *)
Definition size3 (x : tensor T) : result (Z * Z * Z) :=
  match shape x with
  | [a; b; c] => Ok (a, b, c)
  | _ => Raise ValueError
  end.

(** [a, b, c, d = x.shape] *)
Definition size4 (x : tensor T) : result (Z * Z * Z * Z) :=
  match shape x with
  | [a; b; c; d] => Ok (a, b, c, d)
  | _ => Raise ValueError
  end.

(** [x.unsqueeze(dim)], which is what indexing with [None] does. *)
Definition unsqueeze (dim : nat) (x : tensor T) : result (tensor T) :=
  if (dim <=? length (shape x))%nat
  then Ok (mkTensor (firstn dim (shape x) ++ 1%Z :: skipn dim (shape x))
                    (data x))
  else Raise IndexError.

(** Sizes after [expand]: [-1] keeps a dimension, a dimension of size 1
    may be stretched, any other must be left as it is. *)
Fixpoint expand_sizes (old new : list Z) : result (list Z) :=
  match old, new with
  | [], [] => Ok []
  | o :: old', n :: new' =>
      rest <- expand_sizes old' new' ;;
      if (n =? -1)%Z then Ok (o :: rest)
      else if (n <? 0)%Z then Raise RuntimeError
      else if ((o =? n) || (o =? 1))%Z then Ok (n :: rest)
      else Raise RuntimeError
  | _, _ => Raise RuntimeError
  end.

Fixpoint expand_data (old new : list Z) (d : list T) : list T :=
  match old, new with
  | o :: old', n :: new' =>
      if (o =? n)%Z
      then concat (map (expand_data old' new')
                       (chunks (Z.to_nat (numel old')) (Z.to_nat o) d))
      else concat (repeat (expand_data old' new' d) (Z.to_nat n))
  | _, _ => d
  end.

(** [x.expand] to the given sizes; new leading dimensions are allowed and cannot be
    [-1]. *)
Definition expand (x : tensor T) (sizes : list Z) : result (tensor T) :=
  let lead := (length sizes - length (shape x))%nat in
  if (length sizes <? length (shape x))%nat then Raise RuntimeError
  else if existsb (fun n => (n <? 0)%Z) (firstn lead sizes)
  then Raise RuntimeError
  else
    let old := repeat 1%Z lead ++ shape x in
    new <- expand_sizes old sizes ;;
    Ok (mkTensor new (expand_data old new (data x))).

(** The sizes [reshape] settles on for [n] elements: at most one [-1],
    which is inferred. *)
Definition infer_sizes (n : Z) (sizes : list Z) : result (list Z) :=
  if existsb (fun s => (s <? -1)%Z) sizes then Raise RuntimeError
  else
    match count_occ Z.eq_dec sizes (-1)%Z with
    | O => if (numel sizes =? n)%Z then Ok sizes else Raise RuntimeError
    | S O =>
        let known := numel (filter (fun s => negb (s =? -1)%Z) sizes) in
        if ((known =? 0) || negb (n mod known =? 0))%Z
        then Raise RuntimeError
        else Ok (map (fun s => if (s =? -1)%Z then (n / known)%Z else s)
                     sizes)
    | _ => Raise RuntimeError
    end.

Definition reshape (x : tensor T) (sizes : list Z) : result (tensor T) :=
  new <- infer_sizes (Z.of_nat (length (data x))) sizes ;;
  Ok (mkTensor new (data x)).

Definition view : tensor T -> list Z -> result (tensor T) := reshape.

Fixpoint select_data (sh : list Z) (dim i : nat) (d : list T) : list T :=
  match sh, dim with
  | _ :: sh', O => chunk (Z.to_nat (numel sh')) d i
  | n :: sh', S dim' =>
      concat (map (select_data sh' dim' i)
                  (chunks (Z.to_nat (numel sh')) (Z.to_nat n) d))
  | [], _ => d
  end.

(** [x.select(dim, i)]: [x[:, :, :, i]] is [select 3 i x].  A negative
    index counts from the end. *)
Definition select (dim : nat) (i : Z) (x : tensor T) : result (tensor T) :=
  match nth_error (shape x) dim with
  | None => Raise IndexError
  | Some n =>
      let j := (if i <? 0 then i + n else i)%Z in
      if ((0 <=? j) && (j <? n))%Z
      then Ok (mkTensor (firstn dim (shape x) ++ skipn (S dim) (shape x))
                        (select_data (shape x) dim (Z.to_nat j) (data x)))
      else Raise IndexError
  end.

(** A 0-dimensional tensor. *)
Definition scalar (v : T) : tensor T := mkTensor [] [v].

(** [torch.zeros(n)], given the zero of the element type. *)
Definition zeros (zero : T) (n : Z) : result (tensor T) :=
  if (n <? 0)%Z then Raise RuntimeError
  else Ok (mkTensor [n] (repeat zero (Z.to_nat n))).

(** [torch.sum(x, dim=-1)], given the sum of a row. *)
Definition sum_last (row_sum : list T -> T) (x : tensor T) : tensor T :=
  match rev (shape x) with
  | [] => mkTensor [] [row_sum (data x)]
  | n :: rest =>
      mkTensor (rev rest)
               (map row_sum (chunks (Z.to_nat n) (Z.to_nat (numel rest))
                                    (data x)))
  end.

End Tensor.

(** An elementwise unary operation. *)
Definition tmap {A B : Type} (f : A -> B) (x : tensor A) : tensor B :=
  mkTensor (shape x) (map f (data x)).

Fixpoint broadcast_aligned (a b : list Z) : result (list Z) :=
  match a, b with
  | [], [] => Ok []
  | x :: a', y :: b' =>
      rest <- broadcast_aligned a' b' ;;
      if (x =? y)%Z then Ok (x :: rest)
      else if (x =? 1)%Z then Ok (y :: rest)
      else if (y =? 1)%Z then Ok (x :: rest)
      else Raise RuntimeError
  | _, _ => Raise RuntimeError
  end.

(** [torch.broadcast_shapes(a, b)]: shapes are aligned on the right. *)
Definition broadcast_shapes (a b : list Z) : result (list Z) :=
  let n := Nat.max (length a) (length b) in
  broadcast_aligned (repeat 1%Z (n - length a) ++ a)
                    (repeat 1%Z (n - length b) ++ b).

(** An elementwise binary operation, with broadcasting. *)
Definition lift2 {A B C : Type} (f : A -> B -> C)
    (x : tensor A) (y : tensor B) : result (tensor C) :=
  sh <- broadcast_shapes (shape x) (shape y) ;;
  x' <- expand x sh ;;
  y' <- expand y sh ;;
  Ok (mkTensor sh (map (fun p => f (fst p) (snd p))
                       (combine (data x') (data y')))).

End Torch.

Import Torch.

(** ** [repeat_kv] *)

(** [[
def repeat_kv(x, n_rep):
    bs, n_kv_heads, slen, head_dim = x.shape
    if n_rep == 1:
        return x
    return (x[:, :, None, :, :]
            .expand(bs, n_kv_heads, n_rep, slen, head_dim)
            .reshape(bs, n_kv_heads * n_rep, slen, head_dim))
]] *)
Definition repeat_kv {T : Type} (x : tensor T) (n_rep : Z)
  : result (tensor T) :=
  '(bs, n_kv_heads, slen, head_dim) <- size4 x ;;
  if (n_rep =? 1)%Z then Ok x
  else
    x <- unsqueeze 2 x ;;
    x <- expand x [bs; n_kv_heads; n_rep; slen; head_dim] ;;
    reshape x [bs; n_kv_heads * n_rep; slen; head_dim]%Z.

(** ** Well-formed tensors *)

Definition nonneg (sh : list Z) : Prop := Forall (fun n => (0 <= n)%Z) sh.

(** Sizes are not negative and there are as many elements as the shape
    says. *)
Definition wf {T : Type} (x : tensor T) : Prop :=
  nonneg (shape x) /\ Z.of_nat (length (data x)) = numel (shape x).

(** How [expand] may relate an old size to a new one. *)
Definition expandable (o n : Z) : Prop := (0 <= n)%Z /\ (o = n \/ o = 1%Z).

(** The index [expand] reads for an index of the expanded tensor: 0 along
    the dimensions it stretched. *)
Fixpoint broadcast_index (old new idx : list Z) : list Z :=
  match old, new, idx with
  | o :: old', n :: new', i :: idx' =>
      (if (o =? n)%Z then i else 0%Z) :: broadcast_index old' new' idx'
  | _, _, _ => idx
  end.

(** ** What the layer takes from its environment

    The element types of tensors with their arithmetic, the C library of
    the interpreter, and the modules and kernels the file imports
    ([ColumnParallelLinear], [RowParallelLinear], [RMSNorm],
    [apply_rotary_emb], [flash_attn_func]).

    [ptype] is the element type of the layer's own parameters, [ftype] is
    float32 (what [.float()] returns) and [dtype] the element type of the
    activations (what [.type_as(q)] returns).  A Python scalar meeting a
    tensor takes the tensor's element type: [of_py] is that conversion. *)

Class Backend : Type := {
  ptype : Type;
  ftype : Type;
  dtype : Type;
  p_zero : ptype;
  p_mul : ptype -> ptype -> ptype;
  p_sum : list ptype -> ptype;
  to_float : ptype -> ftype;
  f_exp : ftype -> ftype;
  type_as : ftype -> dtype;
  t_add : dtype -> dtype -> dtype;
  t_sub : dtype -> dtype -> dtype;
  t_mul : dtype -> dtype -> dtype;
  of_py : float -> dtype;
  libm_exp : float -> float;
  libm_pow : float -> float -> float;
  (** [tensor.normal_(mean, std)]; the first argument numbers the draw. *)
  normal_ : nat -> tensor ptype -> float -> float -> tensor ptype;
  linear : Type;
  (** [ColumnParallelLinear(in, out, bias=False, gather_output=False)] *)
  ColumnParallelLinear : Z -> Z -> result linear;
  (** [RowParallelLinear(in, out, bias=False, input_is_parallel=True)] *)
  RowParallelLinear : Z -> Z -> result linear;
  linear_call : linear -> tensor dtype -> result (tensor dtype);
  norm : Type;
  (** [RMSNorm(width, eps, elementwise_affine)] *)
  RMSNorm : Z -> float -> bool -> result norm;
  norm_call : norm -> tensor dtype -> result (tensor dtype);
  (** [apply_rotary_emb(x, *rel_pos, interleaved)] *)
  apply_rotary_emb :
    tensor dtype -> list (tensor dtype) -> bool -> result (tensor dtype);
  (** [flash_attn_func(q, k, v, causal)] *)
  flash_attn_func :
    tensor dtype -> tensor dtype -> tensor dtype -> bool ->
    result (tensor dtype)
}.

(** ** [MultiheadFlashDiff1] *)

Module MultiheadFlashDiff1.

(** The two fields of [args] the layer reads. *)
Record Args : Type := {
  model_parallel_size : Z;
  decoder_kv_attention_heads : option Z
}.

(** The value line 56 gives [self.num_kv_heads] when its division is
    defined. *)
Definition kv_heads_of (a : Args) (num_heads : Z) : Z :=
  match decoder_kv_attention_heads a with
  | Some kv => (kv / model_parallel_size a)%Z
  | None => (num_heads / model_parallel_size a)%Z
  end.

Section Layer.

Context {B : Backend}.

(** The attributes [__init__] sets on [self]. *)
Record Layer : Type := {
  args : Args;
  embed_dim : Z;
  num_heads : Z;
  num_kv_heads : Z;
  n_rep : Z;
  head_dim : Z;
  scaling : Py.number;
  q_proj : linear;
  k_proj : linear;
  v_proj : linear;
  out_proj : linear;
  lambda_init : float;
  lambda_q1 : tensor ptype;
  lambda_k1 : tensor ptype;
  lambda_q2 : tensor ptype;
  lambda_k2 : tensor ptype;
  subln : norm
}.

(** [nn.Parameter(torch.zeros(head_dim, dtype=torch.float32)
                   .normal_(mean=0, std=0.1))] *)
Definition new_lambda (draw : nat) (head_dim : Z) : result (tensor ptype) :=
  z <- zeros p_zero head_dim ;;
  Ok (normal_ draw z 0%float 0.1%float).

Definition __init__ (args : Args) (embed_dim depth num_heads : Z)
  : result Layer :=
  self_num_heads <- Py.floordiv num_heads (model_parallel_size args) ;;
  self_num_kv_heads <-
    match decoder_kv_attention_heads args with
    | Some kv => Py.floordiv kv (model_parallel_size args)
    | None => Py.floordiv num_heads (model_parallel_size args)
    end ;;
  self_n_rep <- Py.floordiv self_num_heads self_num_kv_heads ;;
  per_head <- Py.floordiv embed_dim num_heads ;;
  self_head_dim <- Py.floordiv per_head 2 ;;
  self_scaling <- Py.pow_neg_half libm_pow self_head_dim ;;
  self_q_proj <- ColumnParallelLinear embed_dim embed_dim ;;
  k_width <- Py.floordiv embed_dim self_n_rep ;;
  self_k_proj <- ColumnParallelLinear embed_dim k_width ;;
  v_width <- Py.floordiv embed_dim self_n_rep ;;
  self_v_proj <- ColumnParallelLinear embed_dim v_width ;;
  self_out_proj <- RowParallelLinear embed_dim embed_dim ;;
  self_lambda_init <- lambda_init_fn libm_exp depth ;;
  self_lambda_q1 <- new_lambda 0 self_head_dim ;;
  self_lambda_k1 <- new_lambda 1 self_head_dim ;;
  self_lambda_q2 <- new_lambda 2 self_head_dim ;;
  self_lambda_k2 <- new_lambda 3 self_head_dim ;;
  self_subln <- RMSNorm (2 * self_head_dim) 1e-5%float false ;;
  Ok {| args := args;
        embed_dim := embed_dim;
        num_heads := self_num_heads;
        num_kv_heads := self_num_kv_heads;
        n_rep := self_n_rep;
        head_dim := self_head_dim;
        scaling := self_scaling;
        q_proj := self_q_proj;
        k_proj := self_k_proj;
        v_proj := self_v_proj;
        out_proj := self_out_proj;
        lambda_init := self_lambda_init;
        lambda_q1 := self_lambda_q1;
        lambda_k1 := self_lambda_k1;
        lambda_q2 := self_lambda_q2;
        lambda_k2 := self_lambda_k2;
        subln := self_subln |}.

(** The same layer with other values in its four lambda vectors. *)
Definition with_lambdas (self : Layer) (q1 k1 q2 k2 : tensor ptype) : Layer :=
  {| args := args self;
     embed_dim := embed_dim self;
     num_heads := num_heads self;
     num_kv_heads := num_kv_heads self;
     n_rep := n_rep self;
     head_dim := head_dim self;
     scaling := scaling self;
     q_proj := q_proj self;
     k_proj := k_proj self;
     v_proj := v_proj self;
     out_proj := out_proj self;
     lambda_init := lambda_init self;
     lambda_q1 := q1;
     lambda_k1 := k1;
     lambda_q2 := q2;
     lambda_k2 := k2;
     subln := subln self |}.

(** What [torch.sum(lq * lk, dim=-1)] holds for two vectors of one
    length: the sum of their elementwise products. *)
Definition dot (lq lk : tensor ptype) : ptype :=
  p_sum (map (fun p => p_mul (fst p) (snd p)) (combine (data lq) (data lk))).

(** [torch.exp(torch.sum(lq * lk, dim=-1).float()).type_as(q)] *)
Definition lambda_gate (lq lk : tensor ptype) : result (tensor dtype) :=
  prod <- lift2 p_mul lq lk ;;
  Ok (tmap type_as (tmap f_exp (tmap to_float (sum_last p_sum prod)))).

(** The local variables of [forward] when it returns. *)
Record Frame : Type := {
  f_tgt_len : Z;
  f_src_len : Z;
  f_q1 : tensor dtype;
  f_q2 : tensor dtype;
  f_k1 : tensor dtype;
  f_k2 : tensor dtype;
  f_v : tensor dtype;
  f_attn1 : tensor dtype;
  f_attn2 : tensor dtype;
  f_lambda_1 : tensor dtype;
  f_lambda_2 : tensor dtype;
  f_lambda_full : tensor dtype;
  f_combined : tensor dtype;
  f_normed : tensor dtype;
  f_scaled : tensor dtype;
  f_flat : tensor dtype;
  f_out : tensor dtype
}.

(** Lines 82 to 94 of [forward]: projections, views, rotary embedding. *)
Definition forward_head (self : Layer) (x : tensor dtype)
    (rel_pos : list (tensor dtype))
  : result (Z * Z * Z * tensor dtype * tensor dtype * tensor dtype) :=
  '(bsz, tgt_len, embed_dim) <- size3 x ;;
  let src_len := tgt_len in
  q <- linear_call (q_proj self) x ;;
  k <- linear_call (k_proj self) x ;;
  v <- linear_call (v_proj self) x ;;
  q <- view q [bsz; tgt_len; 2 * num_heads self; head_dim self]%Z ;;
  k <- view k [bsz; src_len; 2 * num_kv_heads self; head_dim self]%Z ;;
  v <- view v [bsz; src_len; num_kv_heads self; 2 * head_dim self]%Z ;;
  q <- apply_rotary_emb q rel_pos true ;;
  k <- apply_rotary_emb k rel_pos true ;;
  Ok (bsz, tgt_len, src_len, q, k, v).

(** Lines 97 to 114 of [forward], with the value of the local [offset]
    of line 96 as a parameter. *)
Definition forward_tail (self : Layer) (bsz tgt_len src_len offset : Z)
    (q k v : tensor dtype) : result Frame :=
  q <- reshape q [bsz; tgt_len; num_heads self; 2; head_dim self]%Z ;;
  k <- reshape k [bsz; src_len; num_kv_heads self; 2; head_dim self]%Z ;;
  q1 <- select 3 0 q ;;
  q2 <- select 3 1 q ;;
  k1 <- select 3 0 k ;;
  k2 <- select 3 1 k ;;
  attn1 <- flash_attn_func q1 k1 v true ;;
  attn2 <- flash_attn_func q2 k2 v true ;;
  lambda_1 <- lambda_gate (lambda_q1 self) (lambda_k1 self) ;;
  lambda_2 <- lambda_gate (lambda_q2 self) (lambda_k2 self) ;;
  diff <- lift2 t_sub lambda_1 lambda_2 ;;
  lambda_full <- lift2 t_add diff (scalar (of_py (lambda_init self))) ;;
  gated <- lift2 t_mul lambda_full attn2 ;;
  attn <- lift2 t_sub attn1 gated ;;
  normed <- norm_call (subln self) attn ;;
  scaled <- lift2 t_mul normed
                  (scalar (of_py (1 - lambda_init self)%float)) ;;
  flat <- reshape scaled
                  [bsz; tgt_len; num_heads self * 2 * head_dim self]%Z ;;
  out <- linear_call (out_proj self) flat ;;
  Ok {| f_tgt_len := tgt_len;
        f_src_len := src_len;
        f_q1 := q1;
        f_q2 := q2;
        f_k1 := k1;
        f_k2 := k2;
        f_v := v;
        f_attn1 := attn1;
        f_attn2 := attn2;
        f_lambda_1 := lambda_1;
        f_lambda_2 := lambda_2;
        f_lambda_full := lambda_full;
        f_combined := attn;
        f_normed := normed;
        f_scaled := scaled;
        f_flat := flat;
        f_out := out |}.

(** [forward] with its locals. *)
Definition forward_frame (self : Layer) (x : tensor dtype)
    (rel_pos : list (tensor dtype)) (attn_mask : option (tensor dtype))
  : result Frame :=
  '(bsz, tgt_len, src_len, q, k, v) <- forward_head self x rel_pos ;;
  let offset := (src_len - tgt_len)%Z in
  forward_tail self bsz tgt_len src_len offset q k v.

Definition forward (self : Layer) (x : tensor dtype)
    (rel_pos : list (tensor dtype)) (attn_mask : option (tensor dtype))
  : result (tensor dtype) :=
  fr <- forward_frame self x rel_pos attn_mask ;;
  Ok (f_out fr).

End Layer.

Arguments Layer B : clear implicits.
Arguments Frame B : clear implicits.

End MultiheadFlashDiff1.

(** ** What the layer asks of its environment

    The shapes the kernels accept and return on one device.  These are
    the contracts of the imported modules; the layer itself checks
    nothing. *)

Section Contracts.

Context {B : Backend}.

(** A linear layer maps a last dimension of width [i] to width [o]. *)
Definition linear_maps (l : linear) (i o : Z) : Prop :=
  forall x pre, wf x -> shape x = pre ++ [i] ->
  exists y, linear_call l x = Ok y /\ wf y /\ shape y = pre ++ [o].

(** A normalization over a last dimension of width [w] keeps the shape. *)
Definition norm_keeps_shape (n : norm) (w : Z) : Prop :=
  forall x pre, wf x -> shape x = pre ++ [w] ->
  exists y, norm_call n x = Ok y /\ wf y /\ shape y = shape x.

(** Grouped-query attention: queries (b, s, h, d), keys (b, s, hk, d),
    values (b, s, hk, dv), [hk] dividing [h]; the result is (b, s, h, dv). *)
Definition attention_shapes : Prop :=
  forall q k v b s h hk d dv causal,
    wf q -> wf k -> wf v ->
    shape q = [b; s; h; d] -> shape k = [b; s; hk; d] ->
    shape v = [b; s; hk; dv] ->
    (0 < hk)%Z -> (h mod hk = 0)%Z ->
    exists o, flash_attn_func q k v causal = Ok o /\ wf o /\
              shape o = [b; s; h; dv].

(** Rotary parameters that match sequence length [s] and head width [d]:
    the interleaved rotary embedding accepts every tensor (b, s, h, d) and
    keeps its shape. *)
Definition rotary_matches (rel_pos : list (tensor dtype)) (s d : Z) : Prop :=
  forall x b h, wf x -> shape x = [b; s; h; d] ->
  exists y, apply_rotary_emb x rel_pos true = Ok y /\ wf y /\
            shape y = [b; s; h; d].

(** One device: the parallel linear layers are plain linear layers of the
    sizes they were created with. *)
Definition single_device : Prop :=
  (forall i o l, ColumnParallelLinear i o = Ok l -> linear_maps l i o) /\
  (forall i o l, RowParallelLinear i o = Ok l -> linear_maps l i o) /\
  (forall w eps affine n, RMSNorm w eps affine = Ok n ->
                          norm_keeps_shape n w) /\
  attention_shapes.

(** [p] devices: a column-parallel layer made for an output of width [o]
    returns the local part, of width [o / p]; a row-parallel layer made
    for an input of width [i] takes the local part, of width [i / p], and
    returns the full width. *)
Definition parallel_devices (p : Z) : Prop :=
  (forall i o l, ColumnParallelLinear i o = Ok l ->
                 linear_maps l i (o / p)%Z) /\
  (forall i o l, RowParallelLinear i o = Ok l ->
                 linear_maps l (i / p)%Z o) /\
  (forall w eps affine n, RMSNorm w eps affine = Ok n ->
                          norm_keeps_shape n w) /\
  attention_shapes.

(** The shapes of a layer's parts for inputs of width [e]. *)
Definition layer_shapes (self : MultiheadFlashDiff1.Layer B) (e : Z) : Prop :=
  let nh := MultiheadFlashDiff1.num_heads self in
  let nkv := MultiheadFlashDiff1.num_kv_heads self in
  let hd := MultiheadFlashDiff1.head_dim self in
  ((0 < nh)%Z /\ (0 < nkv)%Z /\ (nh mod nkv = 0)%Z /\ (0 < hd)%Z) /\
  (linear_maps (MultiheadFlashDiff1.q_proj self) e (2 * nh * hd) /\
   linear_maps (MultiheadFlashDiff1.k_proj self) e (2 * nkv * hd) /\
   linear_maps (MultiheadFlashDiff1.v_proj self) e (2 * nkv * hd) /\
   linear_maps (MultiheadFlashDiff1.out_proj self) (nh * 2 * hd) e /\
   norm_keeps_shape (MultiheadFlashDiff1.subln self) (2 * hd)) /\
  Forall (fun l => wf l /\ shape l = [hd])
         [MultiheadFlashDiff1.lambda_q1 self;
          MultiheadFlashDiff1.lambda_k1 self;
          MultiheadFlashDiff1.lambda_q2 self;
          MultiheadFlashDiff1.lambda_k2 self].

End Contracts.

(** ** A sample environment

    Float32 everywhere, with IEEE 754 arithmetic from [SpecFloat] at
    precision 24 and maximal exponent 128.  The kernels are stand-ins that
    check shapes the way the real ones do and return placeholder values:
    they serve to run the model on concrete inputs.  [exp] is exact only
    where the standard fixes it. *)

Module Sample.

Definition f32 : Type := spec_float.

Definition f32_zero : f32 := S754_zero false.
Definition f32_add : f32 -> f32 -> f32 := SFadd 24 128.
Definition f32_sub : f32 -> f32 -> f32 := SFsub 24 128.
Definition f32_mul : f32 -> f32 -> f32 := SFmul 24 128.

(** Rounding a double to float32. *)
Definition f32_of_py (x : float) : f32 :=
  match Prim2SF x with
  | S754_finite s m e => binary_round 24 128 s m e
  | y => y
  end.

Definition f32_of_Z (n : Z) : f32 := binary_normalize 24 128 n 0 false.

Definition f32_sum (l : list f32) : f32 := fold_left f32_add l f32_zero.

(** [exp] on float32: [exp(+-0) = 1], [exp(-inf) = +0], [exp(+inf) = +inf],
    overflow to [+inf] from 89 on ([e^89] exceeds the largest float32),
    underflow to [+0] from -104 down; elsewhere a placeholder. *)
Definition f32_exp (x : f32) : f32 :=
  match x with
  | S754_nan => S754_nan
  | S754_zero _ => f32_of_Z 1
  | S754_infinity false => S754_infinity false
  | S754_infinity true => f32_zero
  | S754_finite _ _ _ =>
      if SFleb (f32_of_Z 89) x then S754_infinity false
      else if SFleb x (f32_of_Z (-104)) then f32_zero
      else f32_of_Z 1
  end.

Definition f32_finite (x : f32) : bool :=
  match x with
  | S754_zero _ | S754_finite _ _ _ => true
  | _ => false
  end.

(** A linear layer with all weights zero: its input and output widths. *)
Definition zero_linear : Type := (Z * Z)%type.

Definition make_linear (i o : Z) : result zero_linear :=
  if ((i <? 0) || (o <? 0))%Z then Raise RuntimeError else Ok (i, o).

Definition zero_linear_call (l : zero_linear) (x : tensor f32)
  : result (tensor f32) :=
  match rev (shape x) with
  | last :: pre =>
      if (last =? fst l)%Z
      then Ok (mkTensor (rev pre ++ [snd l])
                        (repeat f32_zero
                                (Z.to_nat (numel (rev pre ++ [snd l])))))
      else Raise RuntimeError
  | [] => Raise RuntimeError
  end.

(** A normalization that only checks the width of the last dimension. *)
Definition make_norm (width : Z) (eps : float) (affine : bool) : result Z :=
  if (width <? 0)%Z then Raise RuntimeError else Ok width.

Definition norm_check (width : Z) (x : tensor f32) : result (tensor f32) :=
  match rev (shape x) with
  | last :: _ => if (last =? width)%Z then Ok x else Raise RuntimeError
  | [] => Raise RuntimeError
  end.

(** Rotary embedding by the angle zero: [x] of shape (batch, seq, heads,
    dim), [cos] and [sin] of one shape (seq_ro, rot) with [seq <= seq_ro]
    and [2 * rot <= dim]. *)
Definition rotary_check (x : tensor f32) (rel_pos : list (tensor f32))
    (interleaved : bool) : result (tensor f32) :=
  match shape x, rel_pos with
  | [_; s; _; d], [cos; sin] =>
      match shape cos, shape sin with
      | [sr; rd], [sr'; rd'] =>
          if ((sr =? sr') && (rd =? rd') && (s <=? sr) && (2 * rd <=? d))%Z
          then Ok x else Raise RuntimeError
      | _, _ => Raise RuntimeError
      end
  | _, _ => Raise RuntimeError
  end.

(** Attention that checks the shapes of grouped-query attention and
    returns zeros: [q] (batch, seq, heads, dim), [k] (batch, seq, kv_heads,
    dim), [v] (batch, seq, kv_heads, dim_v), [heads] a multiple of
    [kv_heads]; the result has shape (batch, seq, heads, dim_v). *)
Definition attn_check (q k v : tensor f32) (causal : bool)
  : result (tensor f32) :=
  match shape q, shape k, shape v with
  | [b; s; h; d], [b1; s1; hk; d1], [b2; s2; hk2; dv] =>
      if ((b =? b1) && (b =? b2) && (s =? s1) && (s =? s2) && (d =? d1)
          && (hk =? hk2) && (0 <? hk) && (h mod hk =? 0))%Z
      then Ok (mkTensor [b; s; h; dv]
                        (repeat f32_zero (Z.to_nat (numel [b; s; h; dv]))))
      else Raise RuntimeError
  | _, _, _ => Raise RuntimeError
  end.

(** A key/value tensor of shape (1, 2, 2, 3) for [repeat_kv]. *)
Definition kv_sample : tensor Z :=
  mkTensor [1; 2; 2; 3]%Z [1; 2; 3; 4; 5; 6; 7; 8; 9; 10; 11; 12]%Z.

(** One device, no separate number of key/value heads. *)
Definition one_device : MultiheadFlashDiff1.Args :=
  {| MultiheadFlashDiff1.model_parallel_size := 1;
     MultiheadFlashDiff1.decoder_kv_attention_heads := None |}.

(** One device, three key/value heads. *)
Definition one_device_kv3 : MultiheadFlashDiff1.Args :=
  {| MultiheadFlashDiff1.model_parallel_size := 1;
     MultiheadFlashDiff1.decoder_kv_attention_heads := Some 3%Z |}.

(** Two devices. *)
Definition two_devices : MultiheadFlashDiff1.Args :=
  {| MultiheadFlashDiff1.model_parallel_size := 2;
     MultiheadFlashDiff1.decoder_kv_attention_heads := None |}.

(** A stand-in for the C library's [pow]: only its being called matters. *)
Definition pow_sample (x y : float) : float := 1%float.

#[export] Instance backend : Backend := {|
  ptype := f32;
  ftype := f32;
  dtype := f32;
  p_zero := f32_zero;
  p_mul := f32_mul;
  p_sum := f32_sum;
  to_float := fun x => x;
  f_exp := f32_exp;
  type_as := fun x => x;
  t_add := f32_add;
  t_sub := f32_sub;
  t_mul := f32_mul;
  of_py := f32_of_py;
  libm_exp := exp_sample;
  libm_pow := pow_sample;
  normal_ := fun _ z _ _ => z;
  linear := zero_linear;
  ColumnParallelLinear := make_linear;
  RowParallelLinear := make_linear;
  linear_call := zero_linear_call;
  norm := Z;
  RMSNorm := make_norm;
  norm_call := norm_check;
  apply_rotary_emb := rotary_check;
  flash_attn_func := attn_check
|}.

(** A layer of width 4 with one head, so [head_dim = 2]: what
    [__init__ one_device 4 0 1] returns. *)
Definition layer_4 : MultiheadFlashDiff1.Layer backend :=
  {| MultiheadFlashDiff1.args := one_device;
     MultiheadFlashDiff1.embed_dim := 4;
     MultiheadFlashDiff1.num_heads := 1;
     MultiheadFlashDiff1.num_kv_heads := 1;
     MultiheadFlashDiff1.n_rep := 1;
     MultiheadFlashDiff1.head_dim := 2;
     MultiheadFlashDiff1.scaling := Py.Float 1;
     MultiheadFlashDiff1.q_proj := (4, 4)%Z;
     MultiheadFlashDiff1.k_proj := (4, 4)%Z;
     MultiheadFlashDiff1.v_proj := (4, 4)%Z;
     MultiheadFlashDiff1.out_proj := (4, 4)%Z;
     MultiheadFlashDiff1.lambda_init := 0x1.999999999999cp-3%float;
     MultiheadFlashDiff1.lambda_q1 := mkTensor [2%Z] [f32_zero; f32_zero];
     MultiheadFlashDiff1.lambda_k1 := mkTensor [2%Z] [f32_zero; f32_zero];
     MultiheadFlashDiff1.lambda_q2 := mkTensor [2%Z] [f32_zero; f32_zero];
     MultiheadFlashDiff1.lambda_k2 := mkTensor [2%Z] [f32_zero; f32_zero];
     MultiheadFlashDiff1.subln := 4%Z |}.

(** Lambda vectors whose dot product, 1000, makes [exp] overflow. *)
Definition big_q : tensor f32 := mkTensor [2%Z] [f32_of_Z 1000; f32_zero].
Definition big_k : tensor f32 := mkTensor [2%Z] [f32_of_Z 1; f32_zero].

Definition layer_4_big : MultiheadFlashDiff1.Layer backend :=
  MultiheadFlashDiff1.with_lambdas layer_4 big_q big_k big_q big_k.

(** An input of one sequence of two positions, and rotary parameters for
    two positions and a rotary width of 2. *)
Definition x_1_2_4 : tensor f32 :=
  mkTensor [1; 2; 4]%Z (repeat f32_zero 8).

Definition rel_pos_2 : list (tensor f32) :=
  [mkTensor [2; 1]%Z [f32_zero; f32_zero];
   mkTensor [2; 1]%Z [f32_zero; f32_zero]].

Definition no_tensor : tensor f32 := mkTensor [] [].

Definition no_frame : MultiheadFlashDiff1.Frame backend :=
  {| MultiheadFlashDiff1.f_tgt_len := 0;
     MultiheadFlashDiff1.f_src_len := 0;
     MultiheadFlashDiff1.f_q1 := no_tensor;
     MultiheadFlashDiff1.f_q2 := no_tensor;
     MultiheadFlashDiff1.f_k1 := no_tensor;
     MultiheadFlashDiff1.f_k2 := no_tensor;
     MultiheadFlashDiff1.f_v := no_tensor;
     MultiheadFlashDiff1.f_attn1 := no_tensor;
     MultiheadFlashDiff1.f_attn2 := no_tensor;
     MultiheadFlashDiff1.f_lambda_1 := no_tensor;
     MultiheadFlashDiff1.f_lambda_2 := no_tensor;
     MultiheadFlashDiff1.f_lambda_full := no_tensor;
     MultiheadFlashDiff1.f_combined := no_tensor;
     MultiheadFlashDiff1.f_normed := no_tensor;
     MultiheadFlashDiff1.f_scaled := no_tensor;
     MultiheadFlashDiff1.f_flat := no_tensor;
     MultiheadFlashDiff1.f_out := no_tensor |}.

Definition frame_of (r : result (MultiheadFlashDiff1.Frame backend))
  : MultiheadFlashDiff1.Frame backend :=
  match r with Ok fr => fr | Raise _ => no_frame end.

(** The locals of [forward] on the two sample layers, computed. *)
Definition frame_4 : MultiheadFlashDiff1.Frame backend :=
  Eval vm_compute in
    frame_of (MultiheadFlashDiff1.forward_frame layer_4 x_1_2_4 rel_pos_2
                None).

Definition frame_4_big : MultiheadFlashDiff1.Frame backend :=
  Eval vm_compute in
    frame_of (MultiheadFlashDiff1.forward_frame layer_4_big x_1_2_4
                rel_pos_2 None).

(** *** The same environment on [p] devices

    Weights are still zero; a column-parallel layer keeps its local part of
    the output width, a row-parallel layer takes its local part of the
    input width. *)

Definition backend_on (p : Z) : Backend := {|
  ptype := f32;
  ftype := f32;
  dtype := f32;
  p_zero := f32_zero;
  p_mul := f32_mul;
  p_sum := f32_sum;
  to_float := fun x => x;
  f_exp := f32_exp;
  type_as := fun x => x;
  t_add := f32_add;
  t_sub := f32_sub;
  t_mul := f32_mul;
  of_py := f32_of_py;
  libm_exp := exp_sample;
  libm_pow := pow_sample;
  normal_ := fun _ z _ _ => z;
  linear := zero_linear;
  ColumnParallelLinear := fun i o => make_linear i (o / p);
  RowParallelLinear := fun i o => make_linear (i / p) o;
  linear_call := zero_linear_call;
  norm := Z;
  RMSNorm := make_norm;
  norm_call := norm_check;
  apply_rotary_emb := rotary_check;
  flash_attn_func := attn_check
|}.

(** An input of one sequence of two positions and width 8. *)
Definition x_1_2_8 : tensor f32 :=
  mkTensor [1; 2; 8]%Z (repeat f32_zero 16).

(** *** An environment with values

    Linear layers whose weight is the identity matrix where they are
    square (zero elsewhere), which return their input, and attention that
    is exact on sequences of one position: the only key a query attends to
    is its own, so the result is the value tensor.  The normalization is
    still a placeholder that returns its input. *)

Definition id_linear_call (l : zero_linear) (x : tensor f32)
  : result (tensor f32) :=
  match rev (shape x) with
  | last :: _ =>
      if ((last =? fst l) && (fst l =? snd l))%Z then Ok x
      else zero_linear_call l x
  | [] => Raise RuntimeError
  end.

Definition attn_one_position (q k v : tensor f32) (causal : bool)
  : result (tensor f32) :=
  o <- attn_check q k v causal ;;
  match shape q, shape v with
  | [_; s; h; _], [_; _; hk; _] =>
      if ((s =? 1) && (h =? hk))%Z then Ok v else Ok o
  | _, _ => Ok o
  end.

Definition backend_id : Backend := {|
  ptype := f32;
  ftype := f32;
  dtype := f32;
  p_zero := f32_zero;
  p_mul := f32_mul;
  p_sum := f32_sum;
  to_float := fun x => x;
  f_exp := f32_exp;
  type_as := fun x => x;
  t_add := f32_add;
  t_sub := f32_sub;
  t_mul := f32_mul;
  of_py := f32_of_py;
  libm_exp := exp_sample;
  libm_pow := pow_sample;
  normal_ := fun _ z _ _ => z;
  linear := zero_linear;
  ColumnParallelLinear := make_linear;
  RowParallelLinear := make_linear;
  linear_call := id_linear_call;
  norm := Z;
  RMSNorm := make_norm;
  norm_call := norm_check;
  apply_rotary_emb := rotary_check;
  flash_attn_func := attn_one_position
|}.

(** What [__init__ one_device 4 0 1] returns in this environment. *)
Definition layer_id_4 : MultiheadFlashDiff1.Layer backend_id :=
  @MultiheadFlashDiff1.Build_Layer backend_id
    one_device 4 1 1 1 2 (Py.Float 1)
    (4, 4)%Z (4, 4)%Z (4, 4)%Z (4, 4)%Z
    0x1.999999999999cp-3%float
    (mkTensor [2%Z] [f32_zero; f32_zero])
    (mkTensor [2%Z] [f32_zero; f32_zero])
    (mkTensor [2%Z] [f32_zero; f32_zero])
    (mkTensor [2%Z] [f32_zero; f32_zero])
    4%Z.

(** Lambda vectors after training: the first pair has the dot product
    -200, whose exponential is 0 in float32; the second pair is zero, with
    exponential 1. *)
Definition low_q : tensor f32 := mkTensor [2%Z] [f32_of_Z (-200); f32_zero].
Definition low_k : tensor f32 := mkTensor [2%Z] [f32_of_Z 1; f32_zero].
Definition zero_2 : tensor f32 := mkTensor [2%Z] [f32_zero; f32_zero].

Definition layer_id_4_low : MultiheadFlashDiff1.Layer backend_id :=
  MultiheadFlashDiff1.with_lambdas (B := backend_id)
    layer_id_4 low_q low_k zero_2 zero_2.

(** One sequence of one position, every feature 1; rotary parameters for
    the angle zero. *)
Definition x_ones : tensor f32 := mkTensor [1; 1; 4]%Z (repeat (f32_of_Z 1) 4).

Definition rel_pos_1 : list (tensor f32) :=
  [mkTensor [1; 1]%Z [f32_of_Z 1]; mkTensor [1; 1]%Z [f32_zero]].

Definition no_frame_id : MultiheadFlashDiff1.Frame backend_id :=
  @MultiheadFlashDiff1.Build_Frame backend_id 0 0
    no_tensor no_tensor no_tensor no_tensor no_tensor no_tensor no_tensor
    no_tensor no_tensor no_tensor no_tensor no_tensor no_tensor no_tensor
    no_tensor.

(** The locals of [forward] on that layer and input, computed. *)
Definition frame_id_low : MultiheadFlashDiff1.Frame backend_id :=
  Eval vm_compute in
    match MultiheadFlashDiff1.forward_frame (B := backend_id)
            layer_id_4_low x_ones rel_pos_1 None with
    | Ok fr => fr
    | Raise _ => no_frame_id
    end.

(** Further inputs and configurations. *)











End Sample.

(** ** Binary64 values

    What the statements about doubles are written with: rounding to
    nearest, ties to even, on integers, and the value of a double as an
    integer multiple of a power of two. *)

Section DoubleValues.

Local Open Scope Z_scope.

(** Round to nearest, ties to even, of [M / 2^n]. *)
Definition rne (M n : Z) : Z :=
  if n <=? 0 then M
  else let q := M / 2 ^ n in
       let rho := M mod 2 ^ n in
       let h := 2 ^ (n - 1) in
       if (h <? rho) || ((h =? rho) && Z.odd q) then q + 1 else q.

(** The exponent at which [M * 2^e] is rounded. *)
Definition round_exp (M e : Z) : Z := fexp prec emax (Zdigits2 M + e).

(** Mantissa and exponent of the rounded value, before the range check. *)
Definition round_pos (M e : Z) : Z * Z :=
  let E := round_exp M e in
  let N := rne M (E - e) in
  if N =? 2 ^ 53 then (2 ^ 52, E + 1) else (N, Z.max E e).

Definition pack (s : bool) (me : Z * Z) : spec_float :=
  match fst me with
  | Z0 => S754_zero s
  | Zpos m =>
      if snd me <=? emax - prec then S754_finite s m (snd me)
      else S754_infinity s
  | Zneg _ => S754_nan
  end.

(** The rounded value of [X * 2^b], in units of [2^b]. *)
Definition G (b X : Z) : Z :=
  let n := fexp prec emax (Zdigits2 X + b) - b in rne X n * 2 ^ n.

(** The value of a float in units of [2^b]; an infinity counts as
    [2^1024], which no finite double reaches. *)
Definition SF2Z (b : Z) (x : spec_float) : Z :=
  match x with
  | S754_zero _ => 0
  | S754_finite s m e => cond_Zopp s (Zpos m * 2 ^ (e - b))
  | S754_infinity s => cond_Zopp s (2 ^ (1024 - b))
  | S754_nan => 0
  end.

Definition SFis_nan (x : spec_float) : bool :=
  match x with S754_nan => true | _ => false end.

Definition has_sign (s : bool) (x : spec_float) : bool :=
  match x with
  | S754_zero s' | S754_infinity s' | S754_finite s' _ _ => Bool.eqb s s'
  | S754_nan => false
  end.

(** Finite numbers that are not negative: zeros of either sign and the
    positive finite numbers. *)
Definition SFnonneg (x : spec_float) : bool :=
  match x with
  | S754_zero _ | S754_finite false _ _ => true
  | _ => false
  end.

Definition FV (b : Z) (x : float) : Z := SF2Z b (Prim2SF x).
Definition Fnonneg (x : float) : bool := SFnonneg (Prim2SF x).
Definition Fis_nan (x : float) : bool := SFis_nan (Prim2SF x).

(** The least [int] that [float] cannot convert: halfway between the
    largest double and [2^1024], where rounding to even goes up. *)
Definition int_overflow : Z := 2 ^ 1024 - 2 ^ 970.

(** 0.6 in units of [2^-1074] and of [2^-2148], 0.8 in units of
    [2^-2148], and the value that stands for an infinity. *)
Definition c06 : Z := 5404319552844595 * 2 ^ (-53 + 1074).
Definition v06 : Z := 5404319552844595 * 2 ^ (-53 - -2148).
Definition v08 : Z := 7205759403792794 * 2 ^ (-53 - -2148).
Definition vinf : Z := 2 ^ (1024 - -2148).

(** [0.8 - 0.6 * e] as a function of the value [v] of [e] (in units of
    [2^-1074]); the result is in units of [2^-2148]. *)
Definition tail_val (v : Z) : Z :=
  Z.min (G (-2148) (v08 - Z.min (G (-2148) (c06 * v)) vinf)) vinf.

Definition c03 : Z := 5404319552844595 * 2 ^ (-54 + 1074).

End DoubleValues.

(** * Properties *)

Lemma Ok_inj {A : Type} (a b : A) : Ok a = Ok b -> a = b.
Proof.
  intros H.
  exact (f_equal (fun r => match r with Ok x => x | Raise _ => a end) H).
Qed.

(** ** Constants of [lambda_init_fn] *)

Lemma lit_0_8 : 0.8%float = 0x1.999999999999ap-1%float.
Proof. reflexivity. Qed.

Lemma lit_0_6 : 0.6%float = 0x1.3333333333333p-1%float.
Proof. reflexivity. Qed.

Lemma lit_0_2 : 0.2%float = 0x1.999999999999ap-3%float.
Proof. reflexivity. Qed.

Section LambdaInitFacts.

Variable libm_exp : float -> float.

(** C Annex F.10.3.1: [exp(+-0)] returns 1. *)
Hypothesis exp_neg_zero : libm_exp (-0)%float = 1%float.

Lemma lambda_init_fn_0_value :
  lambda_init_fn libm_exp 0 = Ok 0x1.999999999999cp-3%float.
Proof.
  unfold lambda_init_fn, Py.float_of_int.
  change (SF2Prim (binary_normalize prec emax 0 0 false)) with 0%float.
  cbn -[Py.math_exp PrimFloat.mul PrimFloat.sub].
  change (-0.3 * 0)%float with (-0)%float.
  unfold Py.math_exp. rewrite exp_neg_zero. reflexivity.
Qed.

(** Underflow: for [x <= -746], [e^x < 2^-1075], so a correctly rounded
    [exp] returns [+0]; a faithfully rounded one may return the least
    subnormal instead. *)
Hypothesis exp_underflow :
  forall x, (x <=? -746)%float = true ->
            libm_exp x = 0%float \/ libm_exp x = 0x1p-1074%float.

Lemma lambda_init_fn_saturated (depth : Z) (d : float) :
  Py.float_of_int depth = Ok d ->
  (-0.3 * d <=? -746)%float = true ->
  lambda_init_fn libm_exp depth = Ok 0.8%float.
Proof.
  intros Hd Hx. unfold lambda_init_fn. rewrite Hd. cbn [bind].
  unfold Py.math_exp.
  destruct (exp_underflow _ Hx) as [E | E]; rewrite E; reflexivity.
Qed.

End LambdaInitFacts.

Lemma exp_sample_neg_zero : exp_sample (-0)%float = 1%float.
Proof. reflexivity. Qed.

Lemma exp_sample_underflow (x : float) :
  (x <=? -746)%float = true ->
  exp_sample x = 0%float \/ exp_sample x = 0x1p-1074%float.
Proof.
  intros H. left. unfold exp_sample. rewrite H.
  destruct (is_nan x) eqn:N; [|reflexivity].
  (* a NaN compares false with everything *)
  exfalso. unfold is_nan in N. apply negb_true_iff in N.
  rewrite eqb_spec in N. rewrite leb_spec in H.
  unfold SFeqb, SFleb in *.
  destruct (Prim2SF x); simpl in *; try discriminate.
  - destruct s; discriminate.
  - rewrite Pos.compare_refl in N. rewrite Z.compare_refl in N.
    destruct s; discriminate.
Qed.

(** C8 (as stated, refuted): [lambda_init_fn(0)] is not the double [0.2]. *)
Lemma lambda_init_fn_0_is_not_0_2 :
  ~ (forall libm_exp : float -> float,
       libm_exp (-0)%float = 1%float ->
       lambda_init_fn libm_exp 0 = Ok 0.2%float).
Proof.
  intros H. specialize (H exp_sample eq_refl).
  rewrite (lambda_init_fn_0_value exp_sample eq_refl) in H.
  apply (f_equal (fun r => match r with
                           | Ok x => (x =? 0.2)%float
                           | Raise _ => true
                           end)) in H.
  vm_compute in H. discriminate.
Qed.

(** C8 (amended): with [exp(-0.0) = 1], [lambda_init_fn(0)] is the double
    [0.8 - 0.6], that is 0x1.999999999999cp-3, two units in the last place
    above the double [0.2]; the formula gives 0.2 exactly only over the
    reals. *)
Theorem lambda_init_fn_0 (libm_exp : float -> float) :
  libm_exp (-0)%float = 1%float ->
  lambda_init_fn libm_exp 0 = Ok 0x1.999999999999cp-3%float /\
  next_up (next_up 0.2%float) = 0x1.999999999999cp-3%float /\
  lambda_init_real 0 = 0.2%R.
Proof.
  intros H. split; [apply lambda_init_fn_0_value, H|]. split; [reflexivity|].
  unfold lambda_init_real. rewrite Rmult_0_r, exp_0. lra.
Qed.

Lemma lambda_init_fn_0_witness :
  exp_sample (-0)%float = 1%float /\
  lambda_init_fn exp_sample 0 = Ok 0x1.999999999999cp-3%float.
Proof.
  split; [reflexivity|].
  exact (proj1 (lambda_init_fn_0 exp_sample eq_refl)).
Defined.

(** ** Binary64 arithmetic

    [SpecFloat]'s rounding, multiplication and subtraction in terms of
    integer values, and what follows for [lambda_init_fn] on doubles. *)

Section DoubleFacts.

Local Open Scope Z_scope.

(** ** Digits *)

Lemma digits2_pos_bounds (p : positive) :
  2 ^ (Zpos (digits2_pos p) - 1) <= Zpos p < 2 ^ Zpos (digits2_pos p).
Proof.
  induction p as [p IH|p IH|]; cbn [digits2_pos].
  - rewrite Pos2Z.inj_succ.
    replace (Z.succ (Zpos (digits2_pos p)) - 1) with (Zpos (digits2_pos p)) by lia.
    rewrite Z.pow_succ_r by lia.
    assert (E : 2 ^ Zpos (digits2_pos p) = 2 * 2 ^ (Zpos (digits2_pos p) - 1)).
    { rewrite <- Z.pow_succ_r by lia. f_equal. lia. }
    lia.
  - rewrite Pos2Z.inj_succ.
    replace (Z.succ (Zpos (digits2_pos p)) - 1) with (Zpos (digits2_pos p)) by lia.
    rewrite Z.pow_succ_r by lia.
    assert (E : 2 ^ Zpos (digits2_pos p) = 2 * 2 ^ (Zpos (digits2_pos p) - 1)).
    { rewrite <- Z.pow_succ_r by lia. f_equal. lia. }
    lia.
  - cbn. lia.
Qed.

(** [iter_pos] is plain iteration. *)
Lemma iter_pos_nat {A : Type} (f : A -> A) (p : positive) (x : A) :
  SpecFloat.iter_pos f p x = Nat.iter (Pos.to_nat p) f x.
Proof.
  revert x. induction p as [p IH|p IH|]; intros x; cbn [SpecFloat.iter_pos].
  - rewrite !IH, Pos2Nat.inj_xI.
    replace (S (2 * Pos.to_nat p))%nat with (Pos.to_nat p + (Pos.to_nat p + 1))%nat by lia.
    rewrite !Nat.iter_add. reflexivity.
  - rewrite !IH, Pos2Nat.inj_xO.
    replace (2 * Pos.to_nat p)%nat with (Pos.to_nat p + Pos.to_nat p)%nat by lia.
    now rewrite Nat.iter_add.
  - reflexivity.
Qed.

(** ** Right shifts with round and sticky bits *)

Lemma shr_1_nonneg (m : Z) (r s : bool) :
  0 <= m ->
  shr_1 (Build_shr_record m r s) = Build_shr_record (m / 2) (Z.odd m) (r || s).
Proof.
  intros H. rewrite <- Z.div2_div.
  destruct m as [|p|p]; [reflexivity| |lia].
  destruct p; reflexivity.
Qed.

Lemma pow2_pos (k : Z) : 0 <= k -> 0 < 2 ^ k.
Proof. intros. apply Z.pow_pos_nonneg; lia. Qed.

Lemma pow2_S (k : Z) : 0 <= k -> 2 ^ (k + 1) = 2 * 2 ^ k.
Proof. intros. rewrite Z.pow_add_r by lia. lia. Qed.

Lemma iter_shr_1 (M : Z) (k : nat) :
  0 <= M ->
  Nat.iter (S k) shr_1 (Build_shr_record M false false) =
  Build_shr_record (M / 2 ^ (Z.of_nat k + 1))
                   (Z.odd (M / 2 ^ Z.of_nat k))
                   (negb (M mod 2 ^ Z.of_nat k =? 0)).
Proof.
  intros HM. induction k as [|k IH].
  - cbn [Nat.iter]. rewrite shr_1_nonneg by assumption.
    change (2 ^ (Z.of_nat 0 + 1)) with 2. change (2 ^ Z.of_nat 0) with 1.
    rewrite Z.div_1_r, Z.mod_1_r. reflexivity.
  - change (Nat.iter (S (S k)) shr_1 ?x) with (shr_1 (Nat.iter (S k) shr_1 x)).
    rewrite IH. clear IH.
    assert (P : 0 < 2 ^ Z.of_nat k) by (apply pow2_pos; lia).
    rewrite shr_1_nonneg by (apply Z.div_pos; [lia|apply pow2_pos; lia]).
    rewrite Nat2Z.inj_succ. unfold Z.succ.
    f_equal.
    + rewrite Z.div_div by lia. f_equal.
      rewrite (pow2_S (Z.of_nat k + 1)) by lia. lia.
    + rewrite (pow2_S (Z.of_nat k)) by lia.
      rewrite (Z.mul_comm 2), Z.rem_mul_r by lia.
      rewrite Zodd_mod.
      pose proof (Z.mod_pos_bound M (2 ^ Z.of_nat k) P) as B1.
      pose proof (Z.mod_pos_bound (M / 2 ^ Z.of_nat k) 2 ltac:(lia)) as B2.
      destruct (Z.eqb_spec ((M / 2 ^ Z.of_nat k) mod 2) 1) as [E|E];
        destruct (Z.eqb_spec (M mod 2 ^ Z.of_nat k) 0) as [E'|E'];
        cbn [negb orb]; symmetry.
      * apply negb_true_iff, Z.eqb_neq. nia.
      * apply negb_true_iff, Z.eqb_neq. nia.
      * apply negb_false_iff, Z.eqb_eq. nia.
      * apply negb_true_iff, Z.eqb_neq. nia.
Qed.

Lemma shr_rne (M : Z) (p : positive) :
  0 <= M ->
  let mrs := SpecFloat.iter_pos shr_1 p (Build_shr_record M false false) in
  round_nearest_even (shr_m mrs) (loc_of_shr_record mrs) = rne M (Zpos p).
Proof.
  intros HM mrs. subst mrs. rewrite iter_pos_nat.
  destruct (Pos2Nat.is_succ p) as (k & Ek). rewrite Ek.
  rewrite iter_shr_1 by assumption.
  assert (Ep : Zpos p = Z.of_nat k + 1) by lia.
  unfold rne. rewrite Ep.
  destruct (Z.leb_spec (Z.of_nat k + 1) 0) as [?|_]; [lia|].
  replace (Z.of_nat k + 1 - 1) with (Z.of_nat k) by lia.
  set (h := 2 ^ Z.of_nat k).
  assert (P : 0 < h) by (apply pow2_pos; lia).
  rewrite (pow2_S (Z.of_nat k)) by lia. fold h.
  set (q := M / (2 * h)). set (rho := M mod (2 * h)).
  pose proof (Z.mod_pos_bound M (2 * h) ltac:(lia)) as B. fold rho in B.
  pose proof (Z.div_mod M (2 * h) ltac:(lia)) as D. fold q rho in D.
  (* the round bit says whether rho reaches h, the sticky bit whether
     rho differs from 0 and h *)
  assert (R : Z.odd (M / h) = (h <=? rho)).
  { assert (M / h = 2 * q + rho / h) as ->.
    { rewrite D at 1. replace (2 * h * q + rho) with (rho + (2 * q) * h) by lia.
      rewrite Z.div_add by lia. lia. }
    rewrite Z.add_comm, Z.odd_add_mul_2.
    destruct (Z.leb_spec h rho).
    - replace (rho / h) with 1; [reflexivity|].
      apply Z.div_unique with (r := rho - h); lia.
    - rewrite Z.div_small by lia. reflexivity. }
  assert (S : M mod h = rho mod h).
  { rewrite D at 1. replace (2 * h * q + rho) with (rho + (2 * q) * h) by lia.
    apply Z.mod_add. lia. }
  rewrite R, S. cbn [shr_m loc_of_shr_record].
  destruct (Z.leb_spec h rho) as [L|L].
  - assert (S' : rho mod h = rho - h).
    { symmetry. apply Z.mod_unique with (q := 1); lia. }
    rewrite S'.
    destruct (Z.eqb_spec (rho - h) 0) as [E|E]; cbn [negb round_nearest_even].
    + destruct (Z.ltb_spec h rho); [lia|].
      destruct (Z.eqb_spec h rho); [|lia]. cbn [orb andb].
      rewrite <- Z.negb_odd. destruct (Z.odd q); reflexivity.
    + destruct (Z.ltb_spec h rho); [|lia]. reflexivity.
  - rewrite Z.mod_small by lia.
    destruct (Z.ltb_spec h rho); [lia|].
    destruct (Z.eqb_spec h rho); [lia|]. cbn [orb andb].
    destruct (Z.eqb_spec rho 0); reflexivity.
Qed.

Section RneFacts.
Variables (M n : Z).
Hypothesis (HM : 0 <= M) (Hn : 0 < n).

Lemma rne_unfold :
  exists q rho h,
    0 < h /\ 2 ^ n = 2 * h /\ M = 2 * h * q + rho /\ 0 <= rho < 2 * h /\
    0 <= q /\ q = M / 2 ^ n /\
    rne M n = if (h <? rho) || ((h =? rho) && Z.odd q) then q + 1 else q.
Proof.
  exists (M / 2 ^ n), (M mod 2 ^ n), (2 ^ (n - 1)).
  assert (P : 0 < 2 ^ (n - 1)) by (apply pow2_pos; lia).
  assert (E : 2 ^ n = 2 * 2 ^ (n - 1)).
  { rewrite <- pow2_S by lia. f_equal. lia. }
  split; [exact P|]. split; [exact E|].
  split; [rewrite <- E; apply Z.div_mod; lia|].
  split; [rewrite <- E; apply Z.mod_pos_bound; lia|].
  split; [apply Z.div_pos; lia|]. split; [reflexivity|].
  unfold rne. destruct (Z.leb_spec n 0); [lia|reflexivity].
Qed.

Lemma rne_bounds : M / 2 ^ n <= rne M n <= M / 2 ^ n + 1.
Proof.
  destruct rne_unfold as (q & rho & h & _ & _ & _ & _ & _ & <- & ->).
  destruct (_ || _); lia.
Qed.

Lemma rne_nonneg : 0 <= rne M n.
Proof.
  pose proof rne_bounds. assert (0 <= M / 2 ^ n); [|lia].
  apply Z.div_pos; [lia|apply pow2_pos; lia].
Qed.

End RneFacts.

Lemma rne_mono (M1 M2 n : Z) :
  0 <= M1 <= M2 -> rne M1 n <= rne M2 n.
Proof.
  intros H. destruct (Z.leb_spec n 0) as [L|L].
  - unfold rne. destruct (Z.leb_spec n 0); lia.
  - destruct (rne_unfold M1 n ltac:(lia) L)
      as (q1 & r1 & h & Ph & Eh & D1 & B1 & Q1 & E1 & ->).
    destruct (rne_unfold M2 n ltac:(lia) L)
      as (q2 & r2 & h' & _ & Eh' & D2 & B2 & Q2 & E2 & ->).
    assert (h' = h) by lia. subst h'.
    assert (q1 <= q2).
    { rewrite E1, E2. apply Z.div_le_mono; [apply pow2_pos|]; lia. }
    destruct (Z.eq_dec q1 q2) as [<-|N].
    + assert (r1 <= r2) by lia.
      destruct (Z.ltb_spec h r1), (Z.ltb_spec h r2), (Z.eqb_spec h r1),
        (Z.eqb_spec h r2), (Z.odd q1); cbn [orb andb]; lia.
    + destruct (_ || _), (_ || _); lia.
Qed.

Lemma rne_exact (q n : Z) : 0 <= q -> 0 <= n -> rne (q * 2 ^ n) n = q.
Proof.
  intros Hq Hn. destruct (Z.eq_dec n 0) as [->|N].
  - unfold rne. cbn. lia.
  - assert (P : 0 < 2 ^ n) by (apply pow2_pos; lia).
    destruct (rne_unfold (q * 2 ^ n) n ltac:(nia) ltac:(lia))
      as (q' & r & h & Ph & Eh & D & B & Q & E & ->).
    rewrite Z.div_mul in E by lia. subst q'.
    assert (r = 0) by nia. subst r.
    destruct (Z.ltb_spec h 0), (Z.eqb_spec h 0); cbn [orb andb]; lia.
Qed.

Lemma rne_shift (M n k : Z) :
  0 <= M -> 0 <= n -> 0 <= k -> rne (M * 2 ^ k) (n + k) = rne M n.
Proof.
  intros HM Hn Hk. destruct (Z.eq_dec n 0) as [->|N].
  - rewrite Z.add_0_l, rne_exact by lia. unfold rne. reflexivity.
  - assert (Pk : 0 < 2 ^ k) by (apply pow2_pos; lia).
    destruct (rne_unfold M n HM ltac:(lia))
      as (q & r & h & Ph & Eh & D & B & Q & E & ->).
    destruct (rne_unfold (M * 2 ^ k) (n + k) ltac:(nia) ltac:(lia))
      as (q' & r' & h' & Ph' & Eh' & D' & B' & Q' & E' & ->).
    rewrite Z.pow_add_r in * by lia.
    rewrite Z.div_mul_cancel_r in E' by lia.
    assert (q' = q) by congruence. clear E'. subst q'.
    assert (h' = h * 2 ^ k) by nia. subst h'.
    assert (r' = r * 2 ^ k) by nia. subst r'.
    assert ((h * 2 ^ k <? r * 2 ^ k) = (h <? r)) as ->.
    { destruct (Z.ltb_spec h r), (Z.ltb_spec (h * 2 ^ k) (r * 2 ^ k));
        try reflexivity; nia. }
    assert ((h * 2 ^ k =? r * 2 ^ k) = (h =? r)) as ->.
    { destruct (Z.eqb_spec h r), (Z.eqb_spec (h * 2 ^ k) (r * 2 ^ k));
        try reflexivity; nia. }
    reflexivity.
Qed.

(** ** Number of binary digits *)

Lemma Zdigits2_bounds (X : Z) :
  0 < X -> 1 <= Zdigits2 X /\ 2 ^ (Zdigits2 X - 1) <= X < 2 ^ Zdigits2 X.
Proof.
  destruct X as [|p|p]; try lia. intros _. cbn [Zdigits2].
  split; [lia|apply digits2_pos_bounds].
Qed.

Lemma Zdigits2_nonneg (X : Z) : 0 <= Zdigits2 X.
Proof. destruct X; cbn; lia. Qed.

Lemma pow2_lt_inv (a b : Z) : 0 <= b -> 2 ^ a < 2 ^ b -> a < b.
Proof. intros Hb H. apply (Z.pow_lt_mono_r_iff 2); lia. Qed.

Lemma pow2_le (a b : Z) : 0 <= a <= b -> 2 ^ a <= 2 ^ b.
Proof. intros. apply Z.pow_le_mono_r; lia. Qed.

Lemma Zdigits2_unique (X k : Z) :
  2 ^ (k - 1) <= X < 2 ^ k -> 1 <= k -> Zdigits2 X = k.
Proof.
  intros H Hk.
  assert (0 < X). { pose proof (pow2_pos (k - 1)). lia. }
  destruct (Zdigits2_bounds X) as (D1 & D2); [assumption|].
  assert (Zdigits2 X - 1 < k) by (apply pow2_lt_inv; lia).
  assert (k - 1 < Zdigits2 X) by (apply pow2_lt_inv; lia).
  lia.
Qed.

Lemma Zdigits2_mono (X Y : Z) : 0 <= X <= Y -> Zdigits2 X <= Zdigits2 Y.
Proof.
  intros H. destruct (Z.eq_dec X 0) as [->|N].
  - apply Zdigits2_nonneg.
  - destruct (Zdigits2_bounds X) as (D1 & D2); [lia|].
    destruct (Zdigits2_bounds Y) as (D3 & D4); [lia|].
    assert (Zdigits2 X - 1 < Zdigits2 Y) by (apply pow2_lt_inv; lia).
    lia.
Qed.

Lemma Zdigits2_shift (X k : Z) :
  0 < X -> 0 <= k -> Zdigits2 (X * 2 ^ k) = Zdigits2 X + k.
Proof.
  intros HX Hk. destruct (Zdigits2_bounds X HX) as (D1 & D2).
  assert (Pk : 0 < 2 ^ k) by (apply pow2_pos; lia).
  apply Zdigits2_unique; [|lia].
  replace (Zdigits2 X + k - 1) with (Zdigits2 X - 1 + k) by lia.
  rewrite !Z.pow_add_r by lia. nia.
Qed.

(** ** Rounding to binary64 *)

Lemma fexp64 (x : Z) : fexp prec emax x = Z.max (x - 53) (-1074).
Proof. reflexivity. Qed.

Lemma rne_le_pow (M e : Z) :
  0 < M -> 0 < round_exp M e - e -> 0 <= rne M (round_exp M e - e) <= 2 ^ 53.
Proof.
  intros HM Hn. split; [apply rne_nonneg; lia|].
  destruct (Zdigits2_bounds M HM) as (D1 & D2).
  set (n := round_exp M e - e) in *.
  assert (Hd : Zdigits2 M - n <= 53).
  { unfold n, round_exp. rewrite fexp64. lia. }
  destruct (Z_le_gt_dec n (Zdigits2 M)) as [L|L].
  - transitivity (rne (2 ^ (Zdigits2 M - n) * 2 ^ n) n).
    + apply rne_mono. rewrite <- Z.pow_add_r by lia.
      replace (Zdigits2 M - n + n) with (Zdigits2 M) by lia. lia.
    + rewrite rne_exact by (try apply Z.pow_nonneg; lia).
      apply pow2_le. lia.
  - transitivity (rne (1 * 2 ^ n) n).
    + apply rne_mono. assert (2 ^ Zdigits2 M <= 2 ^ n) by (apply pow2_le; lia).
      lia.
    + rewrite rne_exact by lia. pose proof (pow2_pos 53). lia.
Qed.

Lemma binary_round_aux_spec (s : bool) (M : positive) (e : Z) :
  binary_round_aux prec emax s (Zpos M) e loc_Exact =
  pack s (round_pos (Zpos M) e).
Proof.
  unfold binary_round_aux, shr_fexp, round_pos.
  fold (round_exp (Zpos M) e). set (E := round_exp (Zpos M) e).
  cbn [shr_record_of_loc].
  assert (HE : -1074 <= E) by (unfold E, round_exp; rewrite fexp64; lia).
  destruct (E - e) as [|p|p] eqn:En; cbn [shr].
  - (* already at the right exponent *)
    cbn [shr_m loc_of_shr_record round_nearest_even].
    fold (round_exp (Zpos M) e). fold E. rewrite En. cbn [shr shr_m].
    unfold rne. cbn [Z.leb Z.compare].
    destruct (Z.eqb_spec (Zpos M) (2 ^ 53)) as [E53|_].
    { exfalso. unfold E, round_exp in En. rewrite E53, fexp64 in En.
      change (Zdigits2 (2 ^ 53)) with 54 in En. lia. }
    unfold pack. cbn [fst snd]. replace (Z.max E e) with e by lia.
    reflexivity.
  - (* a right shift by [p] *)
    pose proof (shr_rne (Zpos M) p ltac:(lia)) as R. cbv zeta in R.
    rewrite R. clear R.
    pose proof (rne_le_pow (Zpos M) e ltac:(lia)) as B. fold E in B.
    rewrite En in B. specialize (B ltac:(lia)).
    set (N := rne (Zpos M) (Zpos p)) in *.
    replace (e + Zpos p) with E by lia.
    destruct (Z.eqb_spec N (2 ^ 53)) as [E53|N53].
    + rewrite E53. change (Zdigits2 (2 ^ 53)) with 54.
      rewrite fexp64. replace (Z.max (54 + E - 53) (-1074) - E) with 1 by lia.
      reflexivity.
    + assert (Zdigits2 N <= 53).
      { destruct (Z.eq_dec N 0) as [->|N0]; [cbn; lia|].
        destruct (Zdigits2_bounds N ltac:(lia)) as (D1 & D2).
        assert (Zdigits2 N - 1 < 53); [|lia].
        apply pow2_lt_inv; lia. }
      rewrite fexp64.
      destruct (Z.max (Zdigits2 N + E - 53) (-1074) - E) eqn:E2; try lia;
        cbn [shr shr_m]; unfold pack; cbn [fst snd];
        replace (Z.max E e) with E by lia; reflexivity.
  - (* the input is coarser than the format: kept as it is *)
    cbn [shr_m loc_of_shr_record round_nearest_even].
    fold (round_exp (Zpos M) e). fold E. rewrite En. cbn [shr shr_m].
    unfold rne. cbn [Z.leb Z.compare].
    destruct (Z.eqb_spec (Zpos M) (2 ^ 53)) as [E53|_].
    { exfalso. unfold E, round_exp in En. rewrite E53, fexp64 in En.
      change (Zdigits2 (2 ^ 53)) with 54 in En. lia. }
    unfold pack. cbn [fst snd]. replace (Z.max E e) with e by lia.
    reflexivity.
Qed.

Lemma rne_below (M n : Z) : n <= 0 -> rne M n = M.
Proof. intros H. unfold rne. destruct (Z.leb_spec n 0); [reflexivity|lia]. Qed.

Lemma round_pos_val (b M e : Z) :
  0 < M -> b <= e -> b <= -1074 ->
  fst (round_pos M e) * 2 ^ (snd (round_pos M e) - b) = G b (M * 2 ^ (e - b)) /\
  b <= snd (round_pos M e).
Proof.
  intros HM Hb Hb'. unfold G, round_pos.
  rewrite Zdigits2_shift by lia.
  replace (Zdigits2 M + (e - b) + b) with (Zdigits2 M + e) by lia.
  fold (round_exp M e). set (E := round_exp M e).
  assert (HE : -1074 <= E) by (unfold E, round_exp; rewrite fexp64; lia).
  destruct (Z_le_gt_dec e E) as [L|L].
  - replace (E - b) with (E - e + (e - b)) at 1 by lia.
    rewrite rne_shift by lia. set (N := rne M (E - e)).
    destruct (Z.eqb_spec N (2 ^ 53)) as [->|_]; cbn [fst snd].
    + split; [|lia]. replace (E + 1 - b) with (E - b + 1) by lia.
      rewrite pow2_S by lia. change (2 ^ 53) with (2 * 2 ^ 52). lia.
    + replace (Z.max E e) with E by lia. split; [reflexivity|lia].
  - rewrite (rne_below M) by lia.
    destruct (Z.eqb_spec M (2 ^ 53)) as [E53|_].
    { exfalso. unfold E, round_exp in L. rewrite E53, fexp64 in L.
      change (Zdigits2 (2 ^ 53)) with 54 in L. lia. }
    cbn [fst snd]. replace (Z.max E e) with e by lia. split; [|lia].
    replace (M * 2 ^ (e - b)) with (M * 2 ^ (e - E) * 2 ^ (E - b)) at 2.
    + rewrite rne_exact; [|assert (0 < 2 ^ (e - E)) by (apply pow2_pos; lia); nia|lia].
      rewrite <- !Z.mul_assoc, <- Z.pow_add_r by lia.
      do 2 f_equal. lia.
    + rewrite <- !Z.mul_assoc, <- Z.pow_add_r by lia. do 2 f_equal. lia.
Qed.

Lemma rne_le_pow0 (M e : Z) :
  0 < M -> 0 <= round_exp M e - e -> 0 <= rne M (round_exp M e - e) <= 2 ^ 53.
Proof.
  intros HM Hn. destruct (Z.eq_dec (round_exp M e - e) 0) as [E0|N0].
  - rewrite E0. rewrite rne_below by lia.
    unfold round_exp in E0. rewrite fexp64 in E0.
    destruct (Zdigits2_bounds M HM) as (D1 & D2).
    assert (2 ^ Zdigits2 M <= 2 ^ 53) by (apply pow2_le; lia). lia.
  - apply rne_le_pow; lia.
Qed.

(** The result of rounding is canonical. *)
Lemma round_pos_canonical (M e : Z) :
  0 < M -> e <= round_exp M e ->
  0 <= fst (round_pos M e) /\
  (0 < fst (round_pos M e) ->
   fexp prec emax (Zdigits2 (fst (round_pos M e)) + snd (round_pos M e)) =
   snd (round_pos M e)).
Proof.
  intros HM L. unfold round_pos.
  pose proof (rne_le_pow0 M e HM ltac:(lia)) as B.
  set (E := round_exp M e) in *.
  assert (HE : -1074 <= E) by (unfold E, round_exp; rewrite fexp64; lia).
  set (N := rne M (E - e)) in *.
  destruct (Z.eqb_spec N (2 ^ 53)) as [E53|N53]; cbn [fst snd].
  - split; [apply Z.pow_nonneg; lia|]. intros _.
    change (Zdigits2 (2 ^ 52)) with 53. rewrite fexp64. lia.
  - split; [lia|]. intros HN. replace (Z.max E e) with E by lia.
    destruct (Zdigits2_bounds N HN) as (D1 & D2).
    assert (Zdigits2 N <= 53).
    { assert (Zdigits2 N - 1 < 53); [|lia]. apply pow2_lt_inv; lia. }
    rewrite fexp64.
    destruct (Z.eq_dec E (-1074)) as [Em|Em]; [lia|].
    (* normal range: the mantissa has all 53 digits *)
    destruct (Zdigits2_bounds M HM) as (D3 & D4).
    assert (En : E - e = Zdigits2 M - 53).
    { unfold E, round_exp in *. rewrite fexp64 in *. lia. }
    assert (2 ^ 52 <= N).
    { rewrite <- (rne_exact (2 ^ 52) (E - e)) by lia.
      apply rne_mono. rewrite <- Z.pow_add_r by lia.
      replace (52 + (E - e)) with (Zdigits2 M - 1) by lia.
      split; [apply Z.pow_nonneg|]; lia. }
    assert (52 < Zdigits2 N) by (apply pow2_lt_inv; lia).
    lia.
Qed.

Lemma G_mono (b X Y : Z) : b <= -1074 -> 0 < X <= Y -> G b X <= G b Y.
Proof.
  intros Hb H. unfold G.
  pose proof (Zdigits2_mono X Y ltac:(lia)) as Hd.
  rewrite !fexp64.
  set (dx := Zdigits2 X) in *. set (dy := Zdigits2 Y) in *.
  destruct (Zdigits2_bounds X ltac:(lia)) as (X1 & X2).
  destruct (Zdigits2_bounds Y ltac:(lia)) as (Y1 & Y2).
  fold dx in X1, X2. fold dy in Y1, Y2.
  set (nx := Z.max (dx + b - 53) (-1074) - b).
  set (ny := Z.max (dy + b - 53) (-1074) - b).
  assert (0 <= nx <= ny) by lia.
  destruct (Z.eq_dec nx ny) as [<-|Nn].
  - apply Z.mul_le_mono_nonneg_r; [apply Z.pow_nonneg; lia|].
    apply rne_mono. lia.
  - (* different binades: [2^(dy-1)] lies between the two results *)
    assert (Ey : ny = dy - 53) by lia.
    assert (dx < dy) by lia.
    transitivity (2 ^ (dy - 1)).
    + replace (dy - 1) with (dy - 1 - nx + nx) by lia.
      rewrite Z.pow_add_r by lia.
      apply Z.mul_le_mono_nonneg_r; [apply Z.pow_nonneg; lia|].
      rewrite <- (rne_exact (2 ^ (dy - 1 - nx)) nx)
        by (try apply Z.pow_nonneg; lia).
      apply rne_mono. rewrite <- Z.pow_add_r by lia.
      replace (dy - 1 - nx + nx) with (dy - 1) by lia.
      assert (2 ^ dx <= 2 ^ (dy - 1)) by (apply pow2_le; lia). lia.
    + replace (dy - 1) with (52 + ny) at 1 by lia.
      rewrite Z.pow_add_r by lia.
      apply Z.mul_le_mono_nonneg_r; [apply Z.pow_nonneg; lia|].
      rewrite <- (rne_exact (2 ^ 52) ny) at 1 by lia.
      apply rne_mono. rewrite <- Z.pow_add_r by lia.
      replace (52 + ny) with (dy - 1) by lia.
      split; [apply Z.pow_nonneg|]; lia.
Qed.

(** ** Values and the order of binary64 numbers *)

Lemma bounded_inv (m : positive) (e : Z) :
  SpecFloat.bounded prec emax m e = true ->
  fexp prec emax (Zpos (digits2_pos m) + e) = e /\ e <= 971.
Proof.
  unfold SpecFloat.bounded, canonical_mantissa. intros H.
  apply andb_true_iff in H. destruct H as (H1 & H2).
  apply Z.eqb_eq in H1. apply Z.leb_le in H2.
  split; [exact H1|]. exact H2.
Qed.

Lemma canonical_lt (m1 m2 : positive) (e1 e2 b : Z) :
  fexp prec emax (Zpos (digits2_pos m1) + e1) = e1 ->
  fexp prec emax (Zpos (digits2_pos m2) + e2) = e2 ->
  b <= -1074 -> e1 < e2 ->
  Zpos m1 * 2 ^ (e1 - b) < Zpos m2 * 2 ^ (e2 - b).
Proof.
  intros C1 C2 Hb L. rewrite fexp64 in C1, C2.
  pose proof (digits2_pos_bounds m1) as (_ & U).
  pose proof (digits2_pos_bounds m2) as (Lw & _).
  set (d1 := Zpos (digits2_pos m1)) in *. set (d2 := Zpos (digits2_pos m2)) in *.
  assert (P1 : 0 < 2 ^ (e1 - b)) by (apply pow2_pos; lia).
  assert (P2 : 0 < 2 ^ (e2 - b)) by (apply pow2_pos; lia).
  apply Z.lt_le_trans with (2 ^ (d1 + (e1 - b))).
  { rewrite Z.pow_add_r by lia. nia. }
  apply Z.le_trans with (2 ^ (d2 - 1 + (e2 - b))).
  { apply pow2_le. lia. }
  rewrite Z.pow_add_r by lia. nia.
Qed.

Lemma finite_val_bound (m : positive) (e b : Z) :
  SpecFloat.bounded prec emax m e = true -> b <= -1074 ->
  0 < Zpos m * 2 ^ (e - b) < 2 ^ (1024 - b).
Proof.
  intros H Hb. apply bounded_inv in H. destruct H as (C & L).
  rewrite fexp64 in C.
  pose proof (digits2_pos_bounds m) as (_ & U).
  assert (P : 0 < 2 ^ (e - b)) by (apply pow2_pos; lia).
  split; [lia|].
  apply Z.lt_le_trans with (2 ^ (Zpos (digits2_pos m) + (e - b))).
  { rewrite Z.pow_add_r by lia. nia. }
  apply pow2_le. lia.
Qed.

Ltac cmp_solve :=
  f_equal; symmetry;
  first [apply Z.compare_lt_iff | apply Z.compare_gt_iff | apply Z.compare_eq_iff];
  cbn [cond_Zopp]; lia.

Lemma SFcompare_val (b : Z) (x y : spec_float) :
  b <= -1074 ->
  valid_binary x = true -> valid_binary y = true ->
  SFis_nan x = false -> SFis_nan y = false ->
  SFcompare x y = Some (SF2Z b x ?= SF2Z b y).
Proof.
  intros Hb Vx Vy Nx Ny.
  assert (PI : 0 < 2 ^ (1024 - b)) by (apply pow2_pos; lia).
  destruct x as [sx|sx| |sx mx ex], y as [sy|sy| |sy my ey];
    try discriminate; cbn [SFcompare SF2Z SpecFloat.valid_binary] in *;
    try pose proof (finite_val_bound _ _ b Vx Hb) as Bx;
    try pose proof (finite_val_bound _ _ b Vy Hb) as By.
  - reflexivity.
  - destruct sy; cmp_solve.
  - destruct sy; cmp_solve.
  - destruct sx; cmp_solve.
  - destruct sx, sy; cmp_solve.
  - destruct sx, sy; cmp_solve.
  - destruct sx; cmp_solve.
  - destruct sx, sy; cmp_solve.
  - apply bounded_inv in Vx, Vy. destruct Vx as (Cx & _), Vy as (Cy & _).
    destruct sx, sy; try cmp_solve.
    + destruct (Z.compare_spec ex ey) as [->|L|L].
      * change (Pos.compare_cont Eq mx my) with (Pos.compare mx my).
        destruct (Pos.compare_spec mx my) as [->|L|L]; cbn [CompOpp].
        -- now rewrite Z.compare_refl.
        -- f_equal; symmetry; apply Z.compare_gt_iff; cbn [cond_Zopp]; nia.
        -- f_equal; symmetry; apply Z.compare_lt_iff; cbn [cond_Zopp]; nia.
      * pose proof (canonical_lt mx my ex ey b Cx Cy Hb L). cmp_solve.
      * pose proof (canonical_lt my mx ey ex b Cy Cx Hb L). cmp_solve.
    + destruct (Z.compare_spec ex ey) as [->|L|L].
      * change (Pos.compare_cont Eq mx my) with (Pos.compare mx my).
        destruct (Pos.compare_spec mx my) as [->|L|L].
        -- now rewrite Z.compare_refl.
        -- f_equal; symmetry; apply Z.compare_lt_iff; cbn [cond_Zopp]; nia.
        -- f_equal; symmetry; apply Z.compare_gt_iff; cbn [cond_Zopp]; nia.
      * pose proof (canonical_lt mx my ex ey b Cx Cy Hb L). cmp_solve.
      * pose proof (canonical_lt my mx ey ex b Cy Cx Hb L). cmp_solve.
Qed.

Lemma SFleb_val (b : Z) (x y : spec_float) :
  b <= -1074 ->
  valid_binary x = true -> valid_binary y = true ->
  SFis_nan x = false -> SFis_nan y = false ->
  SFleb x y = (SF2Z b x <=? SF2Z b y).
Proof.
  intros. unfold SFleb. rewrite (SFcompare_val b) by assumption.
  unfold Z.leb. destruct (_ ?= _); reflexivity.
Qed.

Lemma SFltb_val (b : Z) (x y : spec_float) :
  b <= -1074 ->
  valid_binary x = true -> valid_binary y = true ->
  SFis_nan x = false -> SFis_nan y = false ->
  SFltb x y = (SF2Z b x <? SF2Z b y).
Proof.
  intros. unfold SFltb. rewrite (SFcompare_val b) by assumption.
  unfold Z.ltb. destruct (_ ?= _); reflexivity.
Qed.

Lemma G_exact (m : positive) (e b : Z) :
  fexp prec emax (Zpos (digits2_pos m) + e) = e -> b <= -1074 ->
  G b (Zpos m * 2 ^ (e - b)) = Zpos m * 2 ^ (e - b).
Proof.
  intros C Hb. assert (-1074 <= e) by (rewrite fexp64 in C; lia).
  unfold G. rewrite Zdigits2_shift by lia. cbn [Zdigits2].
  replace (Zpos (digits2_pos m) + (e - b) + b) with (Zpos (digits2_pos m) + e)
    by lia.
  rewrite C. rewrite rne_exact by lia. reflexivity.
Qed.

(** What [binary_round_aux] returns on an exact input that is not coarser
    than the format: a valid number of the given sign whose value is the
    rounded one, capped at the infinity. *)
Lemma binary_round_aux_val (s : bool) (M : positive) (e b : Z) :
  e <= round_exp (Zpos M) e -> b <= e -> b <= -1074 ->
  let r := binary_round_aux prec emax s (Zpos M) e loc_Exact in
  valid_binary r = true /\ SFis_nan r = false /\
  SF2Z b r = cond_Zopp s (Z.min (G b (Zpos M * 2 ^ (e - b))) (2 ^ (1024 - b))).
Proof.
  intros L Hb Hb' r. subst r. rewrite binary_round_aux_spec.
  destruct (round_pos_val b (Zpos M) e ltac:(lia) Hb Hb') as (V & Hb2).
  destruct (round_pos_canonical (Zpos M) e ltac:(lia) L) as (P & C).
  rewrite <- V. clear V.
  destruct (round_pos (Zpos M) e) as (m', e'). cbn [fst snd] in *.
  unfold pack. cbn [fst snd].
  assert (PI : 0 < 2 ^ (1024 - b)) by (apply pow2_pos; lia).
  destruct m' as [|m'|m']; [| |lia].
  - cbn [SpecFloat.valid_binary SFis_nan SF2Z]. rewrite Z.mul_0_l.
    rewrite Z.min_l by lia. destruct s; auto.
  - specialize (C ltac:(lia)). cbn [Zdigits2] in C.
    change (emax - prec) with 971.
    destruct (Z.leb_spec e' 971) as [L'|L'].
    + assert (Bd : SpecFloat.bounded prec emax m' e' = true).
      { unfold SpecFloat.bounded, canonical_mantissa. rewrite C, Z.eqb_refl.
        apply Z.leb_le. exact L'. }
      cbn [SpecFloat.valid_binary SFis_nan SF2Z]. split; [exact Bd|]. split; [reflexivity|].
      pose proof (finite_val_bound m' e' b Bd Hb'). rewrite Z.min_l by lia.
      reflexivity.
    + cbn [SpecFloat.valid_binary SFis_nan SF2Z]. split; [reflexivity|].
      split; [reflexivity|]. f_equal. symmetry. apply Z.min_r.
      (* beyond the largest exponent the mantissa has 53 digits *)
      rewrite fexp64 in C.
      pose proof (digits2_pos_bounds m') as (Lw & _).
      replace (Zpos (digits2_pos m')) with 53 in Lw by lia.
      assert (2 ^ (1024 - b) <= 2 ^ (52 + (e' - b))) by (apply pow2_le; lia).
      rewrite Z.pow_add_r in * by lia.
      assert (0 < 2 ^ (e' - b)) by (apply pow2_pos; lia).
      change (2 ^ (53 - 1)) with (2 ^ 52) in Lw. nia.
Qed.

Lemma has_sign_not_nan (s : bool) (x : spec_float) :
  has_sign s x = true -> SFis_nan x = false.
Proof. destruct x; [reflexivity..|discriminate|reflexivity]. Qed.

Lemma binary_round_aux_sign (s : bool) (M : positive) (e : Z) :
  e <= round_exp (Zpos M) e ->
  has_sign s (binary_round_aux prec emax s (Zpos M) e loc_Exact) = true.
Proof.
  intros L. rewrite binary_round_aux_spec.
  destruct (round_pos_canonical (Zpos M) e ltac:(lia) L) as (P & _).
  unfold pack. destruct (fst (round_pos (Zpos M) e)); [| |lia].
  - apply eqb_reflx.
  - destruct (_ <=? _); apply eqb_reflx.
Qed.

(** *** Left alignment *)

Lemma iter_xO (m d : positive) : Zpos (Pos.iter xO m d) = Zpos m * 2 ^ Zpos d.
Proof.
  induction d as [|d IH] using Pos.peano_ind.
  - cbn [Pos.iter]. lia.
  - rewrite Pos.iter_succ, Pos2Z.inj_xO, IH, Pos2Z.inj_succ.
    unfold Z.succ. rewrite pow2_S by lia. lia.
Qed.

Lemma shl_align_spec (m : positive) (e e' : Z) :
  Zpos (fst (shl_align m e e')) = Zpos m * 2 ^ (e - Z.min e e') /\
  snd (shl_align m e e') = Z.min e e'.
Proof.
  unfold shl_align. destruct (e' - e) as [|p|p] eqn:E; cbn [fst snd].
  - replace (Z.min e e') with e by lia. rewrite Z.sub_diag. lia.
  - replace (Z.min e e') with e by lia. rewrite Z.sub_diag. lia.
  - replace (Z.min e e') with e' by lia. rewrite iter_xO.
    split; [|reflexivity]. do 2 f_equal. lia.
Qed.

(** [binary_round]: alignment, then rounding. *)
Lemma binary_round_val (s : bool) (m : positive) (e b : Z) :
  b <= e -> b <= -1074 ->
  let r := binary_round prec emax s m e in
  valid_binary r = true /\ has_sign s r = true /\
  SF2Z b r = cond_Zopp s (Z.min (G b (Zpos m * 2 ^ (e - b))) (2 ^ (1024 - b))).
Proof.
  intros Hb Hb' r. subst r. unfold binary_round.
  set (E := fexp prec emax (Zpos (digits2_pos m) + e)).
  assert (HE : -1074 <= E) by (unfold E; rewrite fexp64; lia).
  destruct (shl_align_spec m e E) as (A1 & A2).
  destruct (shl_align m e E) as (mz, ez). cbn [fst snd] in A1, A2.
  assert (L : ez <= round_exp (Zpos mz) ez).
  { unfold round_exp. rewrite A1, Zdigits2_shift by lia. cbn [Zdigits2].
    rewrite A2.
    replace (Zpos (digits2_pos m) + (e - Z.min e E) + Z.min e E)
      with (Zpos (digits2_pos m) + e) by lia.
    fold E. lia. }
  destruct (binary_round_aux_val s mz ez b L ltac:(lia) Hb') as (V1 & _ & V3).
  split; [exact V1|]. split; [apply binary_round_aux_sign, L|].
  rewrite V3. do 3 f_equal. rewrite A1, A2, <- Z.mul_assoc, <- Z.pow_add_r by lia.
  do 2 f_equal. lia.
Qed.

(** *** Multiplication *)

Lemma product_exponent (mx my : positive) (ex ey : Z) :
  SpecFloat.bounded prec emax mx ex = true -> SpecFloat.bounded prec emax my ey = true ->
  ex + ey <= round_exp (Zpos (mx * my)) (ex + ey).
Proof.
  intros Bx By. apply bounded_inv in Bx, By.
  destruct Bx as (Cx & _), By as (Cy & _). rewrite fexp64 in Cx, Cy.
  unfold round_exp. rewrite fexp64. cbn [Zdigits2].
  pose proof (digits2_pos_bounds mx) as (Lx & _).
  pose proof (digits2_pos_bounds my) as (Ly & _).
  pose proof (digits2_pos_bounds (mx * my)) as (_ & U).
  set (dx := Zpos (digits2_pos mx)) in *. set (dy := Zpos (digits2_pos my)) in *.
  set (d := Zpos (digits2_pos (mx * my))) in *.
  assert (dx + dy - 2 < d); [|lia].
  apply pow2_lt_inv; [lia|].
  replace (dx + dy - 2) with (dx - 1 + (dy - 1)) by lia.
  rewrite Z.pow_add_r by lia. rewrite Pos2Z.inj_mul in U.
  assert (0 < 2 ^ (dx - 1)) by (apply pow2_pos; lia).
  assert (0 < 2 ^ (dy - 1)) by (apply pow2_pos; lia).
  nia.
Qed.

Lemma G_0 (b : Z) : G b 0 = 0.
Proof.
  unfold G. cbn [Zdigits2]. unfold rne.
  set (n := fexp prec emax (0 + b) - b).
  destruct (Z.leb_spec n 0) as [L|L]; [reflexivity|].
  rewrite Z.div_0_l, Z.mod_0_l by (apply Z.pow_nonzero; lia).
  cbn [Z.odd andb]. rewrite andb_false_r, orb_false_r.
  pose proof (pow2_pos (n - 1) ltac:(lia)).
  destruct (Z.ltb_spec (2 ^ (n - 1)) 0); [lia|reflexivity].
Qed.

Lemma G_mono0 (b X Y : Z) : b <= -1074 -> 0 <= X <= Y -> G b X <= G b Y.
Proof.
  intros Hb H. destruct (Z.eq_dec X 0) as [->|N].
  - rewrite G_0. unfold G. rewrite fexp64.
    apply Z.mul_nonneg_nonneg; [|apply Z.pow_nonneg; lia].
    destruct (Z.eq_dec (Z.max (Zdigits2 Y + b - 53) (-1074) - b) 0) as [->|N].
    + rewrite rne_below; lia.
    + apply rne_nonneg; lia.
  - apply G_mono; lia.
Qed.

Lemma SFmul_val (sa : bool) (ma : positive) (ea : Z) (x : spec_float) :
  SpecFloat.bounded prec emax ma ea = true ->
  valid_binary x = true -> SFnonneg x = true ->
  let r := SFmul prec emax (S754_finite sa ma ea) x in
  valid_binary r = true /\ SFis_nan r = false /\
  SF2Z (-2148) r =
  cond_Zopp sa (Z.min (G (-2148) (Zpos ma * 2 ^ (ea + 1074) * SF2Z (-1074) x))
                      (2 ^ (1024 - -2148))).
Proof.
  intros Ba Vx Nx r. subst r.
  destruct x as [sx|sx| |sx mx ex]; try discriminate.
  - cbn [SFmul SpecFloat.valid_binary SFis_nan SF2Z].
    rewrite Z.mul_0_r, G_0, Z.min_l by (apply Z.pow_nonneg; lia).
    destruct sa; auto.
  - destruct sx; [discriminate|]. cbn [SFmul SF2Z cond_Zopp].
    cbn [SpecFloat.valid_binary] in Vx.
    pose proof (product_exponent ma mx ea ex Ba Vx) as L.
    pose proof (bounded_inv _ _ Ba) as (Ca & _).
    pose proof (bounded_inv _ _ Vx) as (Cx & _).
    rewrite fexp64 in Ca, Cx.
    destruct (binary_round_aux_val (xorb sa false) (ma * mx) (ea + ex) (-2148)
                L ltac:(lia) ltac:(lia)) as (V1 & V2 & V3).
    split; [exact V1|]. split; [exact V2|].
    rewrite V3, xorb_false_r. do 3 f_equal.
    rewrite Pos2Z.inj_mul.
    replace (ea + ex - -2148) with (ea + 1074 + (ex - -1074)) by lia.
    rewrite Z.pow_add_r by lia. ring.
Qed.

(** *** Subtraction *)

Lemma SFnonneg_val (b : Z) (x : spec_float) :
  SFnonneg x = true -> 0 <= SF2Z b x.
Proof.
  destruct x as [s|s| |s m e]; cbn [SFnonneg SF2Z]; intros H;
    try discriminate; try lia.
  destruct s; [discriminate|]. cbn [cond_Zopp].
  pose proof (Z.pow_nonneg 2 (e - b) ltac:(lia)). nia.
Qed.

Lemma SFsub_val (mx : positive) (ex : Z) (y : spec_float) (b : Z) :
  SpecFloat.bounded prec emax mx ex = true ->
  valid_binary y = true -> SFnonneg y = true -> b <= -1074 ->
  SF2Z b y < Zpos mx * 2 ^ (ex - b) ->
  let r := SFsub prec emax (S754_finite false mx ex) y in
  valid_binary r = true /\ SFnonneg r = true /\
  SF2Z b r = Z.min (G b (Zpos mx * 2 ^ (ex - b) - SF2Z b y)) (2 ^ (1024 - b)) /\
  SF2Z b r < 2 ^ (1024 - b).
Proof.
  intros Bx Vy Ny Hb Lt r. subst r.
  pose proof (bounded_inv _ _ Bx) as (Cx & Ex).
  pose proof (finite_val_bound _ _ b Bx Hb) as Fx.
  destruct y as [sy|sy| |sy my ey]; try discriminate.
  - cbn [SFsub SF2Z SpecFloat.valid_binary SFnonneg SFis_nan cond_Zopp].
    rewrite Z.sub_0_r, G_exact by assumption.
    rewrite Z.min_l by lia. repeat split; try assumption; lia.
  - destruct sy; [discriminate|].
    cbn [SpecFloat.valid_binary SF2Z cond_Zopp] in Vy, Lt.
    pose proof (bounded_inv _ _ Vy) as (Cy & Ey).
    rewrite fexp64 in Cx, Cy.
    cbn [SFsub SF2Z cond_Zopp].
    destruct (shl_align_spec mx ex (Z.min ex ey)) as (A1 & _).
    destruct (shl_align_spec my ey (Z.min ex ey)) as (A2 & _).
    rewrite A1, A2.
    replace (Z.min ex (Z.min ex ey)) with (Z.min ex ey) by lia.
    replace (Z.min ey (Z.min ex ey)) with (Z.min ex ey) by lia.
    set (ez := Z.min ex ey).
    set (D := Zpos mx * 2 ^ (ex - ez) - Zpos my * 2 ^ (ey - ez)).
    assert (ED : D * 2 ^ (ez - b) =
                 Zpos mx * 2 ^ (ex - b) - Zpos my * 2 ^ (ey - b)).
    { unfold D. rewrite Z.mul_sub_distr_r, <- !Z.mul_assoc.
      rewrite <- !Z.pow_add_r by lia.
      replace (ex - ez + (ez - b)) with (ex - b) by lia.
      replace (ey - ez + (ez - b)) with (ey - b) by lia. reflexivity. }
    assert (P : 0 < 2 ^ (ez - b)) by (apply pow2_pos; lia).
    assert (PD : 0 < D) by nia.
    destruct D as [|p|p]; try lia. cbn [binary_normalize].
    destruct (binary_round_val false p ez b ltac:(lia) Hb) as (V1 & V2 & V3).
    cbn [cond_Zopp] in V3. rewrite ED in V3.
    assert (Le : G b (Zpos mx * 2 ^ (ex - b) - Zpos my * 2 ^ (ey - b)) <=
                 Zpos mx * 2 ^ (ex - b)).
    { rewrite <- (G_exact mx ex b) at 2 by (rewrite ?fexp64; assumption).
      apply G_mono0; [assumption|].
      assert (0 < Zpos my * 2 ^ (ey - b)); [|lia].
      apply Z.mul_pos_pos; [lia|apply pow2_pos; lia]. }
    split; [exact V1|]. split; [|split; [exact V3|]].
    + destruct (binary_round prec emax false p ez) as [s|s| |s m e];
        cbn [has_sign SFnonneg SF2Z] in *; try discriminate.
      * reflexivity.
      * destruct s; [discriminate|]. cbn [cond_Zopp] in V3. lia.
      * destruct s; [discriminate|reflexivity].
    + rewrite V3. lia.
Qed.

(** *** Conversion of an integer *)

Lemma binary_normalize_val (n b : Z) :
  0 <= n -> b <= -1074 ->
  let r := binary_normalize prec emax n 0 false in
  valid_binary r = true /\ has_sign false r = true /\
  SF2Z b r = Z.min (G b (n * 2 ^ (0 - b))) (2 ^ (1024 - b)).
Proof.
  intros Hn Hb r. subst r. destruct n as [|p|p]; [| |lia].
  - cbn [binary_normalize SpecFloat.valid_binary has_sign SF2Z].
    rewrite Z.mul_0_l, G_0, Z.min_l by (apply Z.pow_nonneg; lia). auto.
  - cbn [binary_normalize].
    destruct (binary_round_val false p 0 b ltac:(lia) Hb) as (V1 & V2 & V3).
    auto.
Qed.

(** ** Values of doubles *)

Lemma leb_FV (b : Z) (x y : float) :
  b <= -1074 -> Fis_nan x = false -> Fis_nan y = false ->
  (x <=? y)%float = (FV b x <=? FV b y).
Proof.
  intros. rewrite leb_spec. apply SFleb_val; auto using Prim2SF_valid.
Qed.

Lemma ltb_FV (b : Z) (x y : float) :
  b <= -1074 -> Fis_nan x = false -> Fis_nan y = false ->
  (x <? y)%float = (FV b x <? FV b y).
Proof.
  intros. rewrite ltb_spec. apply SFltb_val; auto using Prim2SF_valid.
Qed.

Lemma SFnonneg_not_nan (x : spec_float) : SFnonneg x = true -> SFis_nan x = false.
Proof. destruct x; [reflexivity..|discriminate|reflexivity]. Qed.

Lemma SFnonneg_of_val (b : Z) (x : spec_float) :
  b <= -1074 -> valid_binary x = true -> SFis_nan x = false ->
  0 <= SF2Z b x < 2 ^ (1024 - b) -> SFnonneg x = true.
Proof.
  intros Hb V N H.
  assert (PI : 0 < 2 ^ (1024 - b)) by (apply pow2_pos; lia).
  destruct x as [s|s| |s m e]; cbn [SF2Z SFnonneg] in *; try discriminate.
  - reflexivity.
  - destruct s; cbn [cond_Zopp] in H; lia.
  - pose proof (finite_val_bound m e b V Hb).
    destruct s; cbn [cond_Zopp] in H; [lia|reflexivity].
Qed.

Lemma Fnonneg_of_bounds (e : float) :
  (0 <=? e)%float = true -> (e <=? 1)%float = true -> Fnonneg e = true.
Proof.
  rewrite !leb_spec. unfold Fnonneg.
  change (Prim2SF 0) with (S754_zero false).
  change (Prim2SF 1) with (S754_finite false 4503599627370496 (-52)).
  destruct (Prim2SF e) as [s|s| |s m x]; cbv [SFleb SFcompare SFnonneg];
    try discriminate.
  - reflexivity.
  - destruct s; discriminate.
  - destruct s; [discriminate|reflexivity].
Qed.

Lemma Fnonneg_not_nan (x : float) : Fnonneg x = true -> Fis_nan x = false.
Proof. apply SFnonneg_not_nan. Qed.

Lemma G_nonneg (b X : Z) : b <= -1074 -> 0 <= X -> 0 <= G b X.
Proof. intros Hb H. rewrite <- (G_0 b). apply G_mono0; lia. Qed.

Lemma mul_val (a x : float) (sa : bool) (ma : positive) (ea : Z) :
  Prim2SF a = S754_finite sa ma ea -> Fnonneg x = true ->
  Fis_nan (a * x) = false /\
  FV (-2148) (a * x) =
  cond_Zopp sa (Z.min (G (-2148) (Zpos ma * 2 ^ (ea + 1074) * FV (-1074) x))
                      (2 ^ (1024 - -2148))).
Proof.
  intros Ea Nx. unfold Fis_nan, FV. rewrite mul_spec, Ea.
  pose proof (Prim2SF_valid a) as Va. rewrite Ea in Va.
  destruct (SFmul_val sa ma ea (Prim2SF x) Va (Prim2SF_valid x) Nx)
    as (_ & N & V).
  split; assumption.
Qed.

Lemma sub_val (x y : float) (mx : positive) (ex b : Z) :
  Prim2SF x = S754_finite false mx ex -> Fnonneg y = true -> b <= -1074 ->
  FV b y < Zpos mx * 2 ^ (ex - b) ->
  Fnonneg (x - y) = true /\
  FV b (x - y) = Z.min (G b (Zpos mx * 2 ^ (ex - b) - FV b y)) (2 ^ (1024 - b)).
Proof.
  intros Ex Ny Hb L. unfold Fnonneg, FV. rewrite sub_spec, Ex.
  pose proof (Prim2SF_valid x) as Vx. rewrite Ex in Vx.
  destruct (SFsub_val mx ex (Prim2SF y) b Vx (Prim2SF_valid y) Ny Hb L)
    as (_ & N & V & _).
  split; assumption.
Qed.

(** *** The conversion [float(n)] *)

Lemma not_infinity (r : spec_float) :
  valid_binary r = true -> SFnonneg r = true ->
  Prim2SF (SF2Prim r) = r /\ is_infinity (SF2Prim r) = false.
Proof.
  intros V N. pose proof (Prim2SF_SF2Prim r V) as E. split; [exact E|].
  unfold is_infinity. rewrite eqb_spec, abs_spec, E.
  change (Prim2SF infinity) with (S754_infinity false).
  destruct r as [s|s| |s m e]; try discriminate; reflexivity.
Qed.

Lemma G_below_overflow :
  G (-1074) ((int_overflow - 1) * 2 ^ 1074) < 2 ^ 2098.
Proof. vm_compute. reflexivity. Qed.

Lemma G_at_overflow : G (-1074) (int_overflow * 2 ^ 1074) = 2 ^ 2098.
Proof. vm_compute. reflexivity. Qed.

Lemma float_of_int_val (depth : Z) :
  0 <= depth < int_overflow ->
  exists d, Py.float_of_int depth = Ok d /\ Fnonneg d = true /\
            FV (-1074) d = G (-1074) (depth * 2 ^ 1074).
Proof.
  intros H. unfold Py.float_of_int.
  destruct (binary_normalize_val depth (-1074) ltac:(lia) ltac:(lia))
    as (V & S & E).
  set (r := binary_normalize prec emax depth 0 false) in *.
  change (0 - -1074) with 1074 in E. change (1024 - -1074) with 2098 in E.
  assert (P : 0 < 2 ^ 1074) by (apply pow2_pos; lia).
  assert (L : G (-1074) (depth * 2 ^ 1074) < 2 ^ 2098).
  { apply Z.le_lt_trans with (G (-1074) ((int_overflow - 1) * 2 ^ 1074));
      [|exact G_below_overflow].
    apply G_mono0; [lia|]. split.
    - apply Z.mul_nonneg_nonneg; lia.
    - apply Z.mul_le_mono_nonneg_r; lia. }
  revert E L. generalize (2 ^ 2098). intros I E L.
  rewrite Z.min_l in E by lia.
  assert (N : SFnonneg r = true).
  { apply (SFnonneg_of_val (-1074)); [lia|exact V| |].
    - apply (has_sign_not_nan false), S.
    - rewrite E. split.
      + apply G_nonneg; [lia|]. apply Z.mul_nonneg_nonneg; lia.
      + change (1024 - -1074) with 2098.
        apply Z.le_lt_trans with (G (-1074) ((int_overflow - 1) * 2 ^ 1074));
          [|exact G_below_overflow].
        apply G_mono0; [lia|]. split.
        * apply Z.mul_nonneg_nonneg; lia.
        * apply Z.mul_le_mono_nonneg_r; lia. }
  destruct (not_infinity r V N) as (E1 & E2).
  exists (SF2Prim r). rewrite E2. split; [reflexivity|].
  unfold Fnonneg, FV. rewrite E1. split; assumption.
Qed.

(** From [int_overflow] on, [float(n)] raises. *)
Lemma float_of_int_overflow (depth : Z) :
  int_overflow <= depth -> Py.float_of_int depth = Raise OverflowError.
Proof.
  intros H. unfold Py.float_of_int.
  assert (P0 : 0 < int_overflow) by (vm_compute; reflexivity).
  destruct (binary_normalize_val depth (-1074) ltac:(lia) ltac:(lia))
    as (V & S & E).
  set (r := binary_normalize prec emax depth 0 false) in *.
  change (0 - -1074) with 1074 in E. change (1024 - -1074) with 2098 in E.
  assert (P : 0 < 2 ^ 1074) by (apply pow2_pos; lia).
  assert (L : 2 ^ 2098 <= G (-1074) (depth * 2 ^ 1074)).
  { rewrite <- G_at_overflow. apply G_mono0; [lia|]. split.
    - apply Z.mul_nonneg_nonneg; lia.
    - apply Z.mul_le_mono_nonneg_r; lia. }
  rewrite Z.min_r in E by exact L.
  assert (R : r = S754_infinity false).
  { clearbody r.
    destruct r as [s|s| |s m e]; cbn [has_sign SF2Z] in *;
      [exfalso; pose proof (pow2_pos 2098 ltac:(lia)); lia| |discriminate|].
    - apply eqb_prop in S. now subst s.
    - apply eqb_prop in S. subst s. cbn [cond_Zopp] in E.
      pose proof (finite_val_bound m e (-1074) V ltac:(lia)) as B.
      change (1024 - -1074) with 2098 in B. exfalso. lia. }
  rewrite R.
  change (is_infinity (SF2Prim (S754_infinity false))) with true.
  reflexivity.
Qed.

(** *** [math.exp] on a non-positive argument *)

Lemma is_nan_nonneg (x : float) : Fnonneg x = true -> is_nan x = false.
Proof.
  unfold Fnonneg, is_nan. rewrite eqb_spec. intros H.
  apply negb_false_iff. unfold SFeqb.
  destruct (Prim2SF x) as [s|s| |s m e]; try discriminate; [reflexivity|].
  destruct s; [discriminate|]. cbv [SFcompare].
  rewrite Z.compare_refl.
  change (Pos.compare_cont Eq m m) with (Pos.compare m m).
  now rewrite Pos.compare_refl.
Qed.

Lemma is_infinity_nonneg (x : float) : Fnonneg x = true -> is_infinity x = false.
Proof.
  unfold Fnonneg, is_infinity. rewrite eqb_spec, abs_spec. intros H.
  change (Prim2SF infinity) with (S754_infinity false).
  destruct (Prim2SF x) as [s|s| |s m e]; try discriminate; reflexivity.
Qed.

Lemma math_exp_nonneg (libm_exp : float -> float) (x : float) :
  Fnonneg (libm_exp x) = true -> Py.math_exp libm_exp x = Ok (libm_exp x).
Proof.
  intros H. unfold Py.math_exp.
  now rewrite (is_nan_nonneg _ H), (is_infinity_nonneg _ H).
Qed.

(** *** The schedule on doubles *)

Lemma c06_pos : 0 < c06.
Proof. apply Z.mul_pos_pos; [reflexivity|apply pow2_pos; lia]. Qed.

Lemma v06_lt_v08 : 0 < v06 < v08.
Proof.
  unfold v06, v08. generalize (pow2_pos (-53 - -2148) ltac:(lia)).
  generalize (2 ^ (-53 - -2148)). intros P HP. lia.
Qed.

Lemma v08_lt_vinf : v08 < vinf.
Proof.
  exact (proj2 (finite_val_bound 7205759403792794 (-53) (-2148) eq_refl
                  ltac:(lia))).
Qed.

Lemma vinf_pos : 0 < vinf.
Proof. apply pow2_pos. lia. Qed.

Lemma Fnonneg_1 : Fnonneg 1 = true.
Proof. reflexivity. Qed.

Lemma min_G_mono (b X Y I : Z) :
  b <= -1074 -> 0 <= X <= Y -> Z.min (G b X) I <= Z.min (G b Y) I.
Proof. intros Hb H. apply Z.min_le_compat_r, G_mono0; assumption. Qed.

Lemma mul_0_6_val (e : float) :
  Fnonneg e = true ->
  Fis_nan (0.6 * e) = false /\
  FV (-2148) (0.6 * e) = Z.min (G (-2148) (c06 * FV (-1074) e)) vinf.
Proof.
  intros N.
  exact (mul_val 0.6 e false 5404319552844595 (-53) eq_refl N).
Qed.

Lemma product_le_0_6 (v : Z) :
  0 <= v <= FV (-1074) 1 ->
  0 <= Z.min (G (-2148) (c06 * v)) vinf <= v06.
Proof.
  intros H. pose proof c06_pos. pose proof vinf_pos. split.
  - apply Z.min_glb; [apply G_nonneg; [lia|]|lia].
    apply Z.mul_nonneg_nonneg; lia.
  - destruct (mul_0_6_val 1 Fnonneg_1) as (_ & E).
    change (0.6 * 1)%float with 0.6%float in E.
    change (FV (-2148) 0.6) with v06 in E.
    rewrite E. apply min_G_mono; [lia|]. split.
    + apply Z.mul_nonneg_nonneg; lia.
    + apply Z.mul_le_mono_nonneg_l; lia.
Qed.

Lemma lambda_tail (e : float) :
  Fnonneg e = true -> (e <=? 1)%float = true ->
  Fnonneg (0.8 - 0.6 * e) = true /\
  FV (-2148) (0.8 - 0.6 * e) = tail_val (FV (-1074) e).
Proof.
  intros N L.
  assert (Hv : 0 <= FV (-1074) e <= FV (-1074) 1).
  { split; [apply SFnonneg_val, N|].
    rewrite (leb_FV (-1074)) in L;
      [now apply Z.leb_le|lia|now apply Fnonneg_not_nan|reflexivity]. }
  destruct (mul_0_6_val e N) as (Ny & Ey).
  pose proof (product_le_0_6 _ Hv) as B. rewrite <- Ey in B.
  pose proof v06_lt_v08. pose proof v08_lt_vinf.
  assert (Ny' : Fnonneg (0.6 * e) = true).
  { apply (SFnonneg_of_val (-2148)); [lia|apply Prim2SF_valid|exact Ny|].
    fold (FV (-2148) (0.6 * e)). fold vinf. lia. }
  destruct (sub_val 0.8 (0.6 * e) 7205759403792794 (-53) (-2148) eq_refl Ny'
              ltac:(lia)) as (Nz & Ez).
  { fold v08. lia. }
  split; [exact Nz|]. rewrite Ez, Ey. unfold tail_val. reflexivity.
Qed.

Lemma tail_val_anti (v w : Z) :
  0 <= v <= w -> w <= FV (-1074) 1 -> tail_val w <= tail_val v.
Proof.
  intros H Hw. unfold tail_val.
  pose proof (product_le_0_6 v ltac:(lia)) as Bv.
  pose proof (product_le_0_6 w ltac:(lia)) as Bw.
  pose proof v06_lt_v08. pose proof c06_pos.
  apply min_G_mono; [lia|].
  assert (Z.min (G (-2148) (c06 * v)) vinf <= Z.min (G (-2148) (c06 * w)) vinf).
  { apply min_G_mono; [lia|]. split.
    - apply Z.mul_nonneg_nonneg; lia.
    - apply Z.mul_le_mono_nonneg_l; lia. }
  lia.
Qed.

Lemma tail_val_le_0_8 (v : Z) :
  0 <= v <= FV (-1074) 1 -> tail_val v <= v08.
Proof.
  intros H. unfold tail_val.
  pose proof (product_le_0_6 v H) as Bv. pose proof v06_lt_v08.
  etransitivity; [apply Z.le_min_l|].
  assert (E : G (-2148) v08 = v08).
  { exact (G_exact 7205759403792794 (-53) (-2148) eq_refl ltac:(lia)). }
  rewrite <- E at 2. apply G_mono0; lia.
Qed.

Lemma c03_pos : 0 < c03.
Proof. apply Z.mul_pos_pos; [reflexivity|apply pow2_pos; lia]. Qed.

(** The argument [-0.3 * d] of [exp], for [d >= 0]. *)
Lemma mul_m0_3_val (d : float) :
  Fnonneg d = true ->
  Fis_nan (-0.3 * d) = false /\
  FV (-2148) (-0.3 * d) = - Z.min (G (-2148) (c03 * FV (-1074) d)) vinf.
Proof.
  intros N.
  exact (mul_val (-0.3) d true 5404319552844595 (-54) eq_refl N).
Qed.

Lemma arg_nonpos (d : float) :
  Fnonneg d = true -> (-0.3 * d <=? 0)%float = true.
Proof.
  intros N. destruct (mul_m0_3_val d N) as (Nx & Ex).
  rewrite (leb_FV (-2148)); [|lia|exact Nx|reflexivity].
  apply Z.leb_le. rewrite Ex. change (FV (-2148) 0) with 0.
  pose proof c03_pos. pose proof vinf_pos.
  assert (0 <= G (-2148) (c03 * FV (-1074) d)).
  { apply G_nonneg; [lia|]. apply Z.mul_nonneg_nonneg; [lia|].
    apply SFnonneg_val, N. }
  lia.
Qed.

Lemma leb_not_nan (x y : float) :
  (x <=? y)%float = true -> Fis_nan x = false /\ Fis_nan y = false.
Proof.
  rewrite leb_spec. unfold Fis_nan, SFleb.
  destruct (Prim2SF x), (Prim2SF y); cbv [SFcompare SFis_nan];
    try discriminate; auto.
Qed.

Section DoubleSchedule.

Variable libm_exp : float -> float.

Hypothesis exp_range :
  forall x, (x <=? 0)%float = true ->
            (0 <=? libm_exp x)%float = true /\ (libm_exp x <=? 1)%float = true.

Lemma lambda_init_fn_steps (depth : Z) :
  0 <= depth < int_overflow ->
  exists d,
    Py.float_of_int depth = Ok d /\ Fnonneg d = true /\
    FV (-1074) d = G (-1074) (depth * 2 ^ 1074) /\
    Fnonneg (libm_exp (-0.3 * d)) = true /\
    (libm_exp (-0.3 * d) <=? 1)%float = true /\
    lambda_init_fn libm_exp depth = Ok (0.8 - 0.6 * libm_exp (-0.3 * d))%float.
Proof.
  intros H. destruct (float_of_int_val depth H) as (d & Ed & Nd & Vd).
  exists d. destruct (exp_range _ (arg_nonpos d Nd)) as (E0 & E1).
  pose proof (Fnonneg_of_bounds _ E0 E1) as Ne.
  repeat (split; [assumption|]).
  unfold lambda_init_fn. rewrite Ed. cbn [bind].
  rewrite (math_exp_nonneg libm_exp _ Ne). reflexivity.
Qed.

Lemma exp_value_bounds (e : float) :
  Fnonneg e = true -> (e <=? 1)%float = true ->
  0 <= FV (-1074) e <= FV (-1074) 1.
Proof.
  intros N L. split; [apply SFnonneg_val, N|].
  rewrite (leb_FV (-1074)) in L;
    [now apply Z.leb_le|lia|now apply Fnonneg_not_nan|reflexivity].
Qed.

(** For every convertible depth from 0 on, the result lies between
    [0.8 - 0.6] and 0.8. *)
Lemma lambda_init_fn_double_range (depth : Z) :
  0 <= depth < int_overflow ->
  exists v, lambda_init_fn libm_exp depth = Ok v /\
            (0x1.999999999999cp-3 <=? v)%float = true /\
            (v <=? 0.8)%float = true /\
            (0.2 <? v)%float = true.
Proof.
  intros H.
  destruct (lambda_init_fn_steps depth H) as (d & _ & _ & _ & Ne & Le & ->).
  set (e := libm_exp (-0.3 * d)) in *.
  exists (0.8 - 0.6 * e)%float. split; [reflexivity|].
  destruct (lambda_tail e Ne Le) as (Nz & Ez).
  pose proof (exp_value_bounds e Ne Le) as Be.
  destruct (lambda_tail 1 Fnonneg_1 eq_refl) as (_ & E1).
  change (0.8 - 0.6 * 1)%float with 0x1.999999999999cp-3%float in E1.
  assert (L1 : FV (-2148) 0x1.999999999999cp-3 <= FV (-2148) (0.8 - 0.6 * e)).
  { rewrite E1, Ez. apply tail_val_anti; lia. }
  assert (L2 : FV (-2148) (0.8 - 0.6 * e) <= FV (-2148) 0.8).
  { rewrite Ez. apply tail_val_le_0_8, Be. }
  pose proof (Fnonneg_not_nan _ Nz) as Nn.
  split; [|split].
  - rewrite (leb_FV (-2148)); [now apply Z.leb_le|lia|reflexivity|exact Nn].
  - rewrite (leb_FV (-2148)); [now apply Z.leb_le|lia|exact Nn|reflexivity].
  - rewrite (ltb_FV (-2148)); [|lia|reflexivity|exact Nn].
    apply Z.ltb_lt. apply Z.lt_le_trans with (FV (-2148) 0x1.999999999999cp-3);
      [|exact L1].
    apply Z.ltb_lt. rewrite <- (ltb_FV (-2148)); [reflexivity|lia|reflexivity..].
Qed.

End DoubleSchedule.

Lemma float_of_int_mono (m n : Z) (dm dn : float) :
  0 <= m <= n -> n < int_overflow ->
  Py.float_of_int m = Ok dm -> Py.float_of_int n = Ok dn ->
  Fnonneg dm = true /\ Fnonneg dn = true /\
  FV (-1074) dm <= FV (-1074) dn.
Proof.
  intros H Hn Em En.
  destruct (float_of_int_val m ltac:(lia)) as (dm' & Em' & Nm & Vm).
  destruct (float_of_int_val n ltac:(lia)) as (dn' & En' & Nn & Vn).
  rewrite Em in Em'. apply Ok_inj in Em'. subst dm'.
  rewrite En in En'. apply Ok_inj in En'. subst dn'.
  split; [exact Nm|]. split; [exact Nn|].
  rewrite Vm, Vn. pose proof (pow2_pos 1074 ltac:(lia)).
  apply G_mono0; [lia|]. split.
  - apply Z.mul_nonneg_nonneg; lia.
  - apply Z.mul_le_mono_nonneg_r; lia.
Qed.

(** The argument of [exp] does not grow with the depth. *)
Lemma arg_anti (d1 d2 : float) :
  Fnonneg d1 = true -> Fnonneg d2 = true ->
  FV (-1074) d1 <= FV (-1074) d2 ->
  (-0.3 * d2 <=? -0.3 * d1)%float = true.
Proof.
  intros N1 N2 L.
  destruct (mul_m0_3_val d1 N1) as (X1 & E1).
  destruct (mul_m0_3_val d2 N2) as (X2 & E2).
  rewrite (leb_FV (-2148)); [|lia|exact X2|exact X1].
  apply Z.leb_le. rewrite E1, E2. pose proof c03_pos.
  pose proof (SFnonneg_val (-1074) _ N1).
  assert (Z.min (G (-2148) (c03 * FV (-1074) d1)) vinf <=
          Z.min (G (-2148) (c03 * FV (-1074) d2)) vinf); [|lia].
  apply min_G_mono; [lia|]. split.
  - apply Z.mul_nonneg_nonneg; [lia|exact H0].
  - apply Z.mul_le_mono_nonneg_l; lia.
Qed.

Lemma leb_trans (x y z : float) :
  (x <=? y)%float = true -> (y <=? z)%float = true -> (x <=? z)%float = true.
Proof.
  intros H1 H2.
  destruct (leb_not_nan _ _ H1) as (Nx & Ny).
  destruct (leb_not_nan _ _ H2) as (_ & Nz).
  rewrite (leb_FV (-1074)) in * by (lia || assumption).
  apply Z.leb_le in H1, H2. apply Z.leb_le. lia.
Qed.

Section DoubleGrowth.

Variable libm_exp : float -> float.

Hypothesis exp_range :
  forall x, (x <=? 0)%float = true ->
            (0 <=? libm_exp x)%float = true /\ (libm_exp x <=? 1)%float = true.

Hypothesis exp_mono :
  forall x y, (x <=? y)%float = true -> (y <=? 0)%float = true ->
              (libm_exp x <=? libm_exp y)%float = true.

(** The result never decreases with the depth. *)
Lemma lambda_init_fn_double_monotone (depth1 depth2 : Z) :
  0 <= depth1 <= depth2 -> depth2 < int_overflow ->
  exists v w, lambda_init_fn libm_exp depth1 = Ok v /\
              lambda_init_fn libm_exp depth2 = Ok w /\
              (v <=? w)%float = true.
Proof.
  intros H H2.
  destruct (lambda_init_fn_steps libm_exp exp_range depth1 ltac:(lia))
    as (d1 & Ed1 & Nd1 & _ & Ne1 & Le1 & ->).
  destruct (lambda_init_fn_steps libm_exp exp_range depth2 ltac:(lia))
    as (d2 & Ed2 & Nd2 & _ & Ne2 & Le2 & ->).
  destruct (float_of_int_mono depth1 depth2 d1 d2 H H2 Ed1 Ed2) as (_ & _ & Ld).
  pose proof (arg_anti d1 d2 Nd1 Nd2 Ld) as Lx.
  pose proof (exp_mono _ _ Lx (arg_nonpos d1 Nd1)) as Le.
  set (e1 := libm_exp (-0.3 * d1)) in *. set (e2 := libm_exp (-0.3 * d2)) in *.
  exists (0.8 - 0.6 * e1)%float, (0.8 - 0.6 * e2)%float.
  split; [reflexivity|]. split; [reflexivity|].
  destruct (lambda_tail e1 Ne1 Le1) as (Nz1 & Ez1).
  destruct (lambda_tail e2 Ne2 Le2) as (Nz2 & Ez2).
  rewrite (leb_FV (-2148));
    [|lia|apply Fnonneg_not_nan, Nz1|apply Fnonneg_not_nan, Nz2].
  apply Z.leb_le. rewrite Ez1, Ez2.
  pose proof (exp_value_bounds e1 Ne1 Le1).
  pose proof (exp_value_bounds e2 Ne2 Le2).
  rewrite (leb_FV (-1074)) in Le;
    [|lia|apply Fnonneg_not_nan, Ne2|apply Fnonneg_not_nan, Ne1].
  apply Z.leb_le in Le. apply tail_val_anti; lia.
Qed.

End DoubleGrowth.

(** From depth 2487 on the argument of [exp] is at most -746. *)
Lemma arg_below_underflow (depth : Z) (d : float) :
  2487 <= depth -> Py.float_of_int depth = Ok d ->
  (-0.3 * d <=? -746)%float = true.
Proof.
  intros H E.
  assert (Hd : depth < int_overflow).
  { destruct (Z_lt_ge_dec depth int_overflow) as [L|L]; [exact L|].
    rewrite float_of_int_overflow in E by lia. discriminate. }
  assert (P0 : 2487 < int_overflow) by (vm_compute; reflexivity).
  assert (E0 : Py.float_of_int 2487 = Ok 2487%float) by reflexivity.
  destruct (float_of_int_mono 2487 depth 2487 d ltac:(lia) Hd E0 E)
    as (N0 & N & L).
  apply leb_trans with (-0.3 * 2487)%float; [|reflexivity].
  apply arg_anti; assumption.
Qed.

(** *** The sample [exp] *)

Lemma is_nan_Fis_nan (x : float) : Fis_nan x = false -> is_nan x = false.
Proof.
  intros N. unfold is_nan. rewrite eqb_spec. unfold SFeqb.
  rewrite (SFcompare_val (-1074)); auto using Prim2SF_valid; [|lia].
  now rewrite Z.compare_refl.
Qed.

Lemma exp_sample_nonpos (x : float) :
  (x <=? 0)%float = true ->
  exp_sample x = if (x <=? -746)%float then 0%float else 1%float.
Proof.
  intros H. unfold exp_sample.
  destruct (leb_not_nan _ _ H) as (N & _).
  rewrite (is_nan_Fis_nan x N).
  destruct (x <=? -746)%float; [reflexivity|].
  destruct (710 <=? x)%float eqn:E; [|reflexivity].
  pose proof (leb_trans _ _ _ E H). discriminate.
Qed.

Lemma exp_sample_range (x : float) :
  (x <=? 0)%float = true ->
  (0 <=? exp_sample x)%float = true /\ (exp_sample x <=? 1)%float = true.
Proof.
  intros H. rewrite (exp_sample_nonpos x H).
  destruct (x <=? -746)%float; split; reflexivity.
Qed.

Lemma exp_sample_mono (x y : float) :
  (x <=? y)%float = true -> (y <=? 0)%float = true ->
  (exp_sample x <=? exp_sample y)%float = true.
Proof.
  intros H Hy. pose proof (leb_trans _ _ _ H Hy) as Hx.
  rewrite (exp_sample_nonpos x Hx), (exp_sample_nonpos y Hy).
  destruct (y <=? -746)%float eqn:E.
  - rewrite (leb_trans _ _ _ H E). reflexivity.
  - destruct (x <=? -746)%float; reflexivity.
Qed.

(** *** Large depths *)

(** From [2^1024 - 2^970] on, the depth cannot be converted to a double. *)
Lemma lambda_init_fn_overflow (libm_exp : float -> float) (depth : Z) :
  int_overflow <= depth ->
  lambda_init_fn libm_exp depth = Raise OverflowError.
Proof.
  intros H. unfold lambda_init_fn. now rewrite float_of_int_overflow.
Qed.

(** With an [exp] that underflows below -746, the result is exactly 0.8
    at every convertible depth from 2487 on. *)
Lemma lambda_init_fn_saturates (libm_exp : float -> float) (depth : Z) :
  (forall x, (x <=? -746)%float = true ->
             libm_exp x = 0%float \/ libm_exp x = 0x1p-1074%float) ->
  2487 <= depth < int_overflow ->
  lambda_init_fn libm_exp depth = Ok 0.8%float.
Proof.
  intros Hu H. destruct (float_of_int_val depth ltac:(lia)) as (d & Ed & _).
  apply (lambda_init_fn_saturated libm_exp Hu depth d Ed).
  apply (arg_below_underflow depth d); [lia|exact Ed].
Qed.

(** ** The schedule's range and growth *)

(** C7 (as stated, refuted): on doubles the schedule reaches 0.8 and stops
    growing, even with an [exp] that is exact at zero, underflows, stays
    within [0, 1] on non-positive arguments and never decreases; depth
    3000 is such a depth. *)
Lemma lambda_init_fn_reaches_0_8 :
  ~ (forall libm_exp : float -> float,
       libm_exp (-0)%float = 1%float ->
       (forall x, (x <=? -746)%float = true ->
                  libm_exp x = 0%float \/ libm_exp x = 0x1p-1074%float) ->
       (forall x, (x <=? 0)%float = true ->
                  (0 <=? libm_exp x)%float = true /\
                  (libm_exp x <=? 1)%float = true) ->
       (forall x y, (x <=? y)%float = true -> (y <=? 0)%float = true ->
                    (libm_exp x <=? libm_exp y)%float = true) ->
       forall depth : Z, 0 <= depth ->
       exists v w,
         lambda_init_fn libm_exp depth = Ok v /\
         lambda_init_fn libm_exp (depth + 1) = Ok w /\
         open_interval_increasing v w = true).
Proof.
  intros H.
  destruct (H exp_sample exp_sample_neg_zero exp_sample_underflow
              exp_sample_range exp_sample_mono 3000)
    as (v & w & Hv & _ & Hc); [lia|].
  rewrite (lambda_init_fn_saturated exp_sample exp_sample_underflow
             3000 3000%float eq_refl eq_refl) in Hv.
  apply Ok_inj in Hv. subst v.
  unfold open_interval_increasing in Hc.
  change (0.8 <? 0.8)%float with false in Hc.
  rewrite andb_false_r in Hc. discriminate.
Qed.

(** C7 (amended): let [exp] return 1 at -0, underflow below -746, map
    non-positive arguments into [0, 1] and never decrease on them.  Then,
    on doubles, [lambda_init_fn] returns a value in the half-open interval
    (0.2, 0.8] at every depth from 0 up to the largest [int] that [float]
    converts, and never decreases with the depth.  At depth 0 the value,
    0x1.999999999999cp-3, is strictly inside (0.2, 0.8); from depth 2487 on
    it is exactly 0.8, so the bound is attained and the growth is not
    strict.  From [2^1024 - 2^970] on the depth cannot be converted and
    the function raises [OverflowError]. *)
Theorem lambda_init_fn_range (libm_exp : float -> float) :
  libm_exp (-0)%float = 1%float ->
  (forall x, (x <=? -746)%float = true ->
             libm_exp x = 0%float \/ libm_exp x = 0x1p-1074%float) ->
  (forall x, (x <=? 0)%float = true ->
             (0 <=? libm_exp x)%float = true /\
             (libm_exp x <=? 1)%float = true) ->
  (forall x y, (x <=? y)%float = true -> (y <=? 0)%float = true ->
               (libm_exp x <=? libm_exp y)%float = true) ->
  (forall depth : Z, 0 <= depth < int_overflow ->
     exists v, lambda_init_fn libm_exp depth = Ok v /\
               (0.2 <? v)%float = true /\ (v <=? 0.8)%float = true) /\
  (forall depth1 depth2 : Z,
     0 <= depth1 <= depth2 -> depth2 < int_overflow ->
     exists v w, lambda_init_fn libm_exp depth1 = Ok v /\
                 lambda_init_fn libm_exp depth2 = Ok w /\
                 (v <=? w)%float = true) /\
  (exists v, lambda_init_fn libm_exp 0 = Ok v /\
             v = 0x1.999999999999cp-3%float /\
             (0.2 <? v)%float = true /\ (v <? 0.8)%float = true) /\
  (forall depth : Z, 2487 <= depth < int_overflow ->
     lambda_init_fn libm_exp depth = Ok 0.8%float) /\
  (forall depth : Z, int_overflow <= depth ->
     lambda_init_fn libm_exp depth = Raise OverflowError).
Proof.
  intros H0 Hu Hr Hm. split; [|split; [|split; [|split]]].
  - intros depth Hd.
    destruct (lambda_init_fn_double_range libm_exp Hr depth Hd)
      as (v & Ev & _ & Hle & Hlt).
    exists v. auto.
  - intros depth1 depth2 H1 H2.
    exact (lambda_init_fn_double_monotone libm_exp Hr Hm depth1 depth2 H1 H2).
  - exists 0x1.999999999999cp-3%float. repeat split.
    now apply lambda_init_fn_0_value.
  - intros depth Hd. now apply lambda_init_fn_saturates.
  - intros depth Hd. now apply lambda_init_fn_overflow.
Qed.

(** [lambda_init_fn_range] with the sample [exp], at depths 5 and 3000. *)
Lemma lambda_init_fn_range_witness :
  (exists v, lambda_init_fn exp_sample 5 = Ok v /\
             (0.2 <? v)%float = true /\ (v <=? 0.8)%float = true) /\
  lambda_init_fn exp_sample 3000 = Ok 0.8%float.
Proof.
  pose proof (lambda_init_fn_range exp_sample exp_sample_neg_zero
                exp_sample_underflow exp_sample_range exp_sample_mono)
    as (H1 & _ & _ & H4 & _).
  split.
  - apply H1. split; [lia|vm_compute; reflexivity].
  - apply H4. split; [lia|vm_compute; reflexivity].
Defined.

End DoubleFacts.

(** ** Tensor indexing *)

Section TensorFacts.
Context {T : Type}.
Implicit Types (d : list T) (sh : list Z).

Open Scope Z_scope.

Lemma numel_nonneg sh : nonneg sh -> 0 <= numel sh.
Proof.
  induction 1 as [|n sh Hn _ IH]; cbn; [lia|].
  apply Z.mul_nonneg_nonneg; assumption.
Qed.

Lemma numel_cons n sh : numel (n :: sh) = n * numel sh.
Proof. reflexivity. Qed.

Lemma chunk_chunk (n k q r : nat) d :
  (r < k)%nat -> chunk n (chunk (k * n) d q) r = chunk n d (q * k + r).
Proof.
  intros Hr. unfold chunk.
  rewrite skipn_firstn_comm, firstn_firstn, skipn_skipn.
  replace (Nat.min n (k * n - r * n)) with n by nia.
  f_equal. f_equal. nia.
Qed.

Lemma chunk_firstn (n c i : nat) d :
  (i < c)%nat -> chunk n (firstn (c * n) d) i = chunk n d i.
Proof.
  intros Hi. unfold chunk.
  rewrite skipn_firstn_comm, firstn_firstn.
  replace (Nat.min n (c * n - i * n)) with n by nia. reflexivity.
Qed.

Lemma length_chunk (n c i : nat) d :
  length d = (c * n)%nat -> (i < c)%nat -> length (chunk n d i) = n.
Proof.
  intros Hd Hi. unfold chunk. rewrite length_firstn, length_skipn. nia.
Qed.

Lemma chunk_concat (n i : nat) (ll : list (list T)) :
  Forall (fun l => length l = n) ll -> (i < length ll)%nat ->
  chunk n (concat ll) i = nth i ll [].
Proof.
  intros Hll. revert i. induction Hll as [|l ll Hl _ IH]; intros i Hi.
  - cbn in Hi. lia.
  - destruct i as [|i]; cbn [concat nth]; unfold chunk.
    + cbn [Nat.mul skipn]. rewrite firstn_app, Hl, Nat.sub_diag, firstn_0.
      rewrite app_nil_r. apply firstn_all2. lia.
    + rewrite skipn_app, Hl.
      rewrite skipn_all2 by (rewrite Hl; cbn; lia).
      cbn [app]. replace (S i * n - n)%nat with (i * n)%nat by (cbn; lia).
      apply IH. cbn in Hi. lia.
Qed.

Lemma nth_chunks (n c i : nat) d :
  (i < c)%nat -> nth i (chunks n c d) [] = chunk n d i.
Proof.
  intros Hi. unfold chunks.
  rewrite (nth_indep _ [] (chunk n d 0))
    by (rewrite length_map, length_seq; assumption).
  rewrite map_nth, seq_nth by assumption. reflexivity.
Qed.

Lemma index_cons n sh d i idx :
  0 <= i < n ->
  index (n :: sh) d (i :: idx) =
  index sh (chunk (Z.to_nat (numel sh)) d (Z.to_nat i)) idx.
Proof.
  intros Hi. cbn [index].
  replace (0 <=? i) with true by (symmetry; apply Z.leb_le; lia).
  replace (i <? n) with true by (symmetry; apply Z.ltb_lt; lia).
  reflexivity.
Qed.

Lemma index_firstn sh : nonneg sh -> forall d idx,
  index sh (firstn (Z.to_nat (numel sh)) d) idx = index sh d idx.
Proof.
  induction 1 as [|n sh Hn Hsh IH]; intros d idx.
  - destruct idx; [|reflexivity]. destruct d; reflexivity.
  - destruct idx as [|i idx]; [reflexivity|]. cbn [index].
    destruct ((0 <=? i) && (i <? n)) eqn:R; [|reflexivity].
    apply andb_true_iff in R. destruct R as [R1 R2].
    apply Z.leb_le in R1. apply Z.ltb_lt in R2.
    rewrite numel_cons, Z2Nat.inj_mul by (auto using numel_nonneg).
    rewrite chunk_firstn by lia. reflexivity.
Qed.

Lemma index_unsqueeze sh d idx :
  nonneg sh -> index (1 :: sh) d (0 :: idx) = index sh d idx.
Proof.
  intros Hsh. rewrite index_cons by lia.
  unfold chunk. cbn [Z.to_nat Nat.mul skipn]. apply index_firstn, Hsh.
Qed.

Lemma index_merge g k sh d h idx :
  0 < k -> nonneg sh -> 0 <= h < g * k ->
  index (g * k :: sh) d (h :: idx) =
  index (g :: k :: sh) d (h / k :: h mod k :: idx).
Proof.
  intros Hk Hsh Hh.
  assert (Hq : 0 <= h / k < g).
  { split; [apply Z.div_pos; lia|]. apply Z.div_lt_upper_bound; lia. }
  pose proof (Z.mod_pos_bound h k Hk) as Hr.
  pose proof (numel_nonneg sh Hsh) as Hm.
  rewrite index_cons by assumption.
  rewrite index_cons by assumption.
  rewrite index_cons by assumption.
  rewrite numel_cons, Z2Nat.inj_mul by lia.
  rewrite chunk_chunk by lia.
  do 2 f_equal.
  rewrite <- Z2Nat.inj_mul, <- Z2Nat.inj_add by nia.
  f_equal. pose proof (Z.div_mod h k). lia.
Qed.

Lemma expand_sizes_ok old new :
  Forall2 expandable old new -> expand_sizes old new = Ok new.
Proof.
  induction 1 as [|o n old new [Hn Ho] _ IH]; [reflexivity|].
  cbn [expand_sizes]. rewrite IH. cbn [bind].
  replace (n =? -1) with false by (symmetry; apply Z.eqb_neq; lia).
  replace (n <? 0) with false by (symmetry; apply Z.ltb_ge; lia).
  replace ((o =? n) || (o =? 1)) with true; [reflexivity|].
  symmetry. apply orb_true_iff. destruct Ho; [left|right]; apply Z.eqb_eq; assumption.
Qed.

Lemma expandable_numel_nonneg old new :
  Forall2 expandable old new -> nonneg new.
Proof.
  induction 1 as [|o n old new [Hn _] _ IH]; constructor; assumption.
Qed.

Lemma expandable_old_nonneg old new :
  Forall2 expandable old new -> nonneg old.
Proof.
  induction 1 as [|o n old new [Hn Ho] _ IH]; constructor; [lia|assumption].
Qed.

Lemma list_sum_repeat (m c : nat) : list_sum (repeat m c) = (c * m)%nat.
Proof.
  induction c as [|c IH]; [reflexivity|].
  change (list_sum (repeat m (S c))) with (m + list_sum (repeat m c))%nat.
  rewrite IH. lia.
Qed.

Lemma length_expand_data old new :
  Forall2 expandable old new -> forall d,
  length d = Z.to_nat (numel old) ->
  length (expand_data old new d) = Z.to_nat (numel new).
Proof.
  induction 1 as [|o n old new [Hn Ho] Hrest IH]; intros d Hd; [assumption|].
  pose proof (numel_nonneg _ (expandable_old_nonneg _ _ Hrest)) as Hmo.
  pose proof (numel_nonneg _ (expandable_numel_nonneg _ _ Hrest)) as Hmn.
  cbn [expand_data]. rewrite !numel_cons in *.
  rewrite Z2Nat.inj_mul in * by lia.
  destruct (o =? n) eqn:E.
  - apply Z.eqb_eq in E. subst o.
    rewrite length_concat, map_map.
    rewrite (map_ext_in _ (fun _ => Z.to_nat (numel new))).
    + rewrite map_const. unfold chunks. rewrite length_map, length_seq.
      apply list_sum_repeat.
    + intros c Hc. apply IH. unfold chunks in Hc.
      apply in_map_iff in Hc. destruct Hc as (i & <- & Hi).
      apply in_seq in Hi. apply (length_chunk _ (Z.to_nat n)); [assumption|lia].
  - assert (o = 1) by (apply Z.eqb_neq in E; lia). subst o.
    rewrite length_concat, map_repeat.
    rewrite IH by (rewrite Hd; cbn; lia).
    apply list_sum_repeat.
Qed.

Lemma index_expand_data old new :
  Forall2 expandable old new -> forall d idx,
  length d = Z.to_nat (numel old) ->
  Forall2 (fun n i => 0 <= i < n) new idx ->
  index new (expand_data old new d) idx =
  index old d (broadcast_index old new idx).
Proof.
  induction 1 as [|o n old new [Hn Ho] Hrest IH]; intros d idx Hd Hidx.
  - inversion Hidx; subst. reflexivity.
  - inversion Hidx as [|n' i new' idx' Hi Hidx']; subst.
    pose proof (numel_nonneg _ (expandable_old_nonneg _ _ Hrest)) as Hmo.
    pose proof (numel_nonneg _ (expandable_numel_nonneg _ _ Hrest)) as Hmn.
    rewrite numel_cons, Z2Nat.inj_mul in Hd by lia.
    rewrite index_cons by assumption.
    cbn [expand_data broadcast_index].
    destruct (o =? n) eqn:E.
    + apply Z.eqb_eq in E. subst o.
      rewrite index_cons by assumption.
      rewrite chunk_concat.
      * rewrite (nth_indep _ [] (expand_data old new []))
          by (unfold chunks; rewrite !length_map, length_seq; lia).
        rewrite map_nth, nth_chunks by lia.
        apply IH; [|assumption].
        apply (length_chunk _ (Z.to_nat n)); [assumption|lia].
      * apply Forall_forall. intros c Hc.
        apply in_map_iff in Hc. destruct Hc as (c' & <- & Hc').
        apply length_expand_data; [assumption|].
        unfold chunks in Hc'. apply in_map_iff in Hc'.
        destruct Hc' as (j & <- & Hj). apply in_seq in Hj.
        apply (length_chunk _ (Z.to_nat n)); [assumption|lia].
      * unfold chunks. rewrite !length_map, length_seq. lia.
    + assert (o = 1) by (apply Z.eqb_neq in E; lia). subst o.
      rewrite index_unsqueeze by (eapply expandable_old_nonneg; eassumption).
      rewrite chunk_concat.
      * rewrite nth_repeat_lt by lia.
        apply IH; [|assumption]. rewrite Hd. cbn. lia.
      * apply Forall_forall. intros c Hc. apply repeat_spec in Hc. subst c.
        apply length_expand_data; [assumption|]. rewrite Hd. cbn. lia.
      * rewrite repeat_length. lia.
Qed.

Lemma infer_sizes_plain (n : Z) sizes :
  nonneg sizes -> numel sizes = n -> infer_sizes n sizes = Ok sizes.
Proof.
  intros Hs Hn. unfold infer_sizes.
  replace (existsb (fun s => s <? -1) sizes) with false.
  - replace (count_occ Z.eq_dec sizes (-1)) with O.
    + rewrite Hn, Z.eqb_refl. reflexivity.
    + symmetry. apply count_occ_not_In. intros Hin.
      unfold nonneg in Hs. rewrite Forall_forall in Hs.
      specialize (Hs _ Hin). lia.
  - symmetry. apply not_true_is_false. intros E.
    apply existsb_exists in E. destruct E as (s & Hin & E).
    unfold nonneg in Hs. rewrite Forall_forall in Hs.
    specialize (Hs _ Hin). apply Z.ltb_lt in E. lia.
Qed.

Lemma index_defined sh : nonneg sh -> forall d idx,
  length d = Z.to_nat (numel sh) ->
  Forall2 (fun n i => 0 <= i < n) sh idx ->
  exists v, index sh d idx = Some v.
Proof.
  induction 1 as [|n sh Hn Hsh IH]; intros d idx Hd Hidx.
  - inversion Hidx; subst. destruct d as [|v d]; [discriminate|].
    exists v. reflexivity.
  - inversion Hidx as [|n' i sh' idx' Hi Hidx']; subst.
    pose proof (numel_nonneg _ Hsh) as Hm.
    rewrite index_cons by assumption. apply IH; [|assumption].
    rewrite numel_cons, Z2Nat.inj_mul in Hd by lia.
    apply (length_chunk _ (Z.to_nat n)); [assumption|lia].
Qed.

(** C4: on a tensor of shape (batch, kv_heads, seq, dim), [repeat_kv] with
    [n_rep = 1] returns its argument itself, and with [n_rep = k >= 1] it
    returns a tensor of shape (batch, kv_heads * k, seq, dim) whose element
    at head [h] is the input's element at head [h // k], the very same
    value. *)
Theorem repeat_kv_spec (x : tensor T) (b g s d k : Z) :
  wf x -> shape x = [b; g; s; d] -> 1 <= k ->
  repeat_kv x 1 = Ok x /\
  exists y,
    repeat_kv x k = Ok y /\
    shape y = [b; g * k; s; d] /\
    forall bi h si di,
      0 <= bi < b -> 0 <= h < g * k -> 0 <= si < s -> 0 <= di < d ->
      exists v,
        get x [bi; h / k; si; di] = Some v /\
        get y [bi; h; si; di] = Some v.
Proof.
  intros [Hnn Hlen] Hsh Hk.
  enough (E : repeat_kv x 1 = Ok x /\
    exists y,
      repeat_kv x k = Ok y /\
      shape y = [b; g * k; s; d] /\
      forall bi h si di,
        0 <= bi < b -> 0 <= h < g * k -> 0 <= si < s -> 0 <= di < d ->
        get y [bi; h; si; di] = get x [bi; h / k; si; di]).
  { destruct E as [E1 (y & Ey & Es & Eg)]. split; [exact E1|].
    exists y. split; [exact Ey|]. split; [exact Es|].
    intros bi h si di Hbi Hh Hsi Hdi.
    destruct (index_defined (shape x) Hnn (data x) [bi; h / k; si; di])
      as [v Hv].
    - lia.
    - rewrite Hsh. repeat constructor; try lia.
      + apply Z.div_pos; lia.
      + apply Z.div_lt_upper_bound; lia.
    - exists v. split; [exact Hv|]. rewrite Eg by assumption. exact Hv. }
  destruct x as [sh dat]. cbn [shape data] in *. subst sh.
  assert (Hb : 0 <= b /\ 0 <= g /\ 0 <= s /\ 0 <= d).
  { unfold nonneg in Hnn. repeat (apply Forall_cons_iff in Hnn;
      let H := fresh in destruct Hnn as [H Hnn]). lia. }
  destruct Hb as (Hb & Hg & Hs & Hd).
  split; [reflexivity|].
  unfold repeat_kv, size4. cbn [shape bind].
  destruct (k =? 1) eqn:K1.
  { apply Z.eqb_eq in K1. subst k. eexists. split; [reflexivity|].
    cbn [shape]. rewrite Z.mul_1_r. split; [reflexivity|].
    intros. rewrite Z.div_1_r. reflexivity. }
  apply Z.eqb_neq in K1.
  assert (Hex : Forall2 expandable [b; g; 1; s; d] [b; g; k; s; d]).
  { repeat constructor; unfold expandable; lia. }
  unfold unsqueeze, expand. cbn [shape data length Nat.leb bind firstn skipn app].
  cbn [Nat.sub Nat.ltb Nat.leb existsb repeat app].
  rewrite (expand_sizes_ok _ _ Hex). cbn [bind].
  assert (Hlen' : length dat = Z.to_nat (numel [b; g; 1; s; d])).
  { cbn [numel fold_right] in *. rewrite Z.mul_1_l. lia. }
  pose proof (length_expand_data _ _ Hex dat Hlen') as HL.
  unfold reshape. cbn [firstn existsb bind data].
  rewrite infer_sizes_plain.
  - cbn [bind]. eexists. split; [reflexivity|]. split; [reflexivity|].
    intros bi h si di Hbi Hh Hsi Hdi. unfold get. cbn [shape data].
    rewrite (index_cons b) by assumption.
    rewrite index_merge by (try lia; repeat constructor; lia).
    replace (numel [g * k; s; d]) with (numel [g; k; s; d])
      by (cbn [numel fold_right]; ring).
    rewrite <- (index_cons b) by assumption.
    assert (Hq : 0 <= h / k < g).
    { split; [apply Z.div_pos; lia|]. apply Z.div_lt_upper_bound; lia. }
    assert (Hr : 0 <= h mod k < k) by (apply Z.mod_pos_bound; lia).
    rewrite (index_expand_data _ _ Hex)
      by (try assumption; repeat constructor; lia).
    cbn [broadcast_index]. rewrite !Z.eqb_refl.
    replace (1 =? k) with false by (symmetry; apply Z.eqb_neq; lia).
    rewrite !(index_cons b) by assumption.
    replace (numel [g; 1; s; d]) with (numel [g; s; d])
      by (cbn [numel fold_right]; ring).
    rewrite !(index_cons g) by assumption.
    replace (numel [1; s; d]) with (numel [s; d])
      by (cbn [numel fold_right]; ring).
    apply index_unsqueeze. repeat constructor; lia.
  - repeat constructor; nia.
  - rewrite HL. cbn [numel fold_right].
    rewrite Z2Nat.id by (repeat apply Z.mul_nonneg_nonneg; lia). ring.
Qed.

End TensorFacts.

(** [repeat_kv_spec] at a tensor of shape (1, 2, 2, 3) and [n_rep = 2]. *)
Lemma repeat_kv_spec_witness :
  wf Sample.kv_sample /\
  exists y,
    repeat_kv Sample.kv_sample 2 = Ok y /\
    shape y = [1; 4; 2; 3]%Z /\
    get y [0; 3; 1; 2]%Z = Some 12%Z.
Proof.
  assert (W : wf Sample.kv_sample).
  { split; [repeat constructor; lia | reflexivity]. }
  split; [exact W|].
  destruct (repeat_kv_spec Sample.kv_sample 1 2 2 3 2 W eq_refl)
    as [_ (y & Hy & Hs & Hg)]; [lia|].
  exists y. split; [exact Hy|]. split; [exact Hs|].
  destruct (Hg 0 3 1 2)%Z as (v & Hx & Hv); try lia.
  rewrite Hv, <- Hx. reflexivity.
Defined.


(** ** Sequencing *)

Lemma bind_Ok {A C : Type} (c : result A) (k : A -> result C) (r : C) :
  bind c k = Ok r -> exists a, c = Ok a /\ k a = Ok r.
Proof.
  destruct c as [a|e]; cbn [bind]; intros H; [|discriminate].
  exists a. split; [reflexivity|exact H].
Qed.

(** Peels the first step off a computation known to return. *)
Tactic Notation "step" hyp(H) "as" ident(a) ident(E) :=
  apply bind_Ok in H; destruct H as (a & E & H).

Lemma floordiv_Ok (a b q : Z) :
  Py.floordiv a b = Ok q -> b <> 0%Z /\ q = (a / b)%Z.
Proof.
  unfold Py.floordiv. destruct (b =? 0)%Z eqn:E; [discriminate|].
  intros H. apply Ok_inj in H. apply Z.eqb_neq in E. auto.
Qed.

Lemma floordiv_nonzero (a b : Z) :
  b <> 0%Z -> Py.floordiv a b = Ok (a / b)%Z.
Proof.
  intros H. unfold Py.floordiv.
  apply Z.eqb_neq in H. rewrite H. reflexivity.
Qed.

Lemma zeros_Ok {T : Type} (z : T) (n : Z) (t : tensor T) :
  zeros z n = Ok t ->
  (0 <= n)%Z /\ t = mkTensor [n] (repeat z (Z.to_nat n)).
Proof.
  unfold zeros. destruct (n <? 0)%Z eqn:E; [discriminate|].
  intros H. apply Ok_inj in H. apply Z.ltb_ge in E. auto.
Qed.

Lemma pow_neg_half_Ok (pw : float -> float -> float) (b : Z) (r : Py.number) :
  Py.pow_neg_half pw b = Ok r -> b <> 0%Z.
Proof.
  unfold Py.pow_neg_half. intros H. step H as x Ex.
  destruct (b =? 0)%Z eqn:E; [discriminate|]. now apply Z.eqb_neq.
Qed.

(** ** The constructor *)

Section InitFacts.

Import MultiheadFlashDiff1.

Context {B : Backend}.

Open Scope Z_scope.

(** What a returned instance records. *)
Lemma init_Ok (a : Args) (e depth nh : Z) (self : Layer B) :
  __init__ a e depth nh = Ok self ->
  (model_parallel_size a <> 0 /\ nh <> 0 /\
   num_kv_heads self <> 0 /\ n_rep self <> 0 /\ 0 < head_dim self) /\
  (args self = a /\ embed_dim self = e /\
   num_heads self = nh / model_parallel_size a /\
   num_kv_heads self = kv_heads_of a nh /\
   n_rep self = num_heads self / num_kv_heads self /\
   head_dim self = e / nh / 2) /\
  (ColumnParallelLinear e e = Ok (q_proj self) /\
   ColumnParallelLinear e (e / n_rep self) = Ok (k_proj self) /\
   ColumnParallelLinear e (e / n_rep self) = Ok (v_proj self) /\
   RowParallelLinear e e = Ok (out_proj self)) /\
  lambda_init_fn libm_exp depth = Ok (lambda_init self) /\
  RMSNorm (2 * head_dim self) 1e-5%float false = Ok (subln self).
Proof.
  unfold __init__. intros H.
  step H as snh E1. apply floordiv_Ok in E1 as [Hp ->].
  step H as skv E2.
  assert (Hkv : skv = kv_heads_of a nh).
  { unfold kv_heads_of. destruct (decoder_kv_attention_heads a);
      apply floordiv_Ok in E2 as [_ ->]; reflexivity. }
  clear E2. subst skv.
  step H as rep E3. apply floordiv_Ok in E3 as [Hk ->].
  step H as per E4. apply floordiv_Ok in E4 as [Hn ->].
  step H as hd E5. apply floordiv_Ok in E5 as [_ ->].
  step H as sc E6. apply pow_neg_half_Ok in E6 as Hh.
  step H as qp Eq.
  step H as kw E7. apply floordiv_Ok in E7 as [Hr ->].
  step H as kp Ek.
  step H as vw E8. apply floordiv_Ok in E8 as [_ ->].
  step H as vp Ev.
  step H as op Eo.
  step H as lam El.
  step H as l1 E9. unfold new_lambda in E9.
  step E9 as z Ez. apply zeros_Ok in Ez as [Hz _].
  step H as l2 E10. step H as l3 E11. step H as l4 E12.
  step H as sn En.
  apply Ok_inj in H. subst self. cbn.
  repeat split; try assumption; try reflexivity. lia.
Qed.

Lemma is_ok_Ok {A : Type} (r : result A) :
  is_ok r = true -> exists a, r = Ok a.
Proof. destruct r as [a|]; [eauto|discriminate]. Qed.

Lemma kv_heads_step (a : Args) (nh : Z) :
  model_parallel_size a <> 0 ->
  match decoder_kv_attention_heads a with
  | Some kv => Py.floordiv kv (model_parallel_size a)
  | None => Py.floordiv nh (model_parallel_size a)
  end = Ok (kv_heads_of a nh).
Proof.
  intros Hp. unfold kv_heads_of.
  destruct (decoder_kv_attention_heads a);
    rewrite floordiv_nonzero by assumption; reflexivity.
Qed.

Lemma init_returns (a : Args) (e depth nh : Z) (lam hdf : float) :
  (forall i o, 0 <= i -> 0 <= o -> is_ok (ColumnParallelLinear i o) = true) ->
  (forall i o, 0 <= i -> 0 <= o -> is_ok (RowParallelLinear i o) = true) ->
  (forall w, 0 <= w -> is_ok (RMSNorm w 1e-5%float false) = true) ->
  model_parallel_size a = 1 ->
  0 < nh ->
  match decoder_kv_attention_heads a with
  | Some kv => 0 < kv <= nh
  | None => True
  end ->
  2 * nh <= e ->
  lambda_init_fn libm_exp depth = Ok lam ->
  Py.float_of_int (e / nh / 2) = Ok hdf ->
  exists self, __init__ a e depth nh = Ok self.
Proof.
  intros Hcol Hrow Hnorm Hp Hnh Hkv He Hlam Hf.
  assert (Hkv' : 0 < kv_heads_of a nh <= nh).
  { unfold kv_heads_of. rewrite Hp. revert Hkv.
    destruct (decoder_kv_attention_heads a); rewrite Z.div_1_r; lia. }
  assert (Hrep : 1 <= nh / kv_heads_of a nh).
  { apply Z.div_le_lower_bound; lia. }
  assert (Hhd : 1 <= e / nh / 2).
  { apply Z.div_le_lower_bound; [lia|].
    apply Z.div_le_lower_bound; lia. }
  assert (He0 : 0 <= e) by lia.
  assert (Hkw : 0 <= e / (nh / kv_heads_of a nh)).
  { apply Z.div_pos; lia. }
  unfold __init__.
  rewrite (kv_heads_step a nh) by lia.
  rewrite Hp, floordiv_nonzero by lia. cbn [bind]. rewrite Z.div_1_r.
  rewrite (floordiv_nonzero nh) by lia. cbn [bind].
  rewrite (floordiv_nonzero e nh) by lia. cbn [bind].
  rewrite (floordiv_nonzero (e / nh)) by lia. cbn [bind].
  unfold Py.pow_neg_half. rewrite Hf. cbn [bind].
  replace (e / nh / 2 =? 0) with false by (symmetry; apply Z.eqb_neq; lia).
  replace (e / nh / 2 <? 0) with false by (symmetry; apply Z.ltb_ge; lia).
  destruct (is_ok_Ok _ (Hcol e e He0 He0)) as [qp ->].
  destruct (is_ok_Ok _ (Hcol e _ He0 Hkw)) as [kp Ekp].
  destruct (is_ok_Ok _ (Hrow e e He0 He0)) as [op ->].
  destruct (is_ok_Ok _ (Hnorm (2 * (e / nh / 2)) ltac:(lia))) as [sn ->].
  rewrite (floordiv_nonzero e (nh / kv_heads_of a nh)) by lia.
  rewrite Hlam. unfold new_lambda, zeros.
  replace (e / nh / 2 <? 0) with false by (symmetry; apply Z.ltb_ge; lia).
  destruct (e / nh / 2 =? 1); cbn [bind]; rewrite Ekp; cbn [bind];
    eexists; reflexivity.
Qed.

Lemma init_raises_on_zero_head_dim (a : Args) (e depth nh : Z) :
  model_parallel_size a <> 0 -> kv_heads_of a nh <> 0 -> nh <> 0 ->
  e / nh / 2 = 0 ->
  __init__ a e depth nh = Raise ZeroDivisionError.
Proof.
  intros Hp Hkv Hnh Hhd. unfold __init__.
  rewrite (kv_heads_step a nh) by assumption.
  rewrite (floordiv_nonzero nh) by assumption. cbn [bind].
  rewrite (floordiv_nonzero _ (kv_heads_of a nh)) by assumption. cbn [bind].
  rewrite (floordiv_nonzero e nh) by assumption. cbn [bind].
  rewrite (floordiv_nonzero (e / nh)) by lia. cbn [bind].
  rewrite Hhd. reflexivity.
Qed.

End InitFacts.

(** The sample environment's constructors take any sizes that are not
    negative. *)
Lemma sample_linear_ok (i o : Z) :
  (0 <= i)%Z -> (0 <= o)%Z -> is_ok (Sample.make_linear i o) = true.
Proof.
  intros Hi Ho. unfold Sample.make_linear.
  replace (i <? 0)%Z with false by (symmetry; apply Z.ltb_ge; lia).
  replace (o <? 0)%Z with false by (symmetry; apply Z.ltb_ge; lia).
  reflexivity.
Qed.

Lemma sample_norm_ok (w : Z) (eps : float) (affine : bool) :
  (0 <= w)%Z -> is_ok (Sample.make_norm w eps affine) = true.
Proof.
  intros Hw. unfold Sample.make_norm.
  replace (w <? 0)%Z with false by (symmetry; apply Z.ltb_ge; lia).
  reflexivity.
Qed.

(** C1 (as stated, refuted): three configurations, each breaking one of the
    divisibility requirements, for which the constructor returns an
    instance: 8 does not divide 100; 24 // 8 = 3 is odd; 3 does not divide
    8. *)
Lemma init_accepts_indivisible :
  ((100 mod 8 <> 0)%Z /\
   is_ok (MultiheadFlashDiff1.__init__ (B := Sample.backend)
            Sample.one_device 100 0 8) = true) /\
  (Z.odd (24 / 8) = true /\
   is_ok (MultiheadFlashDiff1.__init__ (B := Sample.backend)
            Sample.one_device 24 0 8) = true) /\
  ((8 mod 3 <> 0)%Z /\
   is_ok (MultiheadFlashDiff1.__init__ (B := Sample.backend)
            Sample.one_device_kv3 64 0 8) = true).
Proof.
  repeat split; try discriminate; vm_compute; reflexivity.
Qed.

(** C1 (amended): the constructor checks no divisibility.  On one device,
    with constructors of the environment that take any non-negative
    sizes, [num_heads >= 1] and [1 <= num_kv_heads <= num_heads], it
    returns an instance whenever [embed_dim >= 2 * num_heads], with
    [head_dim = embed_dim // num_heads // 2] and
    [n_rep = num_heads // num_kv_heads] as floor divisions, exact or not;
    and it raises [ZeroDivisionError] when [0 <= embed_dim < 2 * num_heads],
    where [head_dim] is 0. *)
Theorem init_checks_no_divisibility {B : Backend}
    (a : MultiheadFlashDiff1.Args) (e depth nh : Z) (lam hdf : float) :
  (forall i o, (0 <= i)%Z -> (0 <= o)%Z ->
               is_ok (ColumnParallelLinear i o) = true) ->
  (forall i o, (0 <= i)%Z -> (0 <= o)%Z ->
               is_ok (RowParallelLinear i o) = true) ->
  (forall w, (0 <= w)%Z -> is_ok (RMSNorm w 1e-5%float false) = true) ->
  MultiheadFlashDiff1.model_parallel_size a = 1%Z ->
  (0 < nh)%Z ->
  match MultiheadFlashDiff1.decoder_kv_attention_heads a with
  | Some kv => (0 < kv <= nh)%Z
  | None => True
  end ->
  lambda_init_fn libm_exp depth = Ok lam ->
  Py.float_of_int (e / nh / 2) = Ok hdf ->
  ((2 * nh <= e)%Z ->
   exists self,
     MultiheadFlashDiff1.__init__ a e depth nh = Ok self /\
     MultiheadFlashDiff1.head_dim self = (e / nh / 2)%Z /\
     MultiheadFlashDiff1.num_heads self = nh /\
     MultiheadFlashDiff1.num_kv_heads self =
       match MultiheadFlashDiff1.decoder_kv_attention_heads a with
       | Some kv => kv
       | None => nh
       end /\
     MultiheadFlashDiff1.n_rep self =
       (nh / MultiheadFlashDiff1.num_kv_heads self)%Z) /\
  ((0 <= e < 2 * nh)%Z ->
   MultiheadFlashDiff1.__init__ a e depth nh = Raise ZeroDivisionError).
Proof.
  intros Hcol Hrow Hnorm Hp Hnh Hkv Hlam Hf. split.
  - intros He.
    destruct (init_returns a e depth nh lam hdf) as [self Hself];
      try assumption.
    exists self. split; [exact Hself|].
    destruct (init_Ok _ _ _ _ _ Hself)
      as (_ & (_ & _ & Enh & Ekv & Erep & Ehd) & _).
    rewrite Hp, Z.div_1_r in Enh.
    unfold MultiheadFlashDiff1.kv_heads_of in Ekv. rewrite Hp in Ekv.
    repeat split; try assumption.
    + rewrite Ekv.
      destruct (MultiheadFlashDiff1.decoder_kv_attention_heads a);
        apply Z.div_1_r.
    + rewrite Erep, Enh. reflexivity.
  - intros He. apply init_raises_on_zero_head_dim.
    + lia.
    + unfold MultiheadFlashDiff1.kv_heads_of. rewrite Hp. revert Hkv.
      destruct (MultiheadFlashDiff1.decoder_kv_attention_heads a);
        rewrite Z.div_1_r; lia.
    + lia.
    + apply Z.div_small. split.
      * apply Z.div_pos; lia.
      * apply Z.div_lt_upper_bound; lia.
Qed.

(** [init_checks_no_divisibility] at [embed_dim = 100], [num_heads = 8]. *)
Lemma init_checks_no_divisibility_witness :
  exists self,
    MultiheadFlashDiff1.__init__ (B := Sample.backend)
      Sample.one_device 100 0 8 = Ok self /\
    MultiheadFlashDiff1.head_dim self = 6%Z.
Proof.
  destruct (init_checks_no_divisibility (B := Sample.backend)
              Sample.one_device 100 0 8
              0x1.999999999999cp-3%float 6%float)
    as [H _].
  - exact sample_linear_ok.
  - exact sample_linear_ok.
  - intros w. apply sample_norm_ok.
  - reflexivity.
  - reflexivity.
  - exact I.
  - reflexivity.
  - reflexivity.
  - destruct H as (self & Hs & Hd & _); [discriminate|].
    exists self. split; [exact Hs|exact Hd].
Defined.

(** ** Reshaping, selecting and broadcasting well-formed tensors *)

Section ShapeFacts.

Context {T : Type}.
Implicit Types (d : list T) (sh : list Z).

Open Scope Z_scope.

Lemma wf_length (x : tensor T) :
  wf x -> length (data x) = Z.to_nat (numel (shape x)).
Proof. intros [_ H]. lia. Qed.

Lemma wf_intro sh d :
  nonneg sh -> length d = Z.to_nat (numel sh) -> wf (mkTensor sh d).
Proof.
  intros Hsh Hd. split; [exact Hsh|]. cbn [shape data].
  pose proof (numel_nonneg sh Hsh). lia.
Qed.

Lemma reshape_plain (x : tensor T) sizes :
  wf x -> nonneg sizes -> numel sizes = numel (shape x) ->
  reshape x sizes = Ok (mkTensor sizes (data x)) /\
  wf (mkTensor sizes (data x)).
Proof.
  intros [Hnn Hlen] Hs Hn. unfold reshape.
  rewrite infer_sizes_plain by (try assumption; lia).
  split; [reflexivity|]. split; [exact Hs|]. cbn [shape data]. lia.
Qed.

Lemma chunk_succ (m i : nat) d :
  chunk m d (S i) = chunk m (skipn m d) i.
Proof.
  unfold chunk. rewrite skipn_skipn. do 2 f_equal. lia.
Qed.

Lemma concat_chunks (m c : nat) : forall d,
  length d = (c * m)%nat -> concat (chunks m c d) = d.
Proof.
  induction c as [|c IH]; intros d Hd.
  - destruct d; [reflexivity|discriminate].
  - unfold chunks. cbn [seq map concat].
    rewrite <- seq_shift, map_map.
    rewrite (map_ext _ (chunk m (skipn m d))) by (intros; apply chunk_succ).
    fold (chunks m c (skipn m d)). rewrite IH.
    + unfold chunk. cbn [Nat.mul skipn]. apply firstn_skipn.
    + rewrite length_skipn. lia.
Qed.

Lemma length_concat_uniform (m : nat) (ll : list (list T)) :
  Forall (fun l => length l = m) ll ->
  length (concat ll) = (length ll * m)%nat.
Proof.
  induction 1 as [|l ll Hl _ IH]; [reflexivity|].
  cbn [concat length]. rewrite length_app, IH, Hl. lia.
Qed.

Lemma chunks_uniform (m c : nat) d :
  length d = (c * m)%nat -> Forall (fun l => length l = m) (chunks m c d).
Proof.
  intros Hd. apply Forall_forall. intros l Hl.
  unfold chunks in Hl. apply in_map_iff in Hl. destruct Hl as (i & <- & Hi).
  apply in_seq in Hi. apply (length_chunk _ c); [assumption|lia].
Qed.

Lemma length_chunks (m c : nat) d : length (chunks m c d) = c.
Proof. unfold chunks. now rewrite length_map, length_seq. Qed.

Lemma expand_data_same sh : nonneg sh -> forall d,
  length d = Z.to_nat (numel sh) -> expand_data sh sh d = d.
Proof.
  induction 1 as [|n sh Hn Hsh IH]; intros d Hd; [reflexivity|].
  pose proof (numel_nonneg sh Hsh) as Hm.
  rewrite numel_cons, Z2Nat.inj_mul in Hd by lia.
  cbn [expand_data]. rewrite Z.eqb_refl.
  rewrite (map_ext_in _ (fun c => c)), map_id.
  - now apply concat_chunks.
  - intros c Hc. apply IH.
    pose proof (chunks_uniform _ _ _ Hd) as U.
    rewrite Forall_forall in U. now apply U.
Qed.

Lemma expandable_refl sh : nonneg sh -> Forall2 expandable sh sh.
Proof.
  induction 1; constructor; [split; [assumption|now left]|assumption].
Qed.

Lemma expand_same (x : tensor T) : wf x -> expand x (shape x) = Ok x.
Proof.
  intros W. pose proof (wf_length x W) as Hd. destruct W as [Hnn _].
  unfold expand. rewrite Nat.ltb_irrefl, Nat.sub_diag.
  cbn [firstn existsb repeat app].
  rewrite (expand_sizes_ok _ _ (expandable_refl _ Hnn)). cbn [bind].
  rewrite expand_data_same by assumption. destruct x; reflexivity.
Qed.

Lemma numel_ones (k : nat) : numel (repeat 1 k) = 1.
Proof.
  induction k as [|k IH]; [reflexivity|].
  cbn [repeat]. rewrite numel_cons, IH. reflexivity.
Qed.

Lemma concat_repeat_repeat (c : T) (m n : nat) :
  concat (repeat (repeat c m) n) = repeat c (n * m).
Proof.
  induction n as [|n IH]; [reflexivity|].
  cbn [repeat concat]. rewrite IH, <- repeat_app. reflexivity.
Qed.

Lemma expand_data_ones (c : T) sh :
  nonneg sh ->
  expand_data (repeat 1 (length sh)) sh [c] = repeat c (Z.to_nat (numel sh)).
Proof.
  induction 1 as [|n sh Hn Hsh IH]; [reflexivity|].
  pose proof (numel_nonneg sh Hsh) as Hm.
  cbn [length repeat expand_data].
  rewrite numel_cons, Z2Nat.inj_mul by lia.
  destruct (1 =? n) eqn:E.
  - apply Z.eqb_eq in E. subst n.
    rewrite numel_ones. change (Z.to_nat 1) with 1%nat.
    unfold chunks, chunk. cbn [seq map Nat.mul skipn firstn concat].
    rewrite IH, app_nil_r. f_equal. lia.
  - rewrite IH. apply concat_repeat_repeat.
Qed.

Lemma expandable_ones sh :
  nonneg sh -> Forall2 expandable (repeat 1 (length sh)) sh.
Proof.
  induction 1; cbn [length repeat]; constructor;
    [split; [assumption|now right]|assumption].
Qed.

Lemma existsb_neg_nonneg sh :
  nonneg sh -> existsb (fun n => n <? 0) sh = false.
Proof.
  induction 1 as [|n sh Hn _ IH]; [reflexivity|].
  cbn [existsb]. rewrite IH.
  replace (n <? 0) with false by (symmetry; apply Z.ltb_ge; lia).
  reflexivity.
Qed.

Lemma expand_scalar (c : T) sh :
  nonneg sh ->
  expand (scalar c) sh = Ok (mkTensor sh (repeat c (Z.to_nat (numel sh)))).
Proof.
  intros Hsh. unfold expand, scalar. cbn [shape data length].
  rewrite Nat.sub_0_r, firstn_all, existsb_neg_nonneg by assumption.
  replace (length sh <? 0)%nat with false by reflexivity.
  rewrite app_nil_r.
  rewrite (expand_sizes_ok _ _ (expandable_ones _ Hsh)). cbn [bind].
  rewrite expand_data_ones by assumption. reflexivity.
Qed.

Lemma broadcast_aligned_same sh : broadcast_aligned sh sh = Ok sh.
Proof.
  induction sh as [|n sh IH]; [reflexivity|].
  cbn [broadcast_aligned]. rewrite IH. cbn [bind].
  rewrite Z.eqb_refl. reflexivity.
Qed.

Lemma broadcast_aligned_ones_r sh :
  broadcast_aligned sh (repeat 1 (length sh)) = Ok sh.
Proof.
  induction sh as [|n sh IH]; [reflexivity|].
  cbn [length repeat broadcast_aligned]. rewrite IH. cbn [bind].
  destruct (n =? 1) eqn:E; [reflexivity|]. reflexivity.
Qed.

Lemma broadcast_aligned_ones_l sh :
  broadcast_aligned (repeat 1 (length sh)) sh = Ok sh.
Proof.
  induction sh as [|n sh IH]; [reflexivity|].
  cbn [length repeat broadcast_aligned]. rewrite IH. cbn [bind].
  destruct (1 =? n) eqn:E; [|reflexivity].
  apply Z.eqb_eq in E. subst n. reflexivity.
Qed.

Lemma broadcast_shapes_same sh : broadcast_shapes sh sh = Ok sh.
Proof.
  unfold broadcast_shapes. rewrite Nat.max_id, Nat.sub_diag.
  apply broadcast_aligned_same.
Qed.

Lemma broadcast_shapes_nil_r sh : broadcast_shapes sh [] = Ok sh.
Proof.
  unfold broadcast_shapes. cbn [length].
  rewrite Nat.max_0_r, Nat.sub_diag, Nat.sub_0_r, app_nil_r.
  apply broadcast_aligned_ones_r.
Qed.

Lemma broadcast_shapes_nil_l sh : broadcast_shapes [] sh = Ok sh.
Proof.
  unfold broadcast_shapes. cbn [length].
  rewrite Nat.max_0_l, Nat.sub_diag, Nat.sub_0_r, app_nil_r.
  apply broadcast_aligned_ones_l.
Qed.

End ShapeFacts.

Section LiftFacts.

Context {A C D : Type}.

Open Scope Z_scope.

Lemma combine_repeat_r (l : list A) (c : C) (f : A -> C -> D) :
  map (fun p => f (fst p) (snd p)) (combine l (repeat c (length l))) =
  map (fun a => f a c) l.
Proof.
  induction l as [|a l IH]; [reflexivity|].
  cbn [length repeat combine map fst snd]. now rewrite IH.
Qed.

Lemma combine_repeat_l (l : list C) (a : A) (f : A -> C -> D) :
  map (fun p => f (fst p) (snd p)) (combine (repeat a (length l)) l) =
  map (fun c => f a c) l.
Proof.
  induction l as [|c l IH]; [reflexivity|].
  cbn [length repeat combine map fst snd]. now rewrite IH.
Qed.

(** A tensor combined with a scalar: the operation is applied to every
    element. *)
Lemma lift2_scalar_r (f : A -> C -> D) (x : tensor A) (c : C) :
  wf x -> lift2 f x (scalar c) = Ok (tmap (fun a => f a c) x).
Proof.
  intros W. pose proof (wf_length x W) as Hd.
  unfold lift2. cbn [shape scalar].
  rewrite broadcast_shapes_nil_r. cbn [bind].
  rewrite expand_same by assumption. cbn [bind].
  change (mkTensor [] [c]) with (scalar c).
  rewrite expand_scalar by apply W. cbn [bind data].
  rewrite <- Hd, combine_repeat_r. reflexivity.
Qed.

Lemma lift2_scalar_l (f : A -> C -> D) (a : A) (y : tensor C) :
  wf y -> lift2 f (scalar a) y = Ok (tmap (fun c => f a c) y).
Proof.
  intros W. pose proof (wf_length y W) as Hd.
  unfold lift2. cbn [shape scalar].
  rewrite broadcast_shapes_nil_l. cbn [bind].
  change (mkTensor [] [a]) with (scalar a).
  rewrite expand_scalar by apply W. cbn [bind].
  rewrite expand_same by assumption. cbn [bind data].
  rewrite <- Hd, combine_repeat_l. reflexivity.
Qed.

(** Two tensors of one shape: the operation is applied pairwise. *)
Lemma lift2_same_shape (f : A -> C -> D) (x : tensor A) (y : tensor C) :
  wf x -> wf y -> shape x = shape y ->
  lift2 f x y =
  Ok (mkTensor (shape x)
        (map (fun p => f (fst p) (snd p)) (combine (data x) (data y)))).
Proof.
  intros Wx Wy E. unfold lift2. rewrite <- E.
  rewrite broadcast_shapes_same. cbn [bind].
  rewrite expand_same by assumption. cbn [bind].
  rewrite E, expand_same by assumption. reflexivity.
Qed.

Lemma wf_tmap (f : A -> C) (x : tensor A) : wf x -> wf (tmap f x).
Proof.
  intros [Hnn Hlen]. split; [exact Hnn|].
  cbn [tmap shape data]. now rewrite length_map.
Qed.

Lemma wf_zip (f : A -> C -> D) (x : tensor A) (y : tensor C) :
  wf x -> wf y -> shape x = shape y ->
  wf (mkTensor (shape x)
        (map (fun p => f (fst p) (snd p)) (combine (data x) (data y)))).
Proof.
  intros [Hnn Hx] [_ Hy] E. split; [exact Hnn|]. cbn [shape data].
  rewrite length_map, length_combine. rewrite <- E in Hy. lia.
Qed.

End LiftFacts.

Section SelectFacts.

Context {T : Type}.
Implicit Types (d : list T) (sh : list Z).

Open Scope Z_scope.

Lemma nonneg_firstn (k : nat) sh : nonneg sh -> nonneg (firstn k sh).
Proof.
  intros H. revert k. induction H as [|n sh Hn _ IH]; intros [|k];
    cbn [firstn]; try constructor; auto; apply IH.
Qed.

Lemma nonneg_skipn (k : nat) sh : nonneg sh -> nonneg (skipn k sh).
Proof.
  intros H. revert k. induction H as [|n sh Hn Hsh IH]; intros [|k];
    cbn [skipn]; try (constructor; assumption); try constructor; apply IH.
Qed.

Lemma length_select_data sh : nonneg sh -> forall dim i d n,
  nth_error sh dim = Some n -> (i < Z.to_nat n)%nat ->
  length d = Z.to_nat (numel sh) ->
  length (select_data sh dim i d) =
  Z.to_nat (numel (firstn dim sh ++ skipn (S dim) sh)).
Proof.
  induction 1 as [|m sh Hm Hsh IH]; intros dim i d n Hn Hi Hd.
  - destruct dim; discriminate.
  - pose proof (numel_nonneg sh Hsh) as Hs.
    rewrite numel_cons, Z2Nat.inj_mul in Hd by lia.
    destruct dim as [|dim]; cbn [select_data nth_error] in *.
    + cbn [firstn skipn app].
      injection Hn as ->. apply (length_chunk _ (Z.to_nat n)); assumption.
    + change (firstn (S dim) (m :: sh) ++ skipn (S (S dim)) (m :: sh))
        with (m :: (firstn dim sh ++ skipn (S dim) sh)).
      assert (Hrest : nonneg (firstn dim sh ++ skipn (S dim) sh)).
      { apply Forall_app. split;
          [now apply nonneg_firstn | now apply nonneg_skipn]. }
      pose proof (numel_nonneg _ Hrest) as Hr.
      rewrite numel_cons, Z2Nat.inj_mul by lia.
      rewrite (length_concat_uniform
                 (Z.to_nat (numel (firstn dim sh ++ skipn (S dim) sh)))).
      * rewrite length_map, length_chunks. reflexivity.
      * apply Forall_forall. intros l Hl.
        apply in_map_iff in Hl. destruct Hl as (c & <- & Hc).
        apply (IH dim i c n); try assumption.
        pose proof (chunks_uniform _ _ _ Hd) as U.
        rewrite Forall_forall in U. now apply U.
Qed.

(** [x[:, :, :, i]] on a tensor of shape (b, s, h, 2, dd). *)
Lemma select_half (x : tensor T) (b s h dd i : Z) :
  wf x -> shape x = [b; s; h; 2; dd] -> 0 <= i < 2 ->
  exists y, select 3 i x = Ok y /\ wf y /\ shape y = [b; s; h; dd].
Proof.
  intros W E Hi. pose proof (wf_length x W) as Hd. destruct W as [Hnn _].
  unfold select. rewrite E. cbn [nth_error firstn skipn app].
  replace (i <? 0) with false by (symmetry; apply Z.ltb_ge; lia).
  replace ((0 <=? i) && (i <? 2)) with true
    by (symmetry; apply andb_true_iff; split;
        [apply Z.leb_le|apply Z.ltb_lt]; lia).
  eexists. split; [reflexivity|]. split; [|reflexivity].
  rewrite E in Hnn, Hd.
  apply wf_intro.
  - unfold nonneg in *.
    repeat (apply Forall_cons_iff in Hnn;
            let H := fresh in destruct Hnn as [H Hnn]).
    repeat constructor; assumption.
  - apply (length_select_data _ Hnn 3%nat (Z.to_nat i) (data x) 2);
      [reflexivity|lia|assumption].
Qed.

End SelectFacts.

(** ** Shapes through [forward] *)

Section ForwardShapes.

Import MultiheadFlashDiff1.

Context {B : Backend}.

Open Scope Z_scope.

Lemma wf_scalar {T : Type} (c : T) : wf (scalar c).
Proof. split; [constructor|reflexivity]. Qed.

Lemma lambda_gate_vectors (lq lk : tensor ptype) (n : Z) :
  wf lq -> wf lk -> shape lq = [n] -> shape lk = [n] ->
  lambda_gate lq lk = Ok (scalar (type_as (f_exp (to_float (dot lq lk))))).
Proof.
  intros Wq Wk Eq Ek. unfold lambda_gate.
  rewrite lift2_same_shape by (try assumption; congruence). cbn [bind].
  pose proof (wf_length _ Wq) as Lq. pose proof (wf_length _ Wk) as Lk.
  rewrite Eq in *. rewrite Ek in *.
  cbn [numel fold_right] in Lq, Lk. rewrite Z.mul_1_r in Lq, Lk.
  unfold sum_last. cbn [shape data rev app].
  change (Z.to_nat (numel [])) with 1%nat.
  unfold chunks, chunk. cbn [seq map Nat.mul skipn].
  rewrite firstn_all2 by (rewrite length_map, length_combine; lia).
  reflexivity.
Qed.

Lemma nonneg_of_wf {T : Type} (x : tensor T) (l : list Z) :
  wf x -> shape x = l -> nonneg l.
Proof. intros [H _] <-. exact H. Qed.

(** Under the contracts, [forward] runs to the end and every local has the
    shape the source intends. *)
Lemma forward_frame_shapes (self : Layer B) (e b s : Z)
    (x : tensor dtype) (rel_pos : list (tensor dtype))
    (attn_mask : option (tensor dtype)) :
  attention_shapes -> layer_shapes self e ->
  wf x -> shape x = [b; s; e] ->
  rotary_matches rel_pos s (head_dim self) ->
  exists fr,
    forward_frame self x rel_pos attn_mask = Ok fr /\
    shape (f_out fr) = [b; s; e] /\
    shape (f_attn1 fr) = [b; s; num_heads self; 2 * head_dim self] /\
    shape (f_normed fr) = [b; s; num_heads self; 2 * head_dim self] /\
    shape (f_flat fr) = [b; s; num_heads self * 2 * head_dim self] /\
    f_lambda_1 fr =
      scalar (type_as (f_exp (to_float
                (dot (lambda_q1 self) (lambda_k1 self))))) /\
    f_lambda_2 fr =
      scalar (type_as (f_exp (to_float
                (dot (lambda_q2 self) (lambda_k2 self))))).
Proof.
  intros Hattn (Hpos & Hlin & Hlam) Wx Ex Hrot.
  cbv zeta in Hpos, Hlin, Hlam.
  destruct Hpos as (Hnh & Hnkv & Hmod & Hhd).
  destruct Hlin as (Hq & Hk & Hv & Ho & Hn).
  assert (Hbs : 0 <= b /\ 0 <= s /\ 0 <= e).
  { pose proof (nonneg_of_wf _ _ Wx Ex) as N. unfold nonneg in N.
    repeat (apply Forall_cons_iff in N;
            let H := fresh in destruct N as [H N]). lia. }
  destruct Hbs as (Hb & Hs & He).
  unfold forward_frame, forward_head, forward_tail, view, size3.
  set (nh := num_heads self) in *. set (nkv := num_kv_heads self) in *.
  set (hd := head_dim self) in *.
  rewrite Ex. cbn [bind].
  (* projections *)
  destruct (Hq x [b; s] Wx Ex) as (q0 & -> & Wq0 & Sq0).
  destruct (Hk x [b; s] Wx Ex) as (k0 & -> & Wk0 & Sk0).
  destruct (Hv x [b; s] Wx Ex) as (v0 & -> & Wv0 & Sv0).
  cbn [bind app] in *.
  (* views *)
  destruct (reshape_plain q0 [b; s; 2 * nh; hd] Wq0) as [-> Wq1].
  { repeat constructor; lia. }
  { rewrite Sq0. cbn [numel fold_right]. ring. }
  destruct (reshape_plain k0 [b; s; 2 * nkv; hd] Wk0) as [-> Wk1].
  { repeat constructor; lia. }
  { rewrite Sk0. cbn [numel fold_right]. ring. }
  destruct (reshape_plain v0 [b; s; nkv; 2 * hd] Wv0) as [-> Wv1].
  { repeat constructor; lia. }
  { rewrite Sv0. cbn [numel fold_right]. ring. }
  cbn [bind].
  (* rotary embedding *)
  destruct (Hrot _ b (2 * nh) Wq1 eq_refl) as (q2 & -> & Wq2 & Sq2).
  destruct (Hrot _ b (2 * nkv) Wk1 eq_refl) as (k2 & -> & Wk2 & Sk2).
  cbn [bind].
  (* splitting the doubled heads *)
  destruct (reshape_plain q2 [b; s; nh; 2; hd] Wq2) as [-> Wq3].
  { repeat constructor; lia. }
  { rewrite Sq2. cbn [numel fold_right]. ring. }
  destruct (reshape_plain k2 [b; s; nkv; 2; hd] Wk2) as [-> Wk3].
  { repeat constructor; lia. }
  { rewrite Sk2. cbn [numel fold_right]. ring. }
  cbn [bind].
  destruct (select_half _ b s nh hd 0 Wq3 eq_refl) as (qa & -> & Wqa & Sqa);
    [lia|].
  destruct (select_half _ b s nh hd 1 Wq3 eq_refl) as (qb & -> & Wqb & Sqb);
    [lia|].
  destruct (select_half _ b s nkv hd 0 Wk3 eq_refl) as (ka & -> & Wka & Ska);
    [lia|].
  destruct (select_half _ b s nkv hd 1 Wk3 eq_refl) as (kb & -> & Wkb & Skb);
    [lia|].
  cbn [bind].
  (* the two attention calls *)
  destruct (Hattn qa ka _ b s nh nkv hd (2 * hd) true Wqa Wka Wv1 Sqa Ska
              eq_refl Hnkv Hmod) as (a1 & -> & Wa1 & Sa1).
  destruct (Hattn qb kb _ b s nh nkv hd (2 * hd) true Wqb Wkb Wv1 Sqb Skb
              eq_refl Hnkv Hmod) as (a2 & -> & Wa2 & Sa2).
  cbn [bind].
  (* the gate *)
  repeat (apply Forall_cons_iff in Hlam;
          let H := fresh "L" in destruct Hlam as [H Hlam]).
  destruct L as [W1 S1]. destruct L0 as [W2 S2].
  destruct L1 as [W3 S3]. destruct L2 as [W4 S4].
  rewrite (lambda_gate_vectors _ _ hd W1 W2 S1 S2).
  rewrite (lambda_gate_vectors _ _ hd W3 W4 S3 S4).
  cbn [bind].
  rewrite lift2_scalar_r by apply wf_scalar. cbn [bind].
  rewrite lift2_scalar_r by (apply wf_tmap, wf_scalar). cbn [bind].
  change (tmap ?f (tmap ?g (scalar ?c))) with (scalar (f (g c))).
  rewrite lift2_scalar_l by assumption. cbn [bind].
  rewrite lift2_same_shape;
    [|assumption|now apply wf_tmap|cbn [tmap shape]; congruence].
  cbn [bind].
  (* normalization and rescaling *)
  match goal with
  | |- context [norm_call (subln self) ?t] =>
      destruct (Hn t [b; s; nh] ) as (nm & -> & Wnm & Snm)
  end.
  { apply wf_zip; [assumption|now apply wf_tmap|].
    cbn [tmap shape]. congruence. }
  { cbn [shape]. rewrite Sa1. reflexivity. }
  cbn [bind shape] in *.
  rewrite lift2_scalar_r by assumption. cbn [bind].
  destruct (reshape_plain (tmap (fun a => t_mul a
                             (of_py (1 - lambda_init self)%float)) nm)
              [b; s; nh * 2 * hd]) as [-> Wfl].
  { now apply wf_tmap. }
  { repeat constructor; lia. }
  { cbn [tmap shape]. rewrite Snm, Sa1. cbn [numel fold_right]. ring. }
  cbn [bind].
  match goal with
  | |- context [linear_call (out_proj self) ?t] =>
      destruct (Ho t [b; s] Wfl eq_refl) as (out & -> & Wout & Sout)
  end.
  cbn [bind]. eexists. split; [reflexivity|]. cbn.
  repeat split; try assumption; try reflexivity.
  rewrite Snm, Sa1. reflexivity.
Qed.

Lemma init_layer_shapes (a : Args) (e depth nh : Z) (self : Layer B)
    (q1 k1 q2 k2 : tensor ptype) :
  single_device ->
  __init__ a e depth nh = Ok self ->
  model_parallel_size a = 1 -> 0 < nh -> e mod (2 * nh) = 0 ->
  match decoder_kv_attention_heads a with
  | Some kv => 0 < kv /\ nh mod kv = 0
  | None => True
  end ->
  Forall (fun l => wf l /\ shape l = [head_dim self]) [q1; k1; q2; k2] ->
  layer_shapes (with_lambdas self q1 k1 q2 k2) e.
Proof.
  intros (Hcol & Hrow & Hnorm & _) Hself Hp Hnh He Hkv Hlam.
  destruct (init_Ok _ _ _ _ _ Hself)
    as ((_ & _ & Hkv0 & Hrep0 & Hhd) &
        (_ & _ & Enh & Ekv & Erep & Ehd) &
        (Eq & Ek & Ev & Eo) & _ & En).
  rewrite Hp, Z.div_1_r in Enh.
  assert (Ekv' : 0 < num_kv_heads self /\ nh mod num_kv_heads self = 0).
  { rewrite Ekv. unfold kv_heads_of. rewrite Hp. revert Hkv.
    destruct (decoder_kv_attention_heads a); rewrite Z.div_1_r.
    - tauto.
    - intros _. split; [lia|]. apply Z.mod_same; lia. }
  destruct Ekv' as [Hkvpos Hkvdiv].
  assert (Ee : e = 2 * nh * head_dim self).
  { rewrite Ehd, Z.div_div by lia.
    apply Z.div_exact in He; [|lia]. rewrite (Z.mul_comm nh 2). exact He. }
  assert (Enkv : nh = num_kv_heads self * n_rep self).
  { rewrite Erep, Enh. apply Z.div_exact; [lia|assumption]. }
  assert (Hreppos : 0 < n_rep self).
  { destruct (Z.lt_trichotomy 0 (n_rep self)) as [|[|]]; nia. }
  assert (Ek' : e / n_rep self = 2 * num_kv_heads self * head_dim self).
  { rewrite Ee at 1. rewrite Enkv at 1.
    replace (2 * (num_kv_heads self * n_rep self) * head_dim self)
      with (2 * num_kv_heads self * head_dim self * n_rep self) by ring.
    apply Z.div_mul. lia. }
  unfold layer_shapes. cbn [with_lambdas num_heads num_kv_heads head_dim
    q_proj k_proj v_proj out_proj subln lambda_q1 lambda_k1 lambda_q2
    lambda_k2].
  rewrite Enh. split; [|split].
  - repeat split; try assumption.
  - rewrite <- Ek', <- Ee.
    replace (nh * 2 * head_dim self) with e by (rewrite Ee at 1; ring).
    repeat split; eauto.
  - exact Hlam.
Qed.

(** The same on [p] devices: every projection has its local width. *)
Lemma init_layer_shapes_parallel (a : Args) (e depth nh p : Z)
    (self : Layer B) (q1 k1 q2 k2 : tensor ptype) :
  parallel_devices p ->
  __init__ a e depth nh = Ok self ->
  model_parallel_size a = p -> 0 < p -> 0 < nh -> nh mod p = 0 ->
  e mod (2 * nh) = 0 ->
  match decoder_kv_attention_heads a with
  | Some kv => 0 < kv /\ kv mod p = 0 /\ (nh / p) mod (kv / p) = 0
  | None => True
  end ->
  Forall (fun l => wf l /\ shape l = [head_dim self]) [q1; k1; q2; k2] ->
  layer_shapes (with_lambdas self q1 k1 q2 k2) e.
Proof.
  intros (Hcol & Hrow & Hnorm & _) Hself Hp Hppos Hnh Hdiv He Hkv Hlam.
  destruct (init_Ok _ _ _ _ _ Hself)
    as ((_ & _ & Hkv0 & Hrep0 & Hhd) &
        (_ & _ & Enh & Ekv & Erep & Ehd) &
        (Eq & Ek & Ev & Eo) & _ & En).
  rewrite Hp in Enh.
  assert (Em : nh = p * num_heads self).
  { rewrite Enh. apply Z.div_exact; [lia|assumption]. }
  assert (Hnhl : 0 < num_heads self) by nia.
  assert (Ekv' : 0 < num_kv_heads self /\
                 num_heads self mod num_kv_heads self = 0).
  { rewrite Ekv, Enh. unfold kv_heads_of. rewrite Hp. revert Hkv.
    destruct (decoder_kv_attention_heads a) as [kv|].
    - intros (Hkvpos & Hkvp & Hkvd). split; [|exact Hkvd].
      apply Z.div_exact in Hkvp; [|lia]. nia.
    - intros _. split; [lia|]. apply Z.mod_same. lia. }
  destruct Ekv' as [Hkvpos Hkvdiv].
  assert (Ee : e = 2 * nh * head_dim self).
  { rewrite Ehd, Z.div_div by lia.
    apply Z.div_exact in He; [|lia]. rewrite (Z.mul_comm nh 2). exact He. }
  assert (Enkv : num_heads self = num_kv_heads self * n_rep self).
  { rewrite Erep. apply Z.div_exact; [lia|assumption]. }
  assert (Hreppos : 0 < n_rep self).
  { destruct (Z.lt_trichotomy 0 (n_rep self)) as [|[|]]; nia. }
  assert (Eq' : e / p = 2 * num_heads self * head_dim self).
  { rewrite Ee at 1. rewrite Em at 1.
    replace (2 * (p * num_heads self) * head_dim self)
      with (2 * num_heads self * head_dim self * p) by ring.
    apply Z.div_mul. lia. }
  assert (Ek' : e / n_rep self / p = 2 * num_kv_heads self * head_dim self).
  { rewrite Ee at 1. rewrite Em at 1. rewrite Enkv at 1.
    replace (2 * (p * (num_kv_heads self * n_rep self)) * head_dim self)
      with (2 * num_kv_heads self * head_dim self * p * n_rep self) by ring.
    rewrite Z.div_mul by lia. apply Z.div_mul. lia. }
  unfold layer_shapes. cbn [with_lambdas num_heads num_kv_heads head_dim
    q_proj k_proj v_proj out_proj subln lambda_q1 lambda_k1 lambda_q2
    lambda_k2].
  split; [|split].
  - repeat split; assumption.
  - rewrite <- Ek', <- Eq'.
    replace (num_heads self * 2 * head_dim self) with (e / p)
      by (rewrite Eq'; ring).
    repeat split; eauto.
  - exact Hlam.
Qed.

End ForwardShapes.

(** ** The sample environment meets the contracts *)

Section SampleFacts.

Import MultiheadFlashDiff1.

Open Scope Z_scope.

Lemma sample_init_layer_4 :
  __init__ (B := Sample.backend) Sample.one_device 4 0 1 = Ok Sample.layer_4.
Proof. reflexivity. Qed.

Lemma nonneg_app (l1 l2 : list Z) :
  nonneg l1 -> nonneg l2 -> nonneg (l1 ++ l2).
Proof. intros H1 H2. apply Forall_app. split; assumption. Qed.

Lemma nonneg_app_l (l1 l2 : list Z) : nonneg (l1 ++ l2) -> nonneg l1.
Proof. intros H. apply Forall_app in H. tauto. Qed.

Lemma sample_linear_maps (i o : Z) (l : Sample.zero_linear) :
  Sample.make_linear i o = Ok l -> linear_maps (B := Sample.backend) l i o.
Proof.
  unfold Sample.make_linear.
  destruct ((i <? 0) || (o <? 0)) eqn:E; [discriminate|].
  intros H. apply Ok_inj in H. subst l.
  apply orb_false_iff in E. destruct E as [_ Eo]. apply Z.ltb_ge in Eo.
  intros x pre W Ex. cbn [linear_call dtype Sample.backend] in *.
  unfold Sample.zero_linear_call. rewrite Ex, rev_app_distr.
  cbn [rev app fst snd]. rewrite Z.eqb_refl, rev_involutive.
  eexists. split; [reflexivity|]. split; [|reflexivity].
  apply wf_intro.
  - apply nonneg_app; [|repeat constructor; assumption].
    apply (nonneg_app_l pre [i]). rewrite <- Ex. apply W.
  - apply repeat_length.
Qed.

Lemma sample_norm_keeps (w : Z) (eps : float) (affine : bool) (n : Z) :
  Sample.make_norm w eps affine = Ok n ->
  norm_keeps_shape (B := Sample.backend) n w.
Proof.
  unfold Sample.make_norm. destruct (w <? 0); [discriminate|].
  intros H. apply Ok_inj in H. subst n.
  intros x pre W Ex. cbn [norm_call dtype Sample.backend] in *.
  unfold Sample.norm_check. rewrite Ex, rev_app_distr.
  cbn [rev app]. rewrite Z.eqb_refl.
  exists x. rewrite <- Ex. auto.
Qed.

Lemma sample_attention : attention_shapes (B := Sample.backend).
Proof.
  intros q k v b s h hk d dv causal Wq Wk Wv Sq Sk Sv Hhk Hmod.
  cbn [flash_attn_func dtype Sample.backend] in *. unfold Sample.attn_check.
  rewrite Sq, Sk, Sv, !Z.eqb_refl, Hmod.
  replace (0 <? hk) with true by (symmetry; apply Z.ltb_lt; lia).
  cbn [andb Z.eqb].
  eexists. split; [reflexivity|]. split; [|reflexivity].
  apply wf_intro; [|apply repeat_length].
  pose proof (nonneg_of_wf _ _ Wq Sq) as Nq.
  pose proof (nonneg_of_wf _ _ Wv Sv) as Nv.
  unfold nonneg in *.
  repeat (apply Forall_cons_iff in Nq;
          let H := fresh in destruct Nq as [H Nq]).
  repeat (apply Forall_cons_iff in Nv;
          let H := fresh in destruct Nv as [H Nv]).
  repeat constructor; assumption.
Qed.

Lemma sample_single_device : single_device (B := Sample.backend).
Proof.
  repeat split.
  - exact sample_linear_maps.
  - exact sample_linear_maps.
  - exact sample_norm_keeps.
  - exact sample_attention.
Qed.

Lemma sample_rotary_matches :
  rotary_matches (B := Sample.backend) Sample.rel_pos_2 2 2.
Proof.
  intros x b h W Ex. cbn [apply_rotary_emb dtype Sample.backend] in *.
  unfold Sample.rotary_check. rewrite Ex. cbn.
  exists x. auto.
Qed.

Lemma sample_wf_x : wf Sample.x_1_2_4.
Proof. split; [repeat constructor; lia|reflexivity]. Qed.

Lemma sample_wf_vec (a c : Sample.f32) :
  wf (mkTensor [2] [a; c]) /\ shape (mkTensor [2] [a; c]) = [2].
Proof.
  split; [|reflexivity]. split; [repeat constructor; lia|reflexivity].
Qed.

Lemma sample_parallel_devices (p : Z) :
  parallel_devices (B := Sample.backend_on p) p.
Proof.
  repeat split.
  - intros i o l H. exact (sample_linear_maps i (o / p) l H).
  - intros i o l H. exact (sample_linear_maps (i / p) o l H).
  - exact sample_norm_keeps.
  - exact sample_attention.
Qed.

Lemma sample_rotary_matches_on (p : Z) :
  rotary_matches (B := Sample.backend_on p) Sample.rel_pos_2 2 2.
Proof. exact sample_rotary_matches. Qed.

Lemma sample_wf_x_8 : wf Sample.x_1_2_8.
Proof. split; [repeat constructor; lia|reflexivity]. Qed.

End SampleFacts.

(** ** The output shape *)

(** C6: on one device, for a configuration that satisfies the divisibility
    constraints, whatever the number of key/value heads (absent, hence
    [num_heads], or any positive divisor of [num_heads], 1 included), and
    whatever values the lambda vectors hold, [forward] on an input of shape
    (batch, seq, embed_dim) with matching rotary parameters returns a tensor
    of shape (batch, seq, embed_dim). *)
Theorem forward_output_shape {B : Backend}
    (a : MultiheadFlashDiff1.Args) (e depth nh : Z)
    (self : MultiheadFlashDiff1.Layer B) (q1 k1 q2 k2 : tensor ptype)
    (x : tensor dtype) (rel_pos : list (tensor dtype))
    (attn_mask : option (tensor dtype)) (b s : Z) :
  single_device ->
  MultiheadFlashDiff1.__init__ a e depth nh = Ok self ->
  MultiheadFlashDiff1.model_parallel_size a = 1%Z ->
  (0 < nh)%Z -> (e mod (2 * nh) = 0)%Z ->
  match MultiheadFlashDiff1.decoder_kv_attention_heads a with
  | Some kv => (0 < kv)%Z /\ (nh mod kv = 0)%Z
  | None => True
  end ->
  Forall (fun l => wf l /\ shape l = [MultiheadFlashDiff1.head_dim self])
         [q1; k1; q2; k2] ->
  wf x -> shape x = [b; s; e] ->
  rotary_matches rel_pos s (MultiheadFlashDiff1.head_dim self) ->
  exists y,
    MultiheadFlashDiff1.forward
      (MultiheadFlashDiff1.with_lambdas self q1 k1 q2 k2)
      x rel_pos attn_mask = Ok y /\
    shape y = [b; s; e].
Proof.
  intros Hdev Hself Hp Hnh He Hkv Hlam Wx Ex Hrot.
  pose proof (init_layer_shapes a e depth nh self q1 k1 q2 k2
                Hdev Hself Hp Hnh He Hkv Hlam) as Hshapes.
  destruct (forward_frame_shapes
              (MultiheadFlashDiff1.with_lambdas self q1 k1 q2 k2)
              e b s x rel_pos attn_mask) as (fr & Hfr & Hout & _);
    try assumption.
  - apply Hdev.
  - unfold MultiheadFlashDiff1.forward. rewrite Hfr. cbn [bind].
    exists (MultiheadFlashDiff1.f_out fr). split; [reflexivity|exact Hout].
Qed.

(** [forward_output_shape] at the sample layer of width 4 and an input of
    shape (1, 2, 4). *)
Lemma forward_output_shape_witness :
  exists y,
    MultiheadFlashDiff1.forward (B := Sample.backend)
      Sample.layer_4_big Sample.x_1_2_4 Sample.rel_pos_2 None = Ok y /\
    shape y = [1; 2; 4]%Z.
Proof.
  apply (forward_output_shape (B := Sample.backend)
           Sample.one_device 4 0 1 Sample.layer_4
           Sample.big_q Sample.big_k Sample.big_q Sample.big_k
           Sample.x_1_2_4 Sample.rel_pos_2 None 1 2).
  - exact sample_single_device.
  - exact sample_init_layer_4.
  - reflexivity.
  - reflexivity.
  - reflexivity.
  - exact I.
  - repeat constructor; try (apply Z.leb_le; reflexivity).
  - exact sample_wf_x.
  - reflexivity.
  - exact sample_rotary_matches.
Defined.

(** ** The steps of [forward] *)

Section ForwardSteps.

Import MultiheadFlashDiff1.

Context {B : Backend}.

Open Scope Z_scope.

(** What [forward_head] returns: the sizes of [x] and a key/value length
    equal to the query length. *)
Lemma forward_head_Ok (self : Layer B) (x : tensor dtype)
    (rel_pos : list (tensor dtype)) (bsz t s : Z) (q k v : tensor dtype) :
  forward_head self x rel_pos = Ok (bsz, t, s, q, k, v) ->
  s = t /\ exists c, shape x = [bsz; t; c].
Proof.
  unfold forward_head, size3. intros H.
  destruct (shape x) as [|b0 [|t0 [|c0 [|? ?]]]]; try discriminate.
  cbn [bind] in H.
  step H as q0 Eq. step H as k0 Ek. step H as v0 Ev.
  step H as q1 Eq1. step H as k1 Ek1. step H as v1 Ev1.
  step H as q2 Eq2. step H as k2 Ek2.
  apply Ok_inj in H.
  assert (E1 : bsz = b0 /\ t = t0 /\ s = t0).
  { repeat split; congruence. }
  destruct E1 as (-> & -> & ->). split; [reflexivity|]. now exists c0.
Qed.

(** The query projection and its view, when [forward_head] returns. *)
Lemma forward_head_query (self : Layer B) (x : tensor dtype)
    (rel_pos : list (tensor dtype)) (bsz t s : Z) (q k v : tensor dtype) :
  forward_head self x rel_pos = Ok (bsz, t, s, q, k, v) ->
  exists q0 q1,
    linear_call (q_proj self) x = Ok q0 /\
    view q0 [bsz; t; 2 * num_heads self; head_dim self] = Ok q1.
Proof.
  unfold forward_head, size3. intros H.
  destruct (shape x) as [|b0 [|t0 [|c0 [|? ?]]]]; try discriminate.
  cbn [bind] in H.
  step H as q0 Eq. step H as k0 Ek. step H as v0 Ev.
  step H as q1 Eq1. step H as k1 Ek1. step H as v1 Ev1.
  step H as q2 Eq2. step H as k2 Ek2.
  apply Ok_inj in H.
  assert (E1 : bsz = b0 /\ t = t0) by (split; congruence).
  destruct E1 as (-> & ->). exists q0, q1. auto.
Qed.

Lemma existsb_below_nonneg (sizes : list Z) :
  nonneg sizes -> existsb (fun z => z <? -1) sizes = false.
Proof.
  intros Hs. apply not_true_is_false. intros E.
  apply existsb_exists in E. destruct E as (z & Hin & E).
  unfold nonneg in Hs. rewrite Forall_forall in Hs.
  specialize (Hs _ Hin). apply Z.ltb_lt in E. lia.
Qed.

Lemma count_inferred_nonneg (sizes : list Z) :
  nonneg sizes -> count_occ Z.eq_dec sizes (-1) = O.
Proof.
  intros Hs. apply count_occ_not_In. intros Hin.
  unfold nonneg in Hs. rewrite Forall_forall in Hs.
  specialize (Hs _ Hin). lia.
Qed.

(** A view of (b, t, w) as (b, t, 2 * nh, hd) with a non-empty prefix
    forces [2 * nh * hd = w]. *)
Lemma view_width {T : Type} (x y : tensor T) (b t w nh hd : Z) :
  wf x -> shape x = [b; t; w] -> 0 < b -> 0 < t -> 0 < hd ->
  view x [b; t; 2 * nh; hd] = Ok y -> 2 * nh * hd = w.
Proof.
  intros W Ex Hb Ht Hhd H. unfold view, reshape in H.
  step H as new En. unfold infer_sizes in En.
  pose proof (wf_length x W) as L. rewrite Ex in L.
  cbn [numel fold_right] in L.
  destruct (Z_lt_le_dec (2 * nh) 0) as [Hm | Hm].
  - (* a size below -1 is refused *)
    exfalso. cbn [existsb] in En.
    replace (2 * nh <? -1) with true in En by (symmetry; apply Z.ltb_lt; lia).
    rewrite !orb_true_r in En. cbn [orb] in En.
    destruct (b <? -1), (t <? -1); discriminate.
  - assert (N : nonneg [b; t; 2 * nh; hd]) by (repeat constructor; lia).
    rewrite existsb_below_nonneg, count_inferred_nonneg in En by assumption.
    destruct (numel [b; t; 2 * nh; hd] =? Z.of_nat (length (data x))) eqn:E;
      [|discriminate].
    apply Z.eqb_eq in E. cbn [numel fold_right] in E.
    assert (Hw : 0 <= w).
    { destruct W as [Nx _]. rewrite Ex in Nx. unfold nonneg in Nx.
      repeat (apply Forall_cons_iff in Nx;
              let H := fresh in destruct Nx as [H Nx]). assumption. }
    rewrite L, Z2Nat.id in E by (repeat apply Z.mul_nonneg_nonneg; lia).
    apply Z.mul_cancel_l in E; [|lia].
    apply Z.mul_cancel_l in E; [|lia]. lia.
Qed.

(** The relations between the locals of [forward] when it returns. *)
Lemma forward_tail_Ok (self : Layer B) (bsz t s offset : Z)
    (q k v : tensor dtype) (fr : Frame B) :
  forward_tail self bsz t s offset q k v = Ok fr ->
  (f_tgt_len fr = t /\ f_src_len fr = s /\ f_v fr = v) /\
  (flash_attn_func (f_q1 fr) (f_k1 fr) (f_v fr) true = Ok (f_attn1 fr) /\
   flash_attn_func (f_q2 fr) (f_k2 fr) (f_v fr) true = Ok (f_attn2 fr)) /\
  (lambda_gate (lambda_q1 self) (lambda_k1 self) = Ok (f_lambda_1 fr) /\
   lambda_gate (lambda_q2 self) (lambda_k2 self) = Ok (f_lambda_2 fr) /\
   exists diff,
     lift2 t_sub (f_lambda_1 fr) (f_lambda_2 fr) = Ok diff /\
     lift2 t_add diff (scalar (of_py (lambda_init self))) =
       Ok (f_lambda_full fr)) /\
  (exists gated,
     lift2 t_mul (f_lambda_full fr) (f_attn2 fr) = Ok gated /\
     lift2 t_sub (f_attn1 fr) gated = Ok (f_combined fr)) /\
  norm_call (subln self) (f_combined fr) = Ok (f_normed fr) /\
  lift2 t_mul (f_normed fr)
    (scalar (of_py (1 - lambda_init self)%float)) = Ok (f_scaled fr) /\
  reshape (f_scaled fr) [bsz; t; num_heads self * 2 * head_dim self] =
    Ok (f_flat fr) /\
  linear_call (out_proj self) (f_flat fr) = Ok (f_out fr).
Proof.
  unfold forward_tail. intros H.
  step H as q' Eq. step H as k' Ek.
  step H as q1 Eq1. step H as q2 Eq2. step H as k1 Ek1. step H as k2 Ek2.
  step H as a1 Ea1. step H as a2 Ea2.
  step H as l1 El1. step H as l2 El2.
  step H as diff Ed. step H as lf Elf.
  step H as gated Eg. step H as attn Eattn.
  step H as normed En. step H as scaled Es.
  step H as flat Ef. step H as out Eo.
  apply Ok_inj in H. subst fr. cbn.
  repeat split; try assumption; eauto.
Qed.

Lemma forward_frame_Ok (self : Layer B) (x : tensor dtype)
    (rel_pos : list (tensor dtype)) (attn_mask : option (tensor dtype))
    (fr : Frame B) :
  forward_frame self x rel_pos attn_mask = Ok fr ->
  exists bsz t q k v,
    forward_head self x rel_pos = Ok (bsz, t, t, q, k, v) /\
    forward_tail self bsz t t 0 q k v = Ok fr.
Proof.
  unfold forward_frame. intros H. step H as r Er.
  destruct r as [[[[[bsz t] s] q] k] v].
  destruct (forward_head_Ok _ _ _ _ _ _ _ _ _ Er) as [-> _].
  rewrite Z.sub_diag in H. exists bsz, t, q, k, v. auto.
Qed.

Lemma infer_sizes_nonneg (n : Z) (sizes new : list Z) :
  infer_sizes n sizes = Ok new -> nonneg sizes -> new = sizes.
Proof.
  intros H Hs. unfold infer_sizes in H.
  rewrite existsb_below_nonneg, count_inferred_nonneg in H by assumption.
  destruct (numel sizes =? n); [now apply Ok_inj in H|discriminate].
Qed.

Lemma reshape_Ok_shape {T : Type} (x y : tensor T) (sizes : list Z) :
  reshape x sizes = Ok y -> nonneg sizes -> shape y = sizes.
Proof.
  unfold reshape. intros H Hs. step H as new En.
  apply Ok_inj in H. subst y. cbn [shape].
  eapply infer_sizes_nonneg; eassumption.
Qed.

Lemma reshape_data {T : Type} (x y : tensor T) (sizes : list Z) :
  reshape x sizes = Ok y -> data y = data x.
Proof.
  unfold reshape. intros H. step H as new En.
  apply Ok_inj in H. subst y. reflexivity.
Qed.

End ForwardSteps.

(** ** The attention mask and the offset *)

(** C5: two calls of [forward] that differ only in [attn_mask] return the
    same result, and both calls of the attention kernel are made with
    [causal=True]. *)
Theorem forward_ignores_attn_mask {B : Backend}
    (self : MultiheadFlashDiff1.Layer B) (x : tensor dtype)
    (rel_pos : list (tensor dtype)) (m1 m2 : option (tensor dtype)) :
  MultiheadFlashDiff1.forward self x rel_pos m1 =
  MultiheadFlashDiff1.forward self x rel_pos m2 /\
  forall fr,
    MultiheadFlashDiff1.forward_frame self x rel_pos m1 = Ok fr ->
    flash_attn_func (MultiheadFlashDiff1.f_q1 fr)
      (MultiheadFlashDiff1.f_k1 fr) (MultiheadFlashDiff1.f_v fr) true =
      Ok (MultiheadFlashDiff1.f_attn1 fr) /\
    flash_attn_func (MultiheadFlashDiff1.f_q2 fr)
      (MultiheadFlashDiff1.f_k2 fr) (MultiheadFlashDiff1.f_v fr) true =
      Ok (MultiheadFlashDiff1.f_attn2 fr).
Proof.
  split; [reflexivity|].
  intros fr H.
  destruct (forward_frame_Ok _ _ _ _ _ H) as (bsz & t & q & k & v & _ & Ht).
  apply forward_tail_Ok in Ht. destruct Ht as (_ & Hattn & _). exact Hattn.
Qed.

(** C10: the key/value length [src_len] is the query length [tgt_len], so
    the local [offset] is zero: [forward] is its first part followed by its
    second part run with offset 0; and that second part does not depend on
    the offset it is given. *)
Theorem forward_offset_is_zero {B : Backend}
    (self : MultiheadFlashDiff1.Layer B) (x : tensor dtype)
    (rel_pos : list (tensor dtype)) (attn_mask : option (tensor dtype)) :
  (forall bsz t s q k v,
     MultiheadFlashDiff1.forward_head self x rel_pos =
       Ok (bsz, t, s, q, k, v) ->
     s = t /\ (s - t = 0)%Z) /\
  MultiheadFlashDiff1.forward_frame self x rel_pos attn_mask =
    ('(bsz, t, s, q, k, v) <-
       MultiheadFlashDiff1.forward_head self x rel_pos ;;
     MultiheadFlashDiff1.forward_tail self bsz t s 0 q k v) /\
  (forall bsz t s o o' q k v,
     MultiheadFlashDiff1.forward_tail self bsz t s o q k v =
     MultiheadFlashDiff1.forward_tail self bsz t s o' q k v) /\
  (forall fr,
     MultiheadFlashDiff1.forward_frame self x rel_pos attn_mask = Ok fr ->
     MultiheadFlashDiff1.f_src_len fr = MultiheadFlashDiff1.f_tgt_len fr).
Proof.
  split; [|split; [|split]].
  - intros bsz t s q k v H.
    destruct (forward_head_Ok _ _ _ _ _ _ _ _ _ H) as [-> _].
    split; [reflexivity|apply Z.sub_diag].
  - unfold MultiheadFlashDiff1.forward_frame.
    destruct (MultiheadFlashDiff1.forward_head self x rel_pos)
      as [[[[[[bsz t] s] q] k] v]|err] eqn:E; [|reflexivity].
    cbn [bind].
    destruct (forward_head_Ok _ _ _ _ _ _ _ _ _ E) as [-> _].
    rewrite Z.sub_diag. reflexivity.
  - intros bsz t s o o' q k v. reflexivity.
  - intros fr H.
    destruct (forward_frame_Ok _ _ _ _ _ H) as (bsz & t & q & k & v & _ & Ht).
    apply forward_tail_Ok in Ht. destruct Ht as ((-> & -> & _) & _).
    reflexivity.
Qed.

(** ** The gate and the rescaling *)

(** C2: for a constructed layer, whatever its lambda vectors have become,
    [forward] combines the branches as [attn1 - lambda_full * attn2],
    normalizes the result with the [RMSNorm] made at construction for
    width [2 * head_dim] without affine parameters, and multiplies every
    element by the scalar [1 - lambda_init], where [lambda_init] is the
    value [lambda_init_fn(depth)] fixed at construction: the lambda
    vectors do not enter the factor.  The rescaled tensor, and nothing
    else, is what [forward] reshapes to (batch, length, width) and gives
    to the output projection, whose result it returns. *)
Theorem rescale_by_lambda_init {B : Backend}
    (a : MultiheadFlashDiff1.Args) (e depth nh : Z)
    (self : MultiheadFlashDiff1.Layer B) (q1 k1 q2 k2 : tensor ptype)
    (x : tensor dtype) (rel_pos : list (tensor dtype))
    (attn_mask : option (tensor dtype)) (fr : MultiheadFlashDiff1.Frame B) :
  MultiheadFlashDiff1.__init__ a e depth nh = Ok self ->
  MultiheadFlashDiff1.forward_frame
    (MultiheadFlashDiff1.with_lambdas self q1 k1 q2 k2)
    x rel_pos attn_mask = Ok fr ->
  lambda_init_fn libm_exp depth = Ok (MultiheadFlashDiff1.lambda_init self) /\
  RMSNorm (2 * MultiheadFlashDiff1.head_dim self) 1e-5%float false =
    Ok (MultiheadFlashDiff1.subln self) /\
  (exists gated,
     lift2 t_mul (MultiheadFlashDiff1.f_lambda_full fr)
       (MultiheadFlashDiff1.f_attn2 fr) = Ok gated /\
     lift2 t_sub (MultiheadFlashDiff1.f_attn1 fr) gated =
       Ok (MultiheadFlashDiff1.f_combined fr)) /\
  norm_call (MultiheadFlashDiff1.subln self)
    (MultiheadFlashDiff1.f_combined fr) =
    Ok (MultiheadFlashDiff1.f_normed fr) /\
  lift2 t_mul (MultiheadFlashDiff1.f_normed fr)
    (scalar (of_py (1 - MultiheadFlashDiff1.lambda_init self)%float)) =
    Ok (MultiheadFlashDiff1.f_scaled fr) /\
  (wf (MultiheadFlashDiff1.f_normed fr) ->
   MultiheadFlashDiff1.f_scaled fr =
   tmap (fun v =>
           t_mul v (of_py (1 - MultiheadFlashDiff1.lambda_init self)%float))
        (MultiheadFlashDiff1.f_normed fr)) /\
  (exists b t c,
     shape x = [b; t; c] /\
     reshape (MultiheadFlashDiff1.f_scaled fr)
       [b; t; (MultiheadFlashDiff1.num_heads self * 2 *
               MultiheadFlashDiff1.head_dim self)%Z] =
       Ok (MultiheadFlashDiff1.f_flat fr)) /\
  data (MultiheadFlashDiff1.f_flat fr) =
    data (MultiheadFlashDiff1.f_scaled fr) /\
  (wf (MultiheadFlashDiff1.f_normed fr) ->
   data (MultiheadFlashDiff1.f_flat fr) =
   map (fun v =>
          t_mul v (of_py (1 - MultiheadFlashDiff1.lambda_init self)%float))
       (data (MultiheadFlashDiff1.f_normed fr))) /\
  linear_call (MultiheadFlashDiff1.out_proj self)
    (MultiheadFlashDiff1.f_flat fr) = Ok (MultiheadFlashDiff1.f_out fr) /\
  MultiheadFlashDiff1.forward
    (MultiheadFlashDiff1.with_lambdas self q1 k1 q2 k2)
    x rel_pos attn_mask = Ok (MultiheadFlashDiff1.f_out fr).
Proof.
  intros Hself H.
  destruct (init_Ok _ _ _ _ _ Hself) as (_ & _ & _ & Hlam & Hnorm).
  destruct (forward_frame_Ok _ _ _ _ _ H)
    as (bsz & t & q & k & v & Hhead & Ht).
  destruct (forward_head_Ok _ _ _ _ _ _ _ _ _ Hhead) as (_ & c & Ex).
  apply forward_tail_Ok in Ht.
  destruct Ht as (_ & _ & _ & Hcomb & Hn & Hs & Hflat & Hout).
  cbn [MultiheadFlashDiff1.with_lambdas MultiheadFlashDiff1.subln
       MultiheadFlashDiff1.lambda_init MultiheadFlashDiff1.num_heads
       MultiheadFlashDiff1.head_dim MultiheadFlashDiff1.out_proj]
    in Hn, Hs, Hflat, Hout.
  assert (Escaled : wf (MultiheadFlashDiff1.f_normed fr) ->
            MultiheadFlashDiff1.f_scaled fr =
            tmap (fun v =>
                    t_mul v (of_py (1 - MultiheadFlashDiff1.lambda_init
                                          self)%float))
                 (MultiheadFlashDiff1.f_normed fr)).
  { intros W. pose proof Hs as Hs'.
    rewrite lift2_scalar_r in Hs' by assumption.
    apply Ok_inj in Hs'. now symmetry. }
  pose proof (reshape_data _ _ _ Hflat) as Edata.
  split; [exact Hlam|]. split; [exact Hnorm|]. split; [exact Hcomb|].
  split; [exact Hn|]. split; [exact Hs|]. split; [exact Escaled|].
  split; [exists bsz, t, c; split; assumption|].
  split; [exact Edata|].
  split; [intros W; rewrite Edata, (Escaled W); reflexivity|].
  split; [exact Hout|].
  unfold MultiheadFlashDiff1.forward. rewrite H. reflexivity.
Qed.

(** C3 (amended): let the lambda vectors be vectors of one length with
    [lambda_q1 = lambda_q2] and [lambda_k1 = lambda_k2].  Then [lambda_1]
    and [lambda_2] are the same scalar [l = exp(dot(lambda_q1, lambda_k1))].
    In an element type where [v - v] is zero for every finite [v] and
    [0 + lambda_init = lambda_init], if [l] is finite (that is, [exp] did
    not overflow) then [lambda_full] is [lambda_init] in the element type
    and the combination is [attn1 - lambda_init * attn2]. *)
Theorem equal_lambdas_gate {B : Backend}
    (finite : dtype -> bool) (zero : dtype)
    (self : MultiheadFlashDiff1.Layer B) (x : tensor dtype)
    (rel_pos : list (tensor dtype)) (attn_mask : option (tensor dtype))
    (fr : MultiheadFlashDiff1.Frame B) (n : Z) :
  (forall v, finite v = true -> t_sub v v = zero) ->
  t_add zero (of_py (MultiheadFlashDiff1.lambda_init self)) =
    of_py (MultiheadFlashDiff1.lambda_init self) ->
  MultiheadFlashDiff1.forward_frame self x rel_pos attn_mask = Ok fr ->
  wf (MultiheadFlashDiff1.lambda_q1 self) ->
  wf (MultiheadFlashDiff1.lambda_k1 self) ->
  shape (MultiheadFlashDiff1.lambda_q1 self) = [n] ->
  shape (MultiheadFlashDiff1.lambda_k1 self) = [n] ->
  MultiheadFlashDiff1.lambda_q1 self = MultiheadFlashDiff1.lambda_q2 self ->
  MultiheadFlashDiff1.lambda_k1 self = MultiheadFlashDiff1.lambda_k2 self ->
  let l := type_as (f_exp (to_float
             (MultiheadFlashDiff1.dot (MultiheadFlashDiff1.lambda_q1 self)
                                      (MultiheadFlashDiff1.lambda_k1 self))))
  in
  MultiheadFlashDiff1.f_lambda_1 fr = scalar l /\
  MultiheadFlashDiff1.f_lambda_2 fr = scalar l /\
  (finite l = true ->
   MultiheadFlashDiff1.f_lambda_full fr =
     scalar (of_py (MultiheadFlashDiff1.lambda_init self)) /\
   exists gated,
     lift2 t_mul (scalar (of_py (MultiheadFlashDiff1.lambda_init self)))
       (MultiheadFlashDiff1.f_attn2 fr) = Ok gated /\
     lift2 t_sub (MultiheadFlashDiff1.f_attn1 fr) gated =
       Ok (MultiheadFlashDiff1.f_combined fr)).
Proof.
  intros Hsub Hadd H Wq Wk Sq Sk Eq Ek l.
  destruct (forward_frame_Ok _ _ _ _ _ H) as (bsz & t & q & k & v & _ & Ht).
  apply forward_tail_Ok in Ht.
  destruct Ht as (_ & _ & (H1 & H2 & diff & Hd & Hf) & Hcomb & _).
  rewrite <- Eq, <- Ek in H2.
  rewrite (lambda_gate_vectors _ _ n Wq Wk Sq Sk) in H1, H2.
  apply Ok_inj in H1. apply Ok_inj in H2. fold l in H1, H2.
  split; [now symmetry|]. split; [now symmetry|].
  intros Hfin.
  rewrite <- H1, <- H2 in Hd.
  rewrite lift2_scalar_r in Hd by apply wf_scalar.
  apply Ok_inj in Hd. subst diff.
  rewrite lift2_scalar_r in Hf by (apply wf_tmap, wf_scalar).
  apply Ok_inj in Hf.
  assert (Efull : MultiheadFlashDiff1.f_lambda_full fr =
                  scalar (of_py (MultiheadFlashDiff1.lambda_init self))).
  { rewrite <- Hf. unfold tmap, scalar. cbn [shape data map].
    rewrite (Hsub l Hfin), Hadd. reflexivity. }
  split; [exact Efull|]. rewrite <- Efull. exact Hcomb.
Qed.

(** In float32, [v - v = +0] for every finite [v]. *)
Lemma f32_sub_diag (v : Sample.f32) :
  Sample.f32_finite v = true -> Sample.f32_sub v v = Sample.f32_zero.
Proof.
  destruct v as [s|s| |s m e]; cbn [Sample.f32_finite]; try discriminate;
    intros _.
  - destruct s; reflexivity.
  - unfold Sample.f32_sub, SFsub. rewrite Z.sub_diag. reflexivity.
Qed.

Lemma sample_frame_4 :
  MultiheadFlashDiff1.forward_frame (B := Sample.backend)
    Sample.layer_4 Sample.x_1_2_4 Sample.rel_pos_2 None = Ok Sample.frame_4.
Proof. reflexivity. Qed.

Lemma sample_frame_4_big :
  MultiheadFlashDiff1.forward_frame (B := Sample.backend)
    Sample.layer_4_big Sample.x_1_2_4 Sample.rel_pos_2 None =
  Ok Sample.frame_4_big.
Proof. reflexivity. Qed.

(** C3 (as stated, refuted): a layer with [lambda_q1 = lambda_q2] and
    [lambda_k1 = lambda_k2] whose dot product is 1000.  [exp] overflows,
    [lambda_1] and [lambda_2] are both [+inf], their difference is NaN and
    so is [lambda_full], which is not [lambda_init]. *)
Lemma equal_lambdas_overflow :
  MultiheadFlashDiff1.lambda_q1 Sample.layer_4_big =
    MultiheadFlashDiff1.lambda_q2 Sample.layer_4_big /\
  MultiheadFlashDiff1.lambda_k1 Sample.layer_4_big =
    MultiheadFlashDiff1.lambda_k2 Sample.layer_4_big /\
  MultiheadFlashDiff1.forward_frame (B := Sample.backend)
    Sample.layer_4_big Sample.x_1_2_4 Sample.rel_pos_2 None =
    Ok Sample.frame_4_big /\
  MultiheadFlashDiff1.f_lambda_1 Sample.frame_4_big =
    scalar (S754_infinity false) /\
  MultiheadFlashDiff1.f_lambda_2 Sample.frame_4_big =
    scalar (S754_infinity false) /\
  MultiheadFlashDiff1.f_lambda_full Sample.frame_4_big = scalar S754_nan /\
  MultiheadFlashDiff1.f_lambda_full Sample.frame_4_big <>
    scalar (of_py (MultiheadFlashDiff1.lambda_init Sample.layer_4_big)).
Proof.
  split; [reflexivity|]. split; [reflexivity|].
  split; [exact sample_frame_4_big|].
  split; [reflexivity|]. split; [reflexivity|]. split; [reflexivity|].
  discriminate.
Qed.

(** [equal_lambdas_gate] at the sample layer with its four lambda vectors
    zero: [lambda_1 = exp(0) = 1] and [1 - 1 = +0]. *)
Lemma equal_lambdas_gate_witness :
  MultiheadFlashDiff1.forward_frame (B := Sample.backend)
    Sample.layer_4 Sample.x_1_2_4 Sample.rel_pos_2 None =
    Ok Sample.frame_4 /\
  MultiheadFlashDiff1.f_lambda_full Sample.frame_4 =
    scalar (of_py (MultiheadFlashDiff1.lambda_init Sample.layer_4)).
Proof.
  split.
  - exact sample_frame_4.
  - exact (proj1 (proj2 (proj2
      (equal_lambdas_gate (B := Sample.backend)
         Sample.f32_finite Sample.f32_zero
         Sample.layer_4 Sample.x_1_2_4 Sample.rel_pos_2
         None Sample.frame_4 2
         f32_sub_diag eq_refl sample_frame_4
         (proj1 (sample_wf_vec _ _)) (proj1 (sample_wf_vec _ _))
         eq_refl eq_refl eq_refl eq_refl)) eq_refl)).
Defined.

Lemma sample_init_layer_id_4 :
  MultiheadFlashDiff1.__init__ (B := Sample.backend_id)
    Sample.one_device 4 0 1 = Ok Sample.layer_id_4.
Proof. reflexivity. Qed.

Lemma sample_frame_id_low :
  MultiheadFlashDiff1.forward_frame (B := Sample.backend_id)
    Sample.layer_id_4_low Sample.x_ones Sample.rel_pos_1 None =
  Ok Sample.frame_id_low.
Proof. reflexivity. Qed.

(** [rescale_by_lambda_init] in the environment with values, on a layer
    whose lambda vectors have moved from their initial zeros: [lambda_1] is
    exp(-200) = 0 and [lambda_2] is exp(0) = 1, so [lambda_full] is -0.8 and
    differs from [lambda_init], about 0.2.  Every feature of the input is
    1, so is every feature of both attention results; the combination is
    1.8 everywhere, the placeholder normalization keeps it, and the
    rescaling by [1 - lambda_init], about 0.8, gives 1.44, which the
    identity output projection returns.  A factor [1 - lambda_full = 1.8]
    would have given 3.24. *)
Lemma rescale_by_lambda_init_witness :
  MultiheadFlashDiff1.f_lambda_full Sample.frame_id_low =
    scalar (S754_finite true 13421773 (-24)) /\
  @of_py Sample.backend_id
    (1 - MultiheadFlashDiff1.lambda_init Sample.layer_id_4)%float =
    S754_finite false 13421773 (-24) /\
  MultiheadFlashDiff1.f_normed Sample.frame_id_low =
    mkTensor [1; 1; 1; 4]%Z (repeat (S754_finite false 15099494 (-23)) 4) /\
  data (MultiheadFlashDiff1.f_flat Sample.frame_id_low) =
    map (fun v => Sample.f32_mul v (S754_finite false 13421773 (-24)))
        (repeat (S754_finite false 15099494 (-23)) 4) /\
  MultiheadFlashDiff1.forward (B := Sample.backend_id)
    Sample.layer_id_4_low Sample.x_ones Sample.rel_pos_1 None =
    Ok (mkTensor [1; 1; 4]%Z (repeat (S754_finite false 12079595 (-23)) 4)).
Proof.
  pose proof (rescale_by_lambda_init (B := Sample.backend_id)
                Sample.one_device 4 0 1 Sample.layer_id_4
                Sample.low_q Sample.low_k Sample.zero_2 Sample.zero_2
                Sample.x_ones Sample.rel_pos_1 None Sample.frame_id_low
                sample_init_layer_id_4 sample_frame_id_low)
    as (_ & _ & _ & _ & _ & _ & _ & _ & Hflat & _ & Hfwd).
  split; [reflexivity|]. split; [reflexivity|]. split; [reflexivity|].
  split.
  - apply Hflat. split; [repeat constructor; lia|reflexivity].
  - exact Hfwd.
Defined.

(** ** Model parallelism *)

(** C9 (as stated, refuted): a configuration the constructor accepts, on
    one device, whose flattened width [self.num_heads * 2 * head_dim] is
    not [embed_dim // p]: 8 heads of width 100 give [head_dim = 6] and a
    flattened width of 96. *)
Lemma parallel_width_not_unconditional :
  ~ (forall (a : MultiheadFlashDiff1.Args) (e depth nh : Z)
            (self : MultiheadFlashDiff1.Layer Sample.backend),
       MultiheadFlashDiff1.__init__ a e depth nh = Ok self ->
       (MultiheadFlashDiff1.num_heads self * 2 *
          MultiheadFlashDiff1.head_dim self =
        e / MultiheadFlashDiff1.model_parallel_size a)%Z).
Proof.
  intros H.
  pose proof (H Sample.one_device 100%Z 0%Z 8%Z _ eq_refl) as E.
  vm_compute in E. discriminate.
Qed.

(** C9 (amended): the constructor computes [head_dim] from its argument
    [num_heads] as [embed_dim // num_heads // 2] and stores [num_heads] and
    [num_kv_heads] divided by [model_parallel_size].  When
    [model_parallel_size = p > 0] divides [num_heads > 0] and
    [2 * num_heads] divides [embed_dim], the width
    [self.num_heads * 2 * head_dim] of the final reshape of [forward] is
    [embed_dim // p], which is [embed_dim] exactly when [p = 1]; and on
    [p] devices, whose column-parallel layers return and whose
    row-parallel layers take the local width, [forward] returns, its
    flattened tensor has shape (batch, length, embed_dim // p) and its
    result has shape (batch, length, embed_dim).  Without the
    divisibility, when [forward] returns on a non-empty input the
    flattened width is the width [w] of the local output of the query
    projection. *)
Theorem parallel_width {B : Backend}
    (a : MultiheadFlashDiff1.Args) (e depth nh : Z)
    (self : MultiheadFlashDiff1.Layer B) :
  MultiheadFlashDiff1.__init__ a e depth nh = Ok self ->
  let p := MultiheadFlashDiff1.model_parallel_size a in
  (MultiheadFlashDiff1.head_dim self = (e / nh / 2)%Z /\
   MultiheadFlashDiff1.num_heads self = (nh / p)%Z /\
   MultiheadFlashDiff1.num_kv_heads self =
     MultiheadFlashDiff1.kv_heads_of a nh) /\
  ((0 < p)%Z -> (0 < nh)%Z -> (nh mod p = 0)%Z ->
   (e mod (2 * nh) = 0)%Z ->
   (MultiheadFlashDiff1.num_heads self * 2 *
      MultiheadFlashDiff1.head_dim self = e / p)%Z /\
   ((e / p)%Z = e <-> p = 1%Z) /\
   (forall q1 k1 q2 k2 x rel_pos attn_mask fr b t c,
      wf x -> shape x = [b; t; c] ->
      MultiheadFlashDiff1.forward_frame
        (MultiheadFlashDiff1.with_lambdas self q1 k1 q2 k2)
        x rel_pos attn_mask = Ok fr ->
      shape (MultiheadFlashDiff1.f_flat fr) = [b; t; (e / p)%Z]) /\
   (parallel_devices p ->
    match MultiheadFlashDiff1.decoder_kv_attention_heads a with
    | Some kv => (0 < kv)%Z /\ (kv mod p = 0)%Z /\
                 ((nh / p) mod (kv / p) = 0)%Z
    | None => True
    end ->
    forall q1 k1 q2 k2 x rel_pos attn_mask b t,
      Forall (fun l => wf l /\ shape l = [MultiheadFlashDiff1.head_dim self])
             [q1; k1; q2; k2] ->
      wf x -> shape x = [b; t; e] ->
      rotary_matches rel_pos t (MultiheadFlashDiff1.head_dim self) ->
      exists fr,
        MultiheadFlashDiff1.forward_frame
          (MultiheadFlashDiff1.with_lambdas self q1 k1 q2 k2)
          x rel_pos attn_mask = Ok fr /\
        shape (MultiheadFlashDiff1.f_flat fr) = [b; t; (e / p)%Z] /\
        MultiheadFlashDiff1.forward
          (MultiheadFlashDiff1.with_lambdas self q1 k1 q2 k2)
          x rel_pos attn_mask = Ok (MultiheadFlashDiff1.f_out fr) /\
        shape (MultiheadFlashDiff1.f_out fr) = [b; t; e])) /\
  (forall w q1 k1 q2 k2 x rel_pos attn_mask fr b t,
     linear_maps (MultiheadFlashDiff1.q_proj self) e w ->
     wf x -> shape x = [b; t; e] -> (0 < b)%Z -> (0 < t)%Z ->
     MultiheadFlashDiff1.forward_frame
       (MultiheadFlashDiff1.with_lambdas self q1 k1 q2 k2)
       x rel_pos attn_mask = Ok fr ->
     (MultiheadFlashDiff1.num_heads self * 2 *
        MultiheadFlashDiff1.head_dim self = w)%Z /\
     shape (MultiheadFlashDiff1.f_flat fr) = [b; t; w]).
Proof.
  intros Hself p.
  destruct (init_Ok _ _ _ _ _ Hself)
    as ((_ & _ & _ & _ & Hhd) & (_ & _ & Enh & Ekv & _ & Ehd) & _).
  fold p in Enh. split; [auto|]. split.
  - intros Hp Hnh Hdiv He.
    assert (Ee : e = (2 * nh * MultiheadFlashDiff1.head_dim self)%Z).
    { rewrite Ehd, Z.div_div by lia.
      apply Z.div_exact in He; [|lia]. rewrite (Z.mul_comm nh 2). exact He. }
    assert (Em : nh = (p * MultiheadFlashDiff1.num_heads self)%Z).
    { rewrite Enh. apply Z.div_exact; [lia|assumption]. }
    assert (Ew : (MultiheadFlashDiff1.num_heads self * 2 *
                  MultiheadFlashDiff1.head_dim self = e / p)%Z).
    { rewrite Ee at 1. rewrite Em at 1.
      replace (2 * (p * MultiheadFlashDiff1.num_heads self) *
               MultiheadFlashDiff1.head_dim self)%Z
        with (MultiheadFlashDiff1.num_heads self * 2 *
              MultiheadFlashDiff1.head_dim self * p)%Z by ring.
      symmetry. apply Z.div_mul. lia. }
    assert (Hmpos : (0 < MultiheadFlashDiff1.num_heads self)%Z) by nia.
    split; [exact Ew|]. split; [|split].
    + split.
      * intros E1. rewrite <- Ew in E1. nia.
      * intros ->. apply Z.div_1_r.
    + intros q1 k1 q2 k2 x rel_pos attn_mask fr b t c Wx Ex H.
      destruct (forward_frame_Ok _ _ _ _ _ H)
        as (bsz & t' & q & k & v & Hhead & Htail).
      destruct (forward_head_Ok _ _ _ _ _ _ _ _ _ Hhead) as [_ [c' Ex']].
      rewrite Ex in Ex'.
      assert (E2 : b = bsz /\ t = t') by (split; congruence).
      destruct E2 as [<- <-].
      apply forward_tail_Ok in Htail.
      destruct Htail as (_ & _ & _ & _ & _ & _ & Hflat & _).
      cbn [MultiheadFlashDiff1.with_lambdas MultiheadFlashDiff1.num_heads
           MultiheadFlashDiff1.head_dim] in Hflat.
      rewrite Ew in Hflat.
      apply reshape_Ok_shape in Hflat; [exact Hflat|].
      pose proof (nonneg_of_wf _ _ Wx Ex) as N. unfold nonneg in N.
      repeat (apply Forall_cons_iff in N;
              let H := fresh in destruct N as [H N]).
      repeat constructor; try assumption. rewrite <- Ew. nia.
    + intros Hdev Hkv q1 k1 q2 k2 x rel_pos attn_mask b t Hlam Wx Ex Hrot.
      pose proof (init_layer_shapes_parallel a e depth nh p self q1 k1 q2 k2
                    Hdev Hself eq_refl Hp Hnh Hdiv He Hkv Hlam) as Hshapes.
      destruct (forward_frame_shapes
                  (MultiheadFlashDiff1.with_lambdas self q1 k1 q2 k2)
                  e b t x rel_pos attn_mask)
        as (fr & Hfr & Hout & _ & _ & Hflat & _); try assumption.
      { apply Hdev. }
      cbn [MultiheadFlashDiff1.with_lambdas MultiheadFlashDiff1.num_heads
           MultiheadFlashDiff1.head_dim] in Hflat.
      rewrite Ew in Hflat.
      exists fr. split; [exact Hfr|]. split; [exact Hflat|].
      split; [|exact Hout].
      unfold MultiheadFlashDiff1.forward. rewrite Hfr. reflexivity.
  - intros w q1 k1 q2 k2 x rel_pos attn_mask fr b t Hlin Wx Ex Hb Ht H.
    destruct (forward_frame_Ok _ _ _ _ _ H)
      as (bsz & t' & q & k & v & Hhead & Htail).
    destruct (forward_head_Ok _ _ _ _ _ _ _ _ _ Hhead) as [_ [c' Ex']].
    rewrite Ex in Ex'.
    assert (E2 : b = bsz /\ t = t') by (split; congruence).
    destruct E2 as [<- <-].
    destruct (forward_head_query _ _ _ _ _ _ _ _ _ Hhead)
      as (q0 & qv & Hq0 & Hview).
    cbn [MultiheadFlashDiff1.with_lambdas MultiheadFlashDiff1.num_heads
         MultiheadFlashDiff1.head_dim MultiheadFlashDiff1.q_proj]
      in Hq0, Hview.
    destruct (Hlin x [b; t] Wx Ex) as (y & Hy & Wy & Sy).
    rewrite Hy in Hq0. apply Ok_inj in Hq0. subst q0.
    cbn [app] in Sy.
    pose proof (view_width _ _ b t w _ _ Wy Sy Hb Ht Hhd Hview) as Ew.
    assert (Ew' : (MultiheadFlashDiff1.num_heads self * 2 *
                   MultiheadFlashDiff1.head_dim self = w)%Z) by lia.
    split; [exact Ew'|].
    apply forward_tail_Ok in Htail.
    destruct Htail as (_ & _ & _ & _ & _ & _ & Hflat & _).
    cbn [MultiheadFlashDiff1.with_lambdas MultiheadFlashDiff1.num_heads
         MultiheadFlashDiff1.head_dim] in Hflat.
    rewrite Ew' in Hflat.
    apply reshape_Ok_shape in Hflat; [exact Hflat|].
    pose proof (nonneg_of_wf _ _ Wy Sy) as N. exact N.
Qed.

(** [parallel_width] on two devices, with [embed_dim = 8] and
    [num_heads = 2]: one local head of [head_dim = 2], and [forward] on an
    input of shape (1, 2, 8) flattens to shape (1, 2, 4) and returns shape
    (1, 2, 8). *)
Lemma parallel_width_witness :
  exists self fr,
    MultiheadFlashDiff1.__init__ (B := Sample.backend_on 2)
      Sample.two_devices 8 0 2 = Ok self /\
    (MultiheadFlashDiff1.num_heads self * 2 *
       MultiheadFlashDiff1.head_dim self = 4)%Z /\
    MultiheadFlashDiff1.forward_frame (B := Sample.backend_on 2)
      (MultiheadFlashDiff1.with_lambdas self
         Sample.zero_2 Sample.zero_2 Sample.zero_2 Sample.zero_2)
      Sample.x_1_2_8 Sample.rel_pos_2 None = Ok fr /\
    shape (MultiheadFlashDiff1.f_flat fr) = [1; 2; 4]%Z /\
    shape (MultiheadFlashDiff1.f_out fr) = [1; 2; 8]%Z.
Proof.
  eexists.
  pose proof (proj1 (proj2 (parallel_width (B := Sample.backend_on 2)
                              Sample.two_devices 8 0 2 _ eq_refl))
                eq_refl eq_refl eq_refl eq_refl)
    as (Hw & _ & _ & Hfwd).
  destruct (Hfwd (sample_parallel_devices 2) I
              Sample.zero_2 Sample.zero_2 Sample.zero_2 Sample.zero_2
              Sample.x_1_2_8 Sample.rel_pos_2 None 1%Z 2%Z)
    as (fr & Hfr & Hflat & _ & Hout).
  - repeat constructor; try (apply Z.leb_le; reflexivity).
  - exact sample_wf_x_8.
  - reflexivity.
  - exact (sample_rotary_matches_on 2).
  - exists fr. split; [reflexivity|]. split; [exact Hw|].
    split; [exact Hfr|]. split; [exact Hflat|exact Hout].
Defined.

(** * Further properties *)

(** ** The gate does not depend on the input *)




(** ** Divisions by zero in the constructor *)

Section InitEdges.

Import MultiheadFlashDiff1.

Context {B : Backend}.

Open Scope Z_scope.


End InitEdges.


(** ** What the constructor does not check, [forward] rejects *)

Section ForwardRejects.

Import MultiheadFlashDiff1.

Context {B : Backend}.

Open Scope Z_scope.



End ForwardRejects.


(** ** [repeat_kv] outside [n_rep >= 1] *)

Section RepeatEdges.

Context {T : Type}.

Open Scope Z_scope.







End RepeatEdges.



(** ** Consecutive heads form the two halves *)

Section HeadPairs.

Context {T : Type}.

Open Scope Z_scope.



End HeadPairs.

Section ForwardPairs.

Import MultiheadFlashDiff1.

Context {B : Backend}.

Open Scope Z_scope.


End ForwardPairs.


